(** * pdf-to-mp3: the chunked, retrying, timeout-bounded text-to-speech pipeline

    A shallow embedding of [src/routes/pdf_converter_optimized.py].

    - Python [str] values are [string]s, Python [int]s are [Z].
    - The filesystem is a finite map from paths to byte contents;
      directories are not modelled, so [os.makedirs] has no effect here.
    - The code that runs on the background thread ([convert] and the two
      retry wrappers) is written in a small free monad [Prog] of primitive
      operations, so that a run can be cut at a wall-clock deadline and the
      abandoned rest can still be resumed afterwards.
    - Time is counted in the units of [time.sleep]: a sleep takes its
      argument, a backend call takes the latency of its answer, every other
      operation is immediate.
    - The speech backend (gTTS) is outside the repository: its answers and
      their latencies come from an oracle indexed by the call number.  So
      are PyMuPDF, [secure_filename], [os.path.splitext] and [uuid4], which
      the handler takes from an environment [Env].
    - Flask's [send_from_directory] is outside the repository too: it is
      modelled by what it does with werkzeug's [safe_join], which
      [download_file] takes as a parameter.
    - The [print] calls of the source have no counterpart: standard output
      is not part of the world.  The world keeps its own log of the
      operations performed.
    - A world is the world of one request: it has the one [result]
      dictionary of that request's conversion. *)

From Stdlib Require Import ZArith Lia Ascii.
From stdpp Require Import base tactics option list list_numbers strings pretty gmap.

Open Scope Z_scope.

(** ** Python strings *)

Module Str.

(** [len(s)] *)
Definition len (s : string) : Z := Z.of_nat (String.length s).

(** [s[i:j]] for indices [0 <= i]; the slice is clamped to the string, as
    in Python.  The source never slices with a negative index. *)
Definition slice (s : string) (i j : Z) : string :=
  String.substring (Z.to_nat i) (Z.to_nat (j - i)) s.

(** [s[:j]] *)
Definition prefix (s : string) (j : Z) : string := slice s 0 j.

(** ["".join(l)] *)
Definition join (l : list string) : string := foldr String.append "" l.

End Str.


(** ** Python [range] *)

(** [range(start, stop, step)] for a positive [step]: the values
    [start, start + step, ...] below [stop]. *)
Definition range3 (start stop step : Z) : list Z :=
  (fun k => start + k * step) <$> seqZ 0 ((stop - start + step - 1) / step).

(** [range(n)] *)
Definition range (n : Z) : list Z := range3 0 n 1.

(** ** The text chunker (line 95 of [text_to_mp3_optimized]) *)

Definition max_chunk_size : Z := 1000.
Definition chunk_delay : Z := 2.

(** [[text[i:i+max_chunk_size] for i in range(0, len(text), max_chunk_size)]] *)
Definition chunks (text : string) : list string :=
  (fun i => Str.slice text i (i + max_chunk_size))
    <$> range3 0 (Str.len text) max_chunk_size.

(** ** Exceptions, the filesystem and the speech backend *)

(** Python exceptions, as far as the code can tell them apart: it only
    ever looks at [str(e)]. *)
Inductive exn : Type :=
| BackendError (msg : string)        (* raised by gTTS *)
| FileNotFoundError (path : string)  (* [open] or [os.remove] on a missing path *)
| PermissionError (path : string)    (* [open] on a path that may not be read *)
| AttributeError (msg : string)      (* a method call on [None] *)
| Exception (msg : string).          (* [raise Exception(...)] in the source *)

(** [str(e)] *)
Definition str (e : exn) : string :=
  match e with
  | BackendError msg => msg
  | FileNotFoundError path =>
      "[Errno 2] No such file or directory: '" +:+ path +:+ "'"
  | PermissionError path =>
      "[Errno 13] Permission denied: '" +:+ path +:+ "'"
  | AttributeError msg => msg
  | Exception msg => msg
  end.

Abbreviation bytes := (list Byte.byte).

(** A [gTTS] object: the text and the language it was built from. *)
Record tts : Type := { tts_text : string; tts_lang : string }.

(** What the backend does with one call.  A failing [save] has already
    opened its target for writing, so it may leave [partial] bytes there. *)
Inductive outcome : Type :=
| Succeeds (audio : bytes)
| Fails (e : exn) (partial : option bytes).

(** One answer of the backend: how long the call blocks, and how it ends. *)
Record reply : Type := { latency : N; result_of : outcome }.

(** The [result] dictionary shared by [convert] and its supervisor. *)
Record Result : Type := { success : bool; error : option string }.

(** What a run does, in order. *)
Inductive event : Type :=
| EvSleep (secs : Z)
| EvGTTS (text language : string)
| EvSave (t : option tts) (path : string)
| EvOpenWb (path : string)
| EvRead (path : string)
| EvWrite (path : string) (data : bytes)
| EvRemove (path : string).

Record world : Type := {
  fs : gmap string bytes;      (* path -> content *)
  unreadable : string -> bool; (* paths that may not be opened for reading *)
  backend : nat -> reply;      (* the answer to the n-th backend call *)
  calls : nat;                 (* backend calls made so far *)
  log : list event;            (* what happened so far, oldest first *)
  result : Result              (* the [result] dict of the conversion *)
}.

Definition with_fs (f : gmap string bytes) (w : world) : world :=
  {| fs := f; unreadable := unreadable w; backend := backend w;
     calls := calls w; log := log w; result := result w |}.

Definition with_result (r : Result) (w : world) : world :=
  {| fs := fs w; unreadable := unreadable w; backend := backend w;
     calls := calls w; log := log w; result := r |}.

Definition record (ev : event) (w : world) : world :=
  {| fs := fs w; unreadable := unreadable w; backend := backend w;
     calls := calls w; log := log w ++ [ev]; result := result w |}.

Definition called (w : world) : world :=
  {| fs := fs w; unreadable := unreadable w; backend := backend w;
     calls := S (calls w); log := log w; result := result w |}.

(** ** Primitive operations and programs *)

(** The operations the background thread performs, indexed by what they
    give back; an operation that can raise gives back [exn + _]. *)
Inductive op : Type -> Type :=
| Sleep (secs : Z) : op unit                               (* time.sleep *)
| GTTS (text language : string) : op (exn + tts)           (* gTTS(text=, lang=, slow=False) *)
| Save (t : option tts) (path : string) : op (exn + unit)  (* tts.save(path) *)
| OpenWb (path : string) : op unit                         (* open(path, 'wb') *)
| ReadAll (path : string) : op (exn + bytes)               (* open(path, 'rb').read() *)
| Write (path : string) (data : bytes) : op unit           (* outfile.write(data) *)
| Remove (path : string) : op (exn + unit)                 (* os.remove(path) *)
| SetSuccess : op unit                                     (* result['success'] = True *)
| SetError (msg : string) : op unit.                       (* result['error'] = msg *)

Inductive Prog (A : Type) : Type :=
| Ret (a : A)
| Raise (e : exn)
| Do {X : Type} (o : op X) (k : X -> Prog A).

Arguments Ret {A} a.
Arguments Raise {A} e.
Arguments Do {A X} o k.

Fixpoint bind {A B : Type} (p : Prog A) (f : A -> Prog B) : Prog B :=
  match p with
  | Ret a => f a
  | Raise e => Raise e
  | Do o k => Do o (fun x => bind (k x) f)
  end.

(** [try: p  except Exception as e: h e] *)
Fixpoint try_except {A : Type} (p : Prog A) (h : exn -> Prog A) : Prog A :=
  match p with
  | Ret a => Ret a
  | Raise e => h e
  | Do o k => Do o (fun x => try_except (k x) h)
  end.

(** Perform an operation that cannot raise. *)
Definition perform {X : Type} (o : op X) : Prog X := Do o Ret.

(** Perform an operation outside any [try]: its exception propagates. *)
Definition call {X : Type} (o : op (exn + X)) : Prog X :=
  Do o (fun r => match r with inl e => Raise e | inr x => Ret x end).

#[global] Instance Prog_ret : MRet Prog := fun A a => Ret a.
#[global] Instance Prog_bind : MBind Prog := fun A B f p => bind p f.

(** The effect of one operation on the world. *)
Definition exec {X : Type} (o : op X) (w : world) : X * world :=
  match o in op X return X * world with
  | Sleep secs => (tt, record (EvSleep secs) w)
  | GTTS text language =>
      let w' := called (record (EvGTTS text language) w) in
      match result_of (backend w (calls w)) with
      | Succeeds _ => (inr {| tts_text := text; tts_lang := language |}, w')
      | Fails e _ => (inl e, w')
      end
  | Save None path =>
      (inl (AttributeError "'NoneType' object has no attribute 'save'"),
       record (EvSave None path) w)
  | Save (Some t) path =>
      let w' := called (record (EvSave (Some t) path) w) in
      match result_of (backend w (calls w)) with
      | Succeeds audio => (inr tt, with_fs (<[path := audio]> (fs w)) w')
      | Fails e (Some partial) =>
          (inl e, with_fs (<[path := partial]> (fs w)) w')
      | Fails e None => (inl e, w')
      end
  | OpenWb path =>
      (tt, with_fs (<[path := []]> (fs w)) (record (EvOpenWb path) w))
  | ReadAll path =>
      let w' := record (EvRead path) w in
      match fs w !! path with
      | Some data =>
          if unreadable w path
          then (inl (PermissionError path), w')
          else (inr data, w')
      | None => (inl (FileNotFoundError path), w')
      end
  | Write path data =>
      let w' := record (EvWrite path data) w in
      match fs w !! path with
      | Some old => (tt, with_fs (<[path := old ++ data]> (fs w)) w')
      | None => (tt, w')   (* the open file was unlinked meanwhile *)
      end
  | Remove path =>
      let w' := record (EvRemove path) w in
      match fs w !! path with
      | Some _ => (inr tt, with_fs (delete path (fs w)) w')
      | None => (inl (FileNotFoundError path), w')
      end
  | SetSuccess =>
      (tt, with_result {| success := true; error := error (result w) |} w)
  | SetError msg =>
      (tt, with_result {| success := success (result w); error := Some msg |} w)
  end.

(** How long one operation blocks the thread: sleeps and backend calls
    take time, everything else is immediate. *)
Definition duration {X : Type} (o : op X) (w : world) : Z :=
  match o with
  | Sleep secs => Z.max 0 secs
  | GTTS _ _ | Save (Some _) _ => Z.of_N (latency (backend w (calls w)))
  | _ => 0
  end.

(** Run a program to its end. *)
Fixpoint run {A : Type} (p : Prog A) (w : world) : (exn + A) * world :=
  match p with
  | Ret a => (inr a, w)
  | Raise e => (inl e, w)
  | Do o k => let '(x, w') := exec o w in run (k x) w'
  end.

(** The time a full run takes. *)
Fixpoint elapsed {A : Type} (p : Prog A) (w : world) : Z :=
  match p with
  | Ret _ | Raise _ => 0
  | Do o k => let '(x, w') := exec o w in duration o w + elapsed (k x) w'
  end.

(** ** Threads *)

Inductive thread_state : Type :=
| Finished
| Alive (rest : Prog unit).

(** [thread.start(); thread.join(timeout)]: the thread runs until it ends
    or until the next operation would finish after the deadline; the
    operations left at that point stay with the thread.  An exception that
    escapes the thread's target ends the thread. *)
Fixpoint join_for (budget : Z) (p : Prog unit) (w : world)
  : thread_state * world :=
  match p with
  | Ret _ | Raise _ => (Finished, w)
  | Do o k =>
      if decide (duration o w <= budget)
      then let '(x, w') := exec o w in join_for (budget - duration o w) (k x) w'
      else (Alive p, w)
  end.

Definition join (timeout : Z) (p : Prog unit) (w : world)
  : thread_state * world := join_for (Z.max 0 timeout) p w.

(** [thread.is_alive()] *)
Definition is_alive (th : thread_state) : bool :=
  match th with Finished => false | Alive _ => true end.

(** ** The retry wrappers *)

(** The body of [for attempt in range(max_retries)] in
    [create_tts_with_retry], over the attempts still to make.  Falling out
    of the loop returns [None]. *)
Fixpoint create_tts_loop (text language : string) (max_retries : Z)
    (attempts : list Z) : Prog (option tts) :=
  match attempts with
  | [] => Ret None
  | attempt :: attempts' =>
      Do (GTTS text language) (fun r =>
        match r with
        | inr t => Ret (Some t)
        | inl e =>
            if decide (attempt < max_retries - 1)
            then
              let wait_time := (attempt + 1) * 2 in
              perform (Sleep wait_time);;
              create_tts_loop text language max_retries attempts'
            else Raise e
        end)
  end.

Definition create_tts_with_retry (text language : string) (max_retries : Z)
  : Prog (option tts) :=
  create_tts_loop text language max_retries (range max_retries).

(** The same loop in [save_tts_with_retry]. *)
Fixpoint save_tts_loop (t : option tts) (output_path : string)
    (max_retries : Z) (attempts : list Z) : Prog unit :=
  match attempts with
  | [] => Ret tt
  | attempt :: attempts' =>
      Do (Save t output_path) (fun r =>
        match r with
        | inr _ => Ret tt
        | inl e =>
            if decide (attempt < max_retries - 1)
            then
              let wait_time := (attempt + 1) * 2 in
              perform (Sleep wait_time);;
              save_tts_loop t output_path max_retries attempts'
            else Raise e
        end)
  end.

Definition save_tts_with_retry (t : option tts) (output_path : string)
    (max_retries : Z) : Prog unit :=
  save_tts_loop t output_path max_retries (range max_retries).

(** The default of the [max_retries] parameter; no caller overrides it. *)
Definition default_max_retries : Z := 3.

(** ** [text_to_mp3_optimized] *)

(** [f"{output_path}.chunk_{i}.mp3"] *)
Definition temp_file_name (output_path : string) (i : Z) : string :=
  output_path +:+ ".chunk_" +:+ pretty i +:+ ".mp3".

(** [enumerate(l)], counting from [i]. *)
Fixpoint enumerate_from {A : Type} (i : Z) (l : list A) : list (Z * A) :=
  match l with
  | [] => []
  | x :: l' => (i, x) :: enumerate_from (i + 1) l'
  end.

Definition enumerate {A : Type} (l : list A) : list (Z * A) :=
  enumerate_from 0 l.

(** The two calls that synthesize a text and persist its audio, as made
    for a chunk (lines 104-105) and for a short text (lines 126-127):
    [tts = create_tts_with_retry(text, language)] and then
    [save_tts_with_retry(tts, path)]. *)
Definition synthesize_and_persist (text language path : string) : Prog unit :=
  t ← create_tts_with_retry text language default_max_retries;
  save_tts_with_retry t path default_max_retries.

(** One round of [for i, chunk in enumerate(chunks)] (lines 100-113);
    [n] is [len(chunks)]. *)
Definition process_chunk (output_path language : string) (n : Z)
    (i : Z) (chunk : string) (temp_files : list string)
  : Prog (list string) :=
  let temp_file := temp_file_name output_path i in
  synthesize_and_persist chunk language temp_file;;
  let temp_files := temp_files ++ [temp_file] in
  (if decide (i < n - 1) then perform (Sleep chunk_delay) else Ret tt);;
  Ret temp_files.

Fixpoint synthesize_chunks (output_path language : string) (n : Z)
    (todo : list (Z * string)) (temp_files : list string)
  : Prog (list string) :=
  match todo with
  | [] => Ret temp_files
  | (i, chunk) :: todo' =>
      temp_files ← process_chunk output_path language n i chunk temp_files;
      synthesize_chunks output_path language n todo' temp_files
  end.

(** [for temp_file in temp_files] inside [with open(output_path, 'wb')]
    (lines 118-121). *)
Fixpoint combine_loop (output_path : string) (temp_files : list string)
  : Prog unit :=
  match temp_files with
  | [] => Ret tt
  | temp_file :: temp_files' =>
      data ← call (ReadAll temp_file);
      perform (Write output_path data);;
      call (Remove temp_file);;
      combine_loop output_path temp_files'
  end.

(** Lines 117-121. *)
Definition combine_chunks (output_path : string) (temp_files : list string)
  : Prog unit :=
  perform (OpenWb output_path);;
  combine_loop output_path temp_files.

(** The [try] block of [convert] (lines 87-130). *)
Definition convert_body (text output_path language : string) : Prog unit :=
  (if decide (Str.len text > max_chunk_size)
   then
     let chunks := chunks text in
     temp_files ← synthesize_chunks output_path language
                    (Z.of_nat (length chunks)) (enumerate chunks) [];
     combine_chunks output_path temp_files
   else
     synthesize_and_persist text language output_path);;
  perform SetSuccess.

(** The nested function [convert], the target of the thread. *)
Definition convert (text output_path language : string) : Prog unit :=
  try_except (convert_body text output_path language)
             (fun e => perform (SetError (str e))).

(** The two exceptions [text_to_mp3_optimized] raises; both are plain
    [Exception]s in the source and differ by their message. *)
Definition TimeoutError (timeout : Z) : exn :=
  Exception ("Text-to-speech conversion timed out after " +:+ pretty timeout
             +:+ " seconds. Please try with a smaller PDF or check your internet connection.").

(** [f"{result['error']}"] *)
Definition fmt_error (o : option string) : string :=
  match o with Some msg => msg | None => "None" end.

Definition ConversionError (detail : option string) : exn :=
  Exception ("Error generating MP3: " +:+ fmt_error detail).

(** [text_to_mp3_optimized(text, output_path, language, timeout)]: what it
    raises or returns, the state of the thread it started, and the world
    at the moment it ends. *)
Definition text_to_mp3_optimized (text output_path language : string)
    (timeout : Z) (w : world) : (exn + unit) * thread_state * world :=
  let w0 := with_result {| success := false; error := None |} w in
  let '(thread, w1) := join timeout (convert text output_path language) w0 in
  if is_alive thread
  then (inl (TimeoutError timeout), thread, w1)
  else if negb (success (result w1))
       then (inl (ConversionError (error (result w1))), thread, w1)
       else (inr tt, thread, w1).

(** ** The upload handler *)

(** What the handler uses from outside the repository. *)
Record Env : Type := {
  root_path : string;                    (* current_app.root_path *)
  unique_id : string;                    (* str(uuid.uuid4()) of this request *)
  secure_filename : string -> string;    (* werkzeug.utils.secure_filename *)
  splitext_root : string -> string;      (* os.path.splitext(_)[0] *)
  fitz_open : bytes -> exn + list (exn + string);
    (* fitz.open on a file's content: it raises, or gives the pages; a
       page's get_text() raises or gives its text *)
  fitz_open_error : exn -> exn
    (* what fitz.open raises for a path whose file it cannot read, given
       the reason: PyMuPDF has errors and messages of its own *)
}.

(** An uploaded file: its name and its stream. *)
Record upload : Type := { filename : string; stream : bytes }.

Record request : Type := {
  files_file : option upload;       (* request.files['file'] *)
  form_language : option string     (* request.form.get('language') *)
}.

Inductive body : Type :=
| ErrorBody (msg : string)                              (* {'error': msg} *)
| SuccessBody (mp3_filename : string) (text_length : Z).
    (* {'success': True, 'filename': _, 'text_length': _,
        'message': 'Conversion completed successfully'} *)

(** [jsonify(body), status] *)
Record response : Type := { json : body; status : Z }.

Definition UPLOAD_FOLDER : string := "uploads".
Definition OUTPUT_FOLDER : string := "outputs".

(** [os.path.join(a, b)] for a relative [b]. *)
Definition path_join (a b : string) : string := a +:+ "/" +:+ b.

(** [os.path.exists(path)] *)
Definition path_exists (path : string) (w : world) : bool :=
  bool_decide (is_Some (fs w !! path)).

Definition lower_char (c : Ascii.ascii) : Ascii.ascii :=
  let n := Ascii.N_of_ascii c in
  if decide (65 <= n <= 90)%N then Ascii.ascii_of_N (n + 32) else c.

(** [s.lower()], on ASCII letters. *)
Fixpoint lower (s : string) : string :=
  match s with
  | EmptyString => EmptyString
  | String c s' => String (lower_char c) (lower s')
  end.

(** [s.rsplit('.', 1)[1]] when ['.' in s]: what follows the last dot. *)
Fixpoint after_last_dot (s : string) : option string :=
  match s with
  | EmptyString => None
  | String c s' =>
      match after_last_dot s' with
      | Some ext => Some ext
      | None => if decide (c = "."%char) then Some s' else None
      end
  end.

Definition allowed_file (filename : string) : bool :=
  match after_last_dot filename with
  | Some ext => bool_decide (lower ext = "pdf")
  | None => false
  end.

(** Whitespace as [str.strip()] sees it, on code points below 256. *)
Definition isspace (c : Ascii.ascii) : bool :=
  let n := Ascii.N_of_ascii c in
  bool_decide ((9 <= n <= 13) \/ (28 <= n <= 32) \/ n = 133 \/ n = 160)%N.

(** [not text.strip()] *)
Fixpoint is_blank (s : string) : bool :=
  match s with
  | EmptyString => true
  | String c s' => isspace c && is_blank s'
  end.

(** [pdf_to_text]: the pages' texts, concatenated; any failure is raised
    again as [Exception("Error reading PDF: ...")]. *)
Fixpoint get_texts (pages : list (exn + string)) (text : string)
  : exn + string :=
  match pages with
  | [] => inr text
  | inl e :: _ => inl e
  | inr page_text :: pages' => get_texts pages' (text +:+ page_text)
  end.

(** [fitz.open(pdf_path)].  A file that is missing or may not be read is
    refused with PyMuPDF's own error for that reason. *)
Definition open_document (env : Env) (pdf_path : string) (w : world)
  : exn + list (exn + string) :=
  match fs w !! pdf_path with
  | Some content =>
      if unreadable w pdf_path
      then inl (fitz_open_error env (PermissionError pdf_path))
      else fitz_open env content
  | None => inl (fitz_open_error env (FileNotFoundError pdf_path))
  end.

Definition pdf_to_text (env : Env) (pdf_path : string) (w : world)
  : exn + string :=
  let attempt :=
    match open_document env pdf_path w with
    | inl e => inl e
    | inr pages => get_texts pages ""
    end in
  match attempt with
  | inl e => inl (Exception ("Error reading PDF: " +:+ str e))
  | inr text => inr text
  end.

(** Lines 219-223. *)
Definition max_text_length : Z := 30000.
Definition truncation_marker : string :=
  "... (text truncated due to length limit)".

Definition cap_text (text : string) : string :=
  if decide (Str.len text > max_text_length)
  then Str.prefix text max_text_length +:+ truncation_marker
  else text.

Definition supported_languages : list string :=
  ["en"; "es"; "fr"; "de"; "it"; "pt"; "ru"; "ja"; "ko"; "zh"].

(** Lines 231-237. *)
Definition choose_language (req : request) : string :=
  let language := default "en" (form_language req) in
  if decide (language ∈ supported_languages) then language else "en".

Definition max_size : Z := 10 * 1024 * 1024.

(** [file.seek(0, 2); file.tell()] *)
Definition file_size (f : upload) : Z := Z.of_nat (length (stream f)).

Definition pdf_path_of (env : Env) (f : upload) : string :=
  path_join (path_join (root_path env) UPLOAD_FOLDER)
            (unique_id env +:+ "_" +:+ secure_filename env (filename f)).

Definition mp3_filename_of (env : Env) (f : upload) : string :=
  unique_id env +:+ "_"
  +:+ splitext_root env (secure_filename env (filename f)) +:+ ".mp3".

Definition mp3_path_of (env : Env) (f : upload) : string :=
  path_join (path_join (root_path env) OUTPUT_FOLDER) (mp3_filename_of env f).

(** What the [try] block of [upload_file] has reached before the
    conversion starts (lines 153-237). *)
Inductive prepared : Type :=
| Respond (r : response)                      (* an early [return] *)
| Raised (e : exn) (pdf_path : string)        (* an exception; [mp3_path] is not bound yet *)
| Ready (text pdf_path mp3_filename mp3_path language : string).

Definition bad_request (msg : string) : response :=
  {| json := ErrorBody msg; status := 400 |}.

(** Lines 194-206: the validation block, with its own [try]. *)
Definition validate_pdf (env : Env) (pdf_path : string) (w : world)
  : option prepared * world :=
  let on_error (w : world) :=
    match exec (Remove pdf_path) w with
    | (inl e, w') => (Some (Raised e pdf_path), w')
    | (inr _, w') => (Some (Respond (bad_request "Invalid PDF file format")), w')
    end in
  match open_document env pdf_path w with
  | inl _ => on_error w
  | inr pages =>
      let page_count := Z.of_nat (length pages) in
      if decide (page_count = 0)
      then match exec (Remove pdf_path) w with
           | (inl _, w') => on_error w'
           | (inr _, w') =>
               (Some (Respond (bad_request "Invalid PDF file - no pages found")), w')
           end
      else (None, w)
  end.

Definition upload_prepare (env : Env) (req : request) (w : world)
  : prepared * world :=
  match files_file req with
  | None => (Respond (bad_request "No file uploaded"), w)
  | Some file =>
      if decide (filename file = "")
      then (Respond (bad_request "No file selected"), w)
      else if negb (allowed_file (filename file))
      then (Respond (bad_request "Only PDF files are allowed"), w)
      else if decide (file_size file > max_size)
      then (Respond (bad_request "File size must be less than 10MB"), w)
      else
        let pdf_path := pdf_path_of env file in
        (* file.save(pdf_path) *)
        let w := snd (exec (OpenWb pdf_path) w) in
        let w := snd (exec (Write pdf_path (stream file)) w) in
        match validate_pdf env pdf_path w with
        | (Some early, w) => (early, w)
        | (None, w) =>
            match pdf_to_text env pdf_path w with
            | inl e => (Raised e pdf_path, w)
            | inr text =>
                if is_blank text
                then
                  match exec (Remove pdf_path) w with
                  | (inl e, w) => (Raised e pdf_path, w)
                  | (inr _, w) =>
                      (Respond (bad_request "The PDF contains no readable text. Please ensure your PDF has text content, not just images."), w)
                  end
                else
                  (Ready (cap_text text) pdf_path (mp3_filename_of env file)
                         (mp3_path_of env file) (choose_language req), w)
            end
        end
  end.

(** Lines 261-268: the cleanup of the [except] branch, itself inside
    [try: ... except: pass]. *)
Definition cleanup (pdf_path : string) (mp3_path : option string) (w : world)
  : world :=
  let '(r, w) :=
    if path_exists pdf_path w then exec (Remove pdf_path) w else (inr tt, w) in
  match r, mp3_path with
  | inr _, Some mp3_path =>
      if path_exists mp3_path w then snd (exec (Remove mp3_path) w) else w
  | _, _ => w
  end.

(** The [except Exception as e] branch (lines 256-270). *)
Definition on_exception (e : exn) (pdf_path : string) (mp3_path : option string)
    (w : world) : response * world :=
  ({| json := ErrorBody ("An error occurred during conversion: " +:+ str e);
      status := 500 |},
   cleanup pdf_path mp3_path w).

Definition conversion_timeout : Z := 900.

(** [upload_file]: the response, the state of the background thread the
    request leaves behind, and the world when the handler returns. *)
Definition upload_file (env : Env) (req : request) (w : world)
  : response * thread_state * world :=
  match upload_prepare env req w with
  | (Respond r, w) => (r, Finished, w)
  | (Raised e pdf_path, w) =>
      let '(r, w) := on_exception e pdf_path None w in (r, Finished, w)
  | (Ready text pdf_path mp3_filename mp3_path language, w) =>
      match text_to_mp3_optimized text mp3_path language conversion_timeout w with
      | (inl e, thread, w) =>
          let '(r, w) := on_exception e pdf_path (Some mp3_path) w in
          (r, thread, w)
      | (inr _, thread, w) =>
          match exec (Remove pdf_path) w with
          | (inl e, w) =>
              let '(r, w) := on_exception e pdf_path (Some mp3_path) w in
              (r, thread, w)
          | (inr _, w) =>
              ({| json := SuccessBody mp3_filename (Str.len text);
                  status := 200 |}, thread, w)
          end
      end
  end.

(** ** The download route *)

(** [ensure_folders()] (lines 17-23): the upload folder and the output
    folder.  Directories are not modelled, so its two
    [os.makedirs(..., exist_ok=True)] change nothing here. *)
Definition ensure_folders (env : Env) : string * string :=
  let upload_path := path_join (root_path env) UPLOAD_FOLDER in
  let output_path := path_join (root_path env) OUTPUT_FOLDER in
  (upload_path, output_path).

(** What [download_file] answers: a file sent as an attachment, or a JSON
    body with a status. *)
Inductive download_answer : Type :=
| Attachment (download_name : string) (data : bytes)
| Json (r : response).

(** Flask's [send_from_directory(directory, path, as_attachment=True,
    download_name=...)].  It is outside the repository: [safe_join], which
    resolves [path] below [directory] or refuses it, is taken as given; a
    path that is refused or names no file raises werkzeug's [NotFound], and
    the file is then opened for reading. *)
Definition send_from_directory (safe_join : string -> string -> option string)
    (directory path download_name : string) (w : world)
  : exn + download_answer :=
  match safe_join directory path with
  | None => inl (Exception "404 Not Found")
  | Some full =>
      match fs w !! full with
      | None => inl (Exception "404 Not Found")
      | Some data =>
          if unreadable w full then inl (PermissionError full)
          else inr (Attachment download_name data)
      end
  end.

Definition not_found : response :=
  {| json := ErrorBody "File not found"; status := 404 |}.

(** [download_file(filename)] (lines 272-284). *)
Definition download_file (safe_join : string -> string -> option string)
    (env : Env) (filename : string) (w : world) : download_answer :=
  let '(_, output_path) := ensure_folders env in
  match send_from_directory safe_join output_path filename filename w with
  | inr answer => answer
  | inl _ => Json not_found
  end.

(** ** The vocabulary of the properties *)

(** The backend call number [n] of world [w] fails with [e]. *)
Definition fails_with (w : world) (n : nat) (e : exn) : Prop :=
  exists partial, result_of (backend w n) = Fails e partial.

(** The events of [k] attempts of a retry wrapper whose attempts show as
    [ev]: the attempts, with the wait [2 * j] after the [j]-th of them. *)
Fixpoint retry_trace (ev : event) (k : nat) : list event :=
  match k with
  | O => []
  | S k' =>
      match k' with
      | O => [ev]
      | S _ => retry_trace ev k' ++ [EvSleep (2 * Z.of_nat k'); ev]
      end
  end.

(** The events of [k] attempts of a retry wrapper, the first of which is
    attempt number [a]: after every attempt but the last, the wait
    [(attempt + 1) * 2]. *)
Fixpoint retry_trace_from (ev : event) (a : Z) (k : nat) : list event :=
  match k with
  | O => []
  | S k' =>
      match k' with
      | O => [ev]
      | S _ => ev :: EvSleep ((a + 1) * 2) :: retry_trace_from ev (a + 1) k'
      end
  end.

(** What a run of a retry wrapper with [k] attempts that show as [ev]
    adds to the world [w], and what it leaves as it was. *)
Definition attempts_made (ev : event) (k : nat) (w w' : world) : Prop :=
  (1 <= k <= 3)%nat
  /\ log w' = log w ++ retry_trace ev k
  /\ backend w' = backend w
  /\ result w' = result w
  /\ (calls w <= calls w')%nat.

(** The [gTTS] object built from a text and a language. *)
Abbreviation the_tts text language :=
  {| tts_text := text; tts_lang := language |}.

(** The number of chunks of a text of length [n]. *)
Definition chunk_count (n : Z) : Z := (n + max_chunk_size - 1) / max_chunk_size.

(** The temporary files of a conversion into [n] chunks, in index order. *)
Definition temp_file_names (output_path : string) (n : Z) : list string :=
  temp_file_name output_path <$> seqZ 0 n.

(** Why [open(path, 'rb')] fails in [w], if it does. *)
Definition read_error (w : world) (path : string) : option exn :=
  match fs w !! path with
  | None => Some (FileNotFoundError path)
  | Some _ => if unreadable w path then Some (PermissionError path) else None
  end.

(** The file at [path] is there, may be read and holds [data]. *)
Definition holds (w : world) (path : string) (data : bytes) : Prop :=
  fs w !! path = Some data /\ unreadable w path = false.

(** Every backend call of [w] succeeds; call [n] gives the audio [audio n]. *)
Definition all_succeed (w : world) (audio : nat -> bytes) : Prop :=
  forall n, result_of (backend w n) = Succeeds (audio n).

(** The sleeps of a log, in order. *)
Definition sleeps (l : list event) : list Z :=
  omap (fun ev => match ev with EvSleep secs => Some secs | _ => None end) l.

(** The world once the thread a request left behind, if any, has run to
    its end. *)
Definition settled (thread : thread_state) (w : world) : world :=
  match thread with
  | Finished => w
  | Alive rest => (run rest w).2
  end.

Definition too_large : response :=
  {| json := ErrorBody "File size must be less than 10MB"; status := 400 |}.

(** ** What a program can do, whatever the world *)

(** Some world makes the operation [o] give back [x]. *)
Definition may_return {X : Type} (o : op X) (x : X) : Prop :=
  exists w, (exec o w).1 = x.

(** Some answers of the operations make the program [p] return [a]. *)
Fixpoint may_give {A : Type} (p : Prog A) (a : A) : Prop :=
  match p with
  | Ret b => b = a
  | Raise _ => False
  | Do o k => exists x, may_return o x /\ may_give (k x) a
  end.

(** Every operation the program [p] can come to perform satisfies [P]. *)
Fixpoint all_ops {A : Type} (P : forall X, op X -> Prop) (p : Prog A) : Prop :=
  match p with
  | Ret _ | Raise _ => True
  | Do o k => P _ o /\ forall x, may_return o x -> all_ops P (k x)
  end.

(** A path that belongs to the conversion into [output_path]: the output
    itself or one of its temporary chunk files. *)
Definition own_path (output_path path : string) : Prop :=
  path = output_path \/ exists i : Z, path = temp_file_name output_path i.

(** What [convert] with the destination [output_path] and the language
    [language] may do at all. *)
Definition conversion_op (output_path language : string) (X : Type) (o : op X)
  : Prop :=
  match o with
  | Sleep secs => secs = 2 \/ secs = 4
  | GTTS text lang => Str.len text <= max_chunk_size /\ lang = language
  | Save t path =>
      (exists t', t = Some t' /\ Str.len (tts_text t') <= max_chunk_size
                  /\ tts_lang t' = language)
      /\ own_path output_path path
  | OpenWb path | Write path _ => path = output_path
  | ReadAll path | Remove path =>
      exists i : Z, path = temp_file_name output_path i
  | SetSuccess | SetError _ => True
  end.

(** The operations of the [try] block of [convert] before its last
    statement: those of a conversion that leave [result] alone. *)
Definition body_op (output_path language : string) (X : Type) (o : op X)
  : Prop :=
  conversion_op output_path language X o
  /\ match o with SetSuccess | SetError _ => False | _ => True end.

(** The [try] block of [convert] up to its last statement (lines 87-128). *)
Definition conversion_work (text output_path language : string) : Prog unit :=
  if decide (Str.len text > max_chunk_size)
  then
    let chunks := chunks text in
    temp_files ← synthesize_chunks output_path language
                   (Z.of_nat (length chunks)) (enumerate chunks) [];
    combine_chunks output_path temp_files
  else
    synthesize_and_persist text language output_path.

(** What a conversion may do, read off the log. *)
Definition conversion_event (output_path language : string) (ev : event)
  : Prop :=
  match ev with
  | EvSleep secs => secs = 2 \/ secs = 4
  | EvGTTS text lang => Str.len text <= max_chunk_size /\ lang = language
  | EvSave t path =>
      (exists t', t = Some t' /\ Str.len (tts_text t') <= max_chunk_size
                  /\ tts_lang t' = language)
      /\ own_path output_path path
  | EvOpenWb path | EvWrite path _ => path = output_path
  | EvRead path | EvRemove path =>
      exists i : Z, path = temp_file_name output_path i
  end.

(** Every backend call of [w] succeeds, within [L] time units. *)
Definition prompt (L : Z) (audio : nat -> bytes) (w : world) : Prop :=
  all_succeed w audio /\ forall k, Z.of_N (latency (backend w k)) <= L.

(** ** What a request does *)

(** The upload of a request once [file.save] has stored it. *)
Definition stored (env : Env) (file : upload) (w : world) : world :=
  let pdf_path := pdf_path_of env file in
  (exec (Write pdf_path (stream file)) (exec (OpenWb pdf_path) w).2).2.

(** The same once [os.remove] has removed it again. *)
Definition unstored (env : Env) (file : upload) (w : world) : world :=
  (exec (Remove (pdf_path_of env file)) (stored env file w)).2.

(** The log of [w] is the log of [base] followed by events that all
    satisfy [Q]. *)
Definition extends_by (Q : event -> Prop) (base w : world) : Prop :=
  exists l, log w = log base ++ l /\ Forall Q l.

(** What a request for [file] may do at all: store the upload and remove
    it again, remove the destination, and what the conversion into the
    destination in the language chosen may do. *)
Definition request_event (env : Env) (req : request) (file : upload)
    (ev : event) : Prop :=
  ev = EvOpenWb (pdf_path_of env file)
  \/ ev = EvWrite (pdf_path_of env file) (stream file)
  \/ ev = EvRemove (pdf_path_of env file)
  \/ ev = EvRemove (mp3_path_of env file)
  \/ conversion_event (mp3_path_of env file) (choose_language req) ev.

(** ** Claims that are stated to be refuted *)

(** The claim of C6, on the assembly of lines 117-121: whenever the
    assembly fails, no temporary file is left. *)
Definition failed_assembly_leaves_no_temp_file : Prop :=
  forall (output_path : string) (temp_files : list string) (w w' : world)
         (e : exn),
    NoDup temp_files -> output_path ∉ temp_files ->
    run (combine_chunks output_path temp_files) w = (inl e, w') ->
    forall tf, tf ∈ temp_files -> fs w' !! tf = None.

(** The claim of C8: once a failed request and whatever it started have
    come to rest, a destination that was free before is still absent, or it
    was written in full by a conversion that ended in success. *)
Definition failure_leaves_no_partial_output : Prop :=
  forall (env : Env) (req : request) (file : upload) (w w' : world)
         (r : response) (thread : thread_state),
    files_file req = Some file ->
    fs w !! mp3_path_of env file = None ->
    upload_file env req w = (r, thread, w') ->
    status r <> 200 ->
    fs (settled thread w') !! mp3_path_of env file = None
    \/ success (result (settled thread w')) = true.

(** The claim of C10: every upload above the size limit gets the size
    error and leaves the world as it was. *)
Definition oversized_upload_gets_size_error : Prop :=
  forall (env : Env) (req : request) (file : upload) (w : world),
    files_file req = Some file ->
    file_size file > 10 * 1024 * 1024 ->
    upload_file env req w = (too_large, Finished, w).

(** ** Test data *)

(** A text of [n] copies of one character. *)
Fixpoint repeat_char (c : ascii) (n : nat) : string :=
  match n with
  | O => EmptyString
  | S n' => String c (repeat_char c n')
  end.

(** A backend that gives the same answer to every call. *)
Definition constant_backend (r : reply) : nat -> reply := fun _ => r.

(** A world with the given files, all of them readable, and the given
    backend, before any call. *)
Definition initial_world (files : gmap string bytes) (b : nat -> reply)
  : world :=
  {| fs := files; unreadable := fun _ => false; backend := b; calls := 0;
     log := []; result := {| success := false; error := None |} |}.

(** A backend that builds the [gTTS] object at once and then fails every
    persist call after 899 time units, each time leaving one byte. *)
Definition stalling_backend : nat -> reply :=
  fun n =>
    if decide (n = 0)%nat
    then {| latency := 0; result_of := Succeeds [] |}
    else {| latency := 899;
            result_of := Fails (BackendError "503") (Some [Byte.x01]) |}.

(** A test environment: the content of an uploaded file is the text of
    its single page, and an empty file is not a PDF; a missing file is
    reported as such. *)
Definition test_env : Env :=
  {| root_path := "/app";
     unique_id := "0f8fad5b";
     secure_filename := fun s => s;
     splitext_root := fun s => Str.prefix s (Str.len s - 4);
     fitz_open := fun content =>
       match content with
       | [] => inl (Exception "cannot open empty document")
       | _ => inr [inr (String.string_of_list_byte content)]
       end;
     fitz_open_error := fun reason =>
       match reason with
       | FileNotFoundError path => Exception ("no such file: '" +:+ path +:+ "'")
       | _ => Exception "cannot open document"
       end |}.

(** An upload of [text] as a one-page PDF named [name]. *)
Definition upload_of (name text : string) : upload :=
  {| filename := name; stream := String.list_byte_of_string text |}.

Definition request_of (f : upload) : request :=
  {| files_file := Some f; form_language := None |}.

(** A file of one byte more than the size limit, named like a text file. *)
Definition oversized_text_file : upload :=
  {| filename := "notes.txt";
     stream := replicate (Z.to_nat (max_size + 1)) Byte.x00 |}.

(** A file of one byte more than the size limit, named like a PDF. *)
Definition oversized_pdf : upload :=
  {| filename := "book.PDF";
     stream := replicate (Z.to_nat (max_size + 1)) Byte.x00 |}.

(** A backend whose first [k] calls fail and whose later calls succeed. *)
Definition failing_first (k : nat) (audio : bytes) : nat -> reply :=
  fun n =>
    if decide (n < k)%nat
    then {| latency := 1;
            result_of := Fails (BackendError "503") (Some [Byte.xff]) |}
    else {| latency := 1; result_of := Succeeds audio |}.

(** * Properties *)

(** ** Strings *)

Module StrFacts.
Import Str.

Lemma app_cons c s t : String c s +:+ t = String c (s +:+ t).
Proof. reflexivity. Qed.

Lemma app_nil_l s : "" +:+ s = s.
Proof. reflexivity. Qed.

Lemma app_nil_r s : s +:+ "" = s.
Proof. induction s as [|c s IH]; [done|]. by rewrite app_cons, IH. Qed.

Lemma app_assoc s1 s2 s3 : (s1 +:+ s2) +:+ s3 = s1 +:+ (s2 +:+ s3).
Proof.
  induction s1 as [|c s1 IH]; [done|]. by rewrite !app_cons, IH.
Qed.

Lemma length_app s1 s2 :
  String.length (s1 +:+ s2) = (String.length s1 + String.length s2)%nat.
Proof.
  induction s1 as [|c s1 IH]; [done|]. rewrite app_cons. simpl.
  by rewrite IH.
Qed.

Lemma len_app s1 s2 : len (s1 +:+ s2) = len s1 + len s2.
Proof. unfold len. rewrite length_app. lia. Qed.

Lemma len_nonneg s : 0 <= len s.
Proof. unfold len. lia. Qed.

Lemma len_0 s : len s = 0 -> s = "".
Proof. destruct s; [done|]. unfold len; simpl; lia. Qed.

Lemma join_cons x l : join (x :: l) = x +:+ join l.
Proof. reflexivity. Qed.

Lemma join_app l1 l2 : join (l1 ++ l2) = join l1 +:+ join l2.
Proof.
  induction l1 as [|x l1 IH]; [done|].
  rewrite <- app_comm_cons, !join_cons, IH. by rewrite app_assoc.
Qed.

Lemma join_snoc l x : join (l ++ [x]) = join l +:+ x.
Proof. rewrite join_app, join_cons. simpl. by rewrite app_nil_r. Qed.

(** A common suffix can be cancelled. *)
Lemma app_inj_r s1 s2 t : s1 +:+ t = s2 +:+ t -> s1 = s2.
Proof.
  revert s2. induction s1 as [|c s1 IH]; intros [|d s2] H.
  - done.
  - apply (f_equal String.length) in H.
    rewrite app_cons, app_nil_l in H. simpl in H.
    rewrite length_app in H. lia.
  - apply (f_equal String.length) in H.
    rewrite app_cons, app_nil_l in H. simpl in H.
    rewrite length_app in H. lia.
  - rewrite !app_cons in H. injection H as -> H. f_equal. by apply IH.
Qed.

Lemma app_ne_self s t : t <> "" -> s +:+ t <> s.
Proof.
  intros Ht H. apply Ht.
  rewrite <- (app_nil_r s) in H at 2.
  by apply (inj (String.append s)) in H.
Qed.

(** *** Slices *)

Lemma substring_0_0 s : String.substring 0 0 s = "".
Proof. by destruct s. Qed.

Lemma substring_split a b s :
  String.substring 0 a s +:+ String.substring a b s
  = String.substring 0 (a + b) s.
Proof.
  revert s. induction a as [|a IH]; intros s.
  - by rewrite substring_0_0.
  - destruct s as [|c s]; [done|]. simpl. by rewrite app_cons, IH.
Qed.

Lemma substring_all n s :
  (String.length s <= n)%nat -> String.substring 0 n s = s.
Proof.
  revert s. induction n as [|n IH]; intros [|c s] H; simpl in *;
    try done; try lia.
  rewrite IH; [done|lia].
Qed.

Lemma length_substring a b s :
  String.length (String.substring a b s)
  = Nat.min b (String.length s - a).
Proof.
  revert b s. induction a as [|a IH]; intros b s.
  - revert s. induction b as [|b IHb]; intros [|c s]; simpl; try lia.
    rewrite IHb. lia.
  - destruct s as [|c s]; simpl; [lia|]. by rewrite IH.
Qed.

Lemma len_slice s i j :
  0 <= i -> i <= j -> len (slice s i j) = Z.min (j - i) (Z.max 0 (len s - i)).
Proof.
  intros Hi Hj. unfold len, slice. rewrite length_substring. lia.
Qed.

Lemma slice_split s i j :
  0 <= i -> i <= j -> prefix s i +:+ slice s i j = prefix s j.
Proof.
  intros Hi Hj. unfold prefix, slice. rewrite !Z.sub_0_r. simpl.
  rewrite substring_split. f_equal. lia.
Qed.

Lemma prefix_all s j : len s <= j -> prefix s j = s.
Proof.
  intros H. unfold prefix, slice. rewrite Z.sub_0_r. simpl.
  apply substring_all. unfold len in H. lia.
Qed.

Lemma prefix_0 s : prefix s 0 = "".
Proof. unfold prefix, slice. simpl. apply substring_0_0. Qed.

End StrFacts.

(** ** The chunker *)

Lemma range3_lookup start stop step (k : nat) i :
  range3 start stop step !! k = Some i <->
  i = start + Z.of_nat k * step
  /\ Z.of_nat k < (stop - start + step - 1) / step.
Proof.
  unfold range3. rewrite list_lookup_fmap. split.
  - intros H. apply fmap_Some in H as (j & Hj & ->).
    apply lookup_seqZ in Hj as [-> ?]. split; [f_equal; lia|done].
  - intros [-> H]. rewrite lookup_seqZ_lt by done. simpl. f_equal; lia.
Qed.

Lemma length_range3 start stop step :
  length (range3 start stop step)
  = Z.to_nat ((stop - start + step - 1) / step).
Proof. unfold range3. by rewrite length_fmap, length_seqZ. Qed.

Lemma chunk_count_bounds n :
  0 <= n ->
  n <= chunk_count n * max_chunk_size < n + max_chunk_size.
Proof.
  intros Hn. unfold chunk_count, max_chunk_size.
  pose proof (Z.div_mod (n + 1000 - 1) 1000 ltac:(lia)) as Hdm.
  pose proof (Z.mod_pos_bound (n + 1000 - 1) 1000 ltac:(lia)) as Hm.
  lia.
Qed.

Lemma length_chunks s : Z.of_nat (length (chunks s)) = chunk_count (Str.len s).
Proof.
  unfold chunks. rewrite length_fmap, length_range3.
  pose proof (chunk_count_bounds (Str.len s) (StrFacts.len_nonneg s)) as Hb.
  pose proof (StrFacts.len_nonneg s) as Hn.
  unfold chunk_count in *. rewrite Z.sub_0_r.
  unfold max_chunk_size in *. lia.
Qed.

Lemma chunks_lookup s (k : nat) c :
  chunks s !! k = Some c <->
  c = Str.slice s (Z.of_nat k * max_chunk_size)
                  (Z.of_nat k * max_chunk_size + max_chunk_size)
  /\ Z.of_nat k < chunk_count (Str.len s).
Proof.
  unfold chunks. rewrite list_lookup_fmap, fmap_Some.
  setoid_rewrite range3_lookup. unfold chunk_count.
  rewrite Z.sub_0_r. split.
  - intros (i & [-> ?] & ->). by rewrite Z.add_0_l.
  - intros [-> ?]. eexists. split; [split; [reflexivity|done]|].
    by rewrite Z.add_0_l.
Qed.

(** The first [n] slices of width [w] make up the prefix of length [n * w]. *)
Lemma join_slices s w (n : nat) :
  0 <= w ->
  Str.join ((fun i => Str.slice s i (i + w))
              <$> ((fun k => 0 + k * w) <$> seqZ 0 (Z.of_nat n)))
  = Str.prefix s (Z.of_nat n * w).
Proof.
  intros Hw. induction n as [|n IH].
  - simpl. by rewrite StrFacts.prefix_0.
  - rewrite seqZ_S, !fmap_app, StrFacts.join_app, IH. simpl.
    rewrite StrFacts.app_nil_r, StrFacts.slice_split by lia.
    f_equal. lia.
Qed.

Lemma join_chunks s : Str.join (chunks s) = s.
Proof.
  pose proof (chunk_count_bounds (Str.len s) (StrFacts.len_nonneg s)) as Hb.
  pose proof (StrFacts.len_nonneg s) as Hn.
  unfold chunks, range3. rewrite Z.sub_0_r. fold (chunk_count (Str.len s)).
  rewrite <- (Z2Nat.id (chunk_count (Str.len s))) at 1
    by (unfold max_chunk_size in *; lia).
  rewrite join_slices by done.
  apply StrFacts.prefix_all. rewrite Z2Nat.id; unfold max_chunk_size in *; lia.
Qed.

Lemma len_chunk s (k : nat) c :
  chunks s !! k = Some c ->
  Str.len c = Z.min max_chunk_size (Str.len s - Z.of_nat k * max_chunk_size)
  /\ Z.of_nat k * max_chunk_size < Str.len s.
Proof.
  intros [-> Hk]%chunks_lookup.
  pose proof (chunk_count_bounds (Str.len s) (StrFacts.len_nonneg s)) as Hb.
  pose proof (StrFacts.len_nonneg s) as Hn.
  rewrite StrFacts.len_slice by (unfold max_chunk_size; lia).
  unfold max_chunk_size in *. lia.
Qed.

(** C1. For every text longer than the chunk size limit of 1000, the
    chunker's output, concatenated in index order, is the text; every chunk
    but the last has exactly 1000 characters; no chunk is empty; and a text
    of 2500 characters gives three chunks of 1000, 1000 and 500 characters.
    The chunks are the pieces of the limit's size: none has more than 1000
    characters, there are [ceil(len / 1000)] of them, and chunk [k] is the
    slice [s[1000 * k : 1000 * k + 1000]], so the last one has what is left
    of the text. *)
Theorem chunker_splits_long_text (s : string) :
  Str.len s > 1000 ->
  Str.join (chunks s) = s
  /\ (forall (k : nat) c,
        chunks s !! k = Some c -> (S k < length (chunks s))%nat ->
        Str.len c = 1000)
  /\ (forall c, c ∈ chunks s -> c <> "")
  /\ (Str.len s = 2500 -> Str.len <$> chunks s = [1000; 1000; 500])
  /\ (forall c, c ∈ chunks s -> Str.len c <= 1000)
  /\ Z.of_nat (length (chunks s)) = (Str.len s + 999) / 1000
  /\ (forall (k : nat) c,
        chunks s !! k = Some c ->
        c = Str.slice s (1000 * Z.of_nat k) (1000 * Z.of_nat k + 1000)
        /\ Str.len c = Z.min 1000 (Str.len s - 1000 * Z.of_nat k)).
Proof.
  intros Hlong. split; [apply join_chunks|].
  pose proof (chunk_count_bounds (Str.len s) (StrFacts.len_nonneg s)) as Hb.
  pose proof (length_chunks s) as Hlen.
  unfold max_chunk_size in *.
  split; [|split; [|split; [|split; [|split]]]].
  - intros k c Hc Hk. apply len_chunk in Hc as [-> _].
    unfold max_chunk_size. lia.
  - intros c [k Hc]%list_elem_of_lookup ->. apply len_chunk in Hc as [Hc ?].
    change (Str.len "") with 0 in Hc. unfold max_chunk_size in *. lia.
  - intros H2500. apply list_eq. intros k.
    rewrite list_lookup_fmap.
    assert (chunk_count (Str.len s) = 3) as Hcount.
    { rewrite H2500. reflexivity. }
    destruct (chunks s !! k) as [c|] eqn:Hc.
    + pose proof Hc as Hl. apply len_chunk in Hl as [Hl ?].
      apply chunks_lookup in Hc as [_ Hk]. rewrite Hcount in Hk.
      simpl. rewrite Hl. unfold max_chunk_size. rewrite H2500.
      destruct k as [|[|[|k]]]; simpl; try reflexivity. lia.
    + apply lookup_ge_None in Hc. rewrite Hcount in Hlen.
      simpl. symmetry. apply lookup_ge_None. simpl. lia.
  - intros c [k Hc]%list_elem_of_lookup. apply len_chunk in Hc as [-> _].
    unfold max_chunk_size. lia.
  - rewrite Hlen. unfold chunk_count, max_chunk_size. f_equal. lia.
  - intros k c Hc. pose proof Hc as Hl. apply len_chunk in Hl as [-> _].
    apply chunks_lookup in Hc as [-> _]. unfold max_chunk_size.
    split; [f_equal; lia|f_equal; lia].
Qed.

Lemma chunker_splits_long_text_witness :
  Str.len (repeat_char "a" 2500) > 1000
  /\ Str.join (chunks (repeat_char "a" 2500)) = repeat_char "a" 2500
  /\ Str.len <$> chunks (repeat_char "a" 2500) = [1000; 1000; 500]
  /\ Z.of_nat (length (chunks (repeat_char "a" 2500))) = 3.
Proof.
  assert (Str.len (repeat_char "a" 2500) > 1000) as H by (vm_compute; reflexivity).
  split; [exact H|].
  destruct (chunker_splits_long_text (repeat_char "a" 2500) H)
    as (Hj & _ & _ & Hl & _ & Hn & _).
  split; [exact Hj|]. split; [apply Hl; vm_compute; reflexivity|].
  rewrite Hn. vm_compute. reflexivity.
Defined.

(** A text of 3000 characters is not left in one piece. *)
Example chunks_3000 :
  Str.len <$> chunks (repeat_char "a" 3000) = [1000; 1000; 1000].
Proof. vm_compute. reflexivity. Qed.

(** ** Running programs *)

Lemma run_bind {A B : Type} (p : Prog A) (f : A -> Prog B) (w : world) :
  run (p ≫= f) w
  = match run p w with
    | (inl e, w') => (inl e, w')
    | (inr a, w') => run (f a) w'
    end.
Proof.
  revert w. induction p as [a|e|X o k IH]; intros w; simpl; try done.
  destruct (exec o w) as [x w']. apply IH.
Qed.

Lemma run_try_except {A : Type} (p : Prog A) (h : exn -> Prog A) (w : world) :
  run (try_except p h) w
  = match run p w with
    | (inl e, w') => run (h e) w'
    | (inr a, w') => (inr a, w')
    end.
Proof.
  revert w. induction p as [a|e|X o k IH]; intros w; simpl; try done.
  destruct (exec o w) as [x w']. apply IH.
Qed.

Lemma range_3 : range 3 = [0; 1; 2].
Proof. reflexivity. Qed.

(** ** The retry wrappers *)

(** C2. When the backend fails the three calls a retry wrapper makes, the
    wrapper makes exactly three attempts, sleeps 1 * 2 after the first
    failure and 2 * 2 after the second, does not sleep after the third, and
    raises the failure of the third attempt; this holds for the wrapper of
    the synthesis call and for the wrapper of the persist call. *)
Theorem retry_wrappers_exhaust (text language path : string) (t : tts)
    (w : world) (e1 e2 e3 : exn) :
  fails_with w (calls w) e1 ->
  fails_with w (S (calls w)) e2 ->
  fails_with w (S (S (calls w))) e3 ->
  (exists w',
     run (create_tts_with_retry text language 3) w = (inl e3, w')
     /\ log w' = log w ++ [EvGTTS text language; EvSleep (1 * 2);
                           EvGTTS text language; EvSleep (2 * 2);
                           EvGTTS text language]
     /\ calls w' = (calls w + 3)%nat)
  /\ (exists w',
     run (save_tts_with_retry (Some t) path 3) w = (inl e3, w')
     /\ log w' = log w ++ [EvSave (Some t) path; EvSleep (1 * 2);
                           EvSave (Some t) path; EvSleep (2 * 2);
                           EvSave (Some t) path]
     /\ calls w' = (calls w + 3)%nat).
Proof.
  intros [p1 H1] [p2 H2] [p3 H3]. split.
  - unfold create_tts_with_retry. rewrite range_3.
    simpl. rewrite H1. simpl. rewrite H2. simpl. rewrite H3. simpl.
    eexists. split; [reflexivity|]. simpl. split; [|lia].
    by rewrite <- !app_assoc.
  - unfold save_tts_with_retry. rewrite range_3.
    simpl. rewrite H1. destruct p1; simpl; rewrite H2;
      destruct p2; simpl; rewrite H3; destruct p3; simpl;
      (eexists; split; [reflexivity|]; simpl; split; [|lia];
       by rewrite <- !app_assoc).
Qed.

Lemma retry_wrappers_exhaust_witness :
  let w := initial_world ∅ (constant_backend
             {| latency := 1; result_of := Fails (BackendError "503") None |}) in
  exists w',
    run (create_tts_with_retry "hello" "en" 3) w = (inl (BackendError "503"), w')
    /\ log w' = [EvGTTS "hello" "en"; EvSleep 2; EvGTTS "hello" "en";
                 EvSleep 4; EvGTTS "hello" "en"]
    /\ calls w' = 3%nat.
Proof.
  intros w.
  apply (retry_wrappers_exhaust "hello" "en" "out.mp3"
           {| tts_text := "hello"; tts_lang := "en" |} w
           (BackendError "503") (BackendError "503") (BackendError "503"));
    exists None; reflexivity.
Defined.

Lemma range_seqZ (n : Z) : range n = seqZ 0 n.
Proof.
  unfold range, range3.
  replace ((n - 0 + 1 - 1) `div` 1) with n by (rewrite Z.div_1_r; lia).
  rewrite <- (list_fmap_id (seqZ 0 n)) at 2.
  apply list_fmap_ext. intros _ k _. simpl. lia.
Qed.

Lemma sleeps_app (l1 l2 : list event) : sleeps (l1 ++ l2) = sleeps l1 ++ sleeps l2.
Proof. apply omap_app. Qed.

(** For any number of retries: when every attempt fails, the synthesis
    wrapper makes [max_retries] attempts, sleeps 2, 4, ... between them and
    not after the last, and raises the last failure. *)
Lemma create_tts_loop_exhausts (text language : string) (max_retries : Z)
    (n : nat) (a : Z) (w : world) :
  a + Z.of_nat (S n) = max_retries ->
  (forall j : nat, (j <= n)%nat -> exists e, fails_with w (calls w + j) e) ->
  exists e w',
    run (create_tts_loop text language max_retries
           (seqZ a (Z.of_nat (S n)))) w = (inl e, w')
    /\ fails_with w (calls w + n) e
    /\ calls w' = (calls w + S n)%nat
    /\ sleeps (log w')
       = sleeps (log w) ++ ((fun j => (j + 1) * 2) <$> seqZ a (Z.of_nat n)).
Proof.
  revert a w. induction n as [|n IH]; intros a w Hm Hfail.
  - destruct (Hfail 0%nat ltac:(lia)) as (e & p & He).
    rewrite Nat.add_0_r in He.
    change (seqZ a (Z.of_nat 1)) with [a]. simpl. rewrite He.
    rewrite decide_False by lia. simpl.
    exists e. eexists. split; [reflexivity|]. simpl.
    split; [rewrite Nat.add_0_r; by exists p|]. split; [lia|].
    rewrite sleeps_app. simpl. by rewrite !app_nil_r.
  - destruct (Hfail 0%nat ltac:(lia)) as (e0 & p0 & He0).
    rewrite Nat.add_0_r in He0.
    rewrite (seqZ_cons a) by lia.
    replace (Z.pred (Z.of_nat (S (S n)))) with (Z.of_nat (S n)) by lia.
    cbn [create_tts_loop run]. unfold exec at 1. rewrite He0.
    rewrite decide_True by lia. cbv zeta.
    set (w1 := called _).
    change (run (perform (Sleep ((a + 1) * 2));; _) w1)
      with (run (create_tts_loop text language max_retries
                   (seqZ (Z.succ a) (Z.of_nat (S n))))
                (record (EvSleep ((a + 1) * 2)) w1)).
    set (w2 := record _ w1).
    destruct (IH (Z.succ a) w2) as (e & w' & Hrun & Hlast & Hcalls & Hsleeps).
    { lia. }
    { intros j Hj. destruct (Hfail (S j) ltac:(lia)) as (e & p & He).
      exists e, p. subst w2 w1. simpl.
      by replace (S (calls w + j)) with (calls w + S j)%nat by lia. }
    exists e, w'. split; [done|]. split.
    { destruct Hlast as [p Hp]. exists p. subst w2 w1. simpl in Hp.
      by replace (calls w + S n)%nat with (S (calls w + n)) by lia. }
    split.
    { rewrite Hcalls. subst w2 w1. simpl. lia. }
    rewrite Hsleeps. subst w2 w1. simpl.
    rewrite !sleeps_app. simpl. rewrite app_nil_r, <- app_assoc. simpl.
    rewrite (seqZ_cons a (Z.of_nat (S n))) by lia. rewrite fmap_cons.
    by replace (Z.pred (Z.of_nat (S n))) with (Z.of_nat n) by lia.
Qed.

(** One failing attempt of the persist wrapper. *)
Lemma save_attempt_fails (t : tts) (path : string) (w : world) (e : exn)
    (partial : option bytes) :
  result_of (backend w (calls w)) = Fails e partial ->
  exists w1,
    exec (Save (Some t) path) w = (inl e, w1)
    /\ calls w1 = S (calls w) /\ backend w1 = backend w
    /\ log w1 = log w ++ [EvSave (Some t) path].
Proof. intros H. simpl. rewrite H. destruct partial; eauto. Qed.

Lemma save_tts_loop_exhausts (t : tts) (path : string) (max_retries : Z)
    (n : nat) (a : Z) (w : world) :
  a + Z.of_nat (S n) = max_retries ->
  (forall j : nat, (j <= n)%nat -> exists e, fails_with w (calls w + j) e) ->
  exists e w',
    run (save_tts_loop (Some t) path max_retries
           (seqZ a (Z.of_nat (S n)))) w = (inl e, w')
    /\ fails_with w (calls w + n) e
    /\ calls w' = (calls w + S n)%nat
    /\ sleeps (log w')
       = sleeps (log w) ++ ((fun j => (j + 1) * 2) <$> seqZ a (Z.of_nat n)).
Proof.
  revert a w. induction n as [|n IH]; intros a w Hm Hfail.
  - destruct (Hfail 0%nat ltac:(lia)) as (e & p & He).
    rewrite Nat.add_0_r in He.
    destruct (save_attempt_fails t path w e p He) as (w1 & Hex & Hc1 & Hb1 & Hl1).
    change (seqZ a (Z.of_nat 1)) with [a]. cbn [save_tts_loop run].
    rewrite Hex, decide_False by lia.
    exists e, w1. split; [reflexivity|].
    split; [rewrite Nat.add_0_r; by exists p|]. split; [lia|].
    rewrite Hl1, sleeps_app. simpl. by rewrite !app_nil_r.
  - destruct (Hfail 0%nat ltac:(lia)) as (e0 & p0 & He0).
    rewrite Nat.add_0_r in He0.
    destruct (save_attempt_fails t path w e0 p0 He0)
      as (w1 & Hex & Hc1 & Hb1 & Hl1).
    rewrite (seqZ_cons a) by lia.
    replace (Z.pred (Z.of_nat (S (S n)))) with (Z.of_nat (S n)) by lia.
    cbn [save_tts_loop run]. rewrite Hex, decide_True by lia. cbv zeta.
    change (run (perform (Sleep ((a + 1) * 2));; _) w1)
      with (run (save_tts_loop (Some t) path max_retries
                   (seqZ (Z.succ a) (Z.of_nat (S n))))
                (record (EvSleep ((a + 1) * 2)) w1)).
    set (w2 := record _ w1).
    destruct (IH (Z.succ a) w2) as (e & w' & Hrun & Hlast & Hcalls & Hsleeps).
    { lia. }
    { intros j Hj. destruct (Hfail (S j) ltac:(lia)) as (e & p & He).
      exists e, p. subst w2. simpl. rewrite Hb1, Hc1.
      by replace (S (calls w) + j)%nat with (calls w + S j)%nat by lia. }
    exists e, w'. split; [done|]. split.
    { destruct Hlast as [p Hp]. exists p. subst w2. simpl in Hp.
      rewrite Hb1, Hc1 in Hp.
      by replace (calls w + S n)%nat with (S (calls w) + n)%nat by lia. }
    split.
    { rewrite Hcalls. subst w2. simpl. lia. }
    rewrite Hsleeps. subst w2. simpl. rewrite Hl1.
    rewrite !sleeps_app. simpl. rewrite app_nil_r, <- app_assoc. simpl.
    rewrite (seqZ_cons a (Z.of_nat (S n))) by lia. rewrite fmap_cons.
    by replace (Z.pred (Z.of_nat (S n))) with (Z.of_nat n) by lia.
Qed.

(** *** The order of attempts and waits *)

Lemma retry_trace_from_snoc (ev : event) (a : Z) (k : nat) :
  retry_trace_from ev a (S (S k))
  = retry_trace_from ev a (S k) ++ [EvSleep ((a + Z.of_nat (S k)) * 2); ev].
Proof.
  revert a. induction k as [|k IH]; intros a.
  - simpl. do 2 f_equal. 
  - change (retry_trace_from ev a (S (S (S k))))
      with (ev :: EvSleep ((a + 1) * 2) :: retry_trace_from ev (a + 1) (S (S k))).
    rewrite IH.
    change (retry_trace_from ev a (S (S k)))
      with (ev :: EvSleep ((a + 1) * 2) :: retry_trace_from ev (a + 1) (S k)).
    simpl app. do 4 f_equal. f_equal. lia.
Qed.

Lemma retry_trace_from_0 (ev : event) (k : nat) :
  retry_trace_from ev 0 k = retry_trace ev k.
Proof.
  induction k as [|[|k] IH]; [done|done|].
  rewrite retry_trace_from_snoc, IH.
  change (retry_trace ev (S (S k)))
    with (retry_trace ev (S k) ++ [EvSleep (2 * Z.of_nat (S k)); ev]).
  do 3 f_equal. lia.
Qed.

Lemma create_tts_loop_log (text language : string) (max_retries : Z)
    (k : nat) (a : Z) (later : list Z) (w : world) :
  a + Z.of_nat k <= max_retries - 1 ->
  (forall j : nat, (j < k)%nat -> exists e, fails_with w (calls w + j) e) ->
  (exists audio, result_of (backend w (calls w + k)) = Succeeds audio)
  \/ a + Z.of_nat k = max_retries - 1 ->
  log (run (create_tts_loop text language max_retries
              (seqZ a (Z.of_nat (S k)) ++ later)) w).2
  = log w ++ retry_trace_from (EvGTTS text language) a (S k).
Proof.
  revert a w. induction k as [|k IH]; intros a w Hm Hfail Hlast.
  - rewrite Nat.add_0_r in Hlast.
    change (seqZ a (Z.of_nat 1)) with [a]. simpl.
    destruct (result_of (backend w (calls w))) as [audio|e partial] eqn:Hres;
      [done|].
    destruct Hlast as [[audio [=]]|Hlast].
    rewrite decide_False by lia. done.
  - destruct (Hfail 0%nat ltac:(lia)) as (e0 & p0 & He0).
    rewrite Nat.add_0_r in He0.
    rewrite (seqZ_cons a) by lia.
    replace (Z.pred (Z.of_nat (S (S k)))) with (Z.of_nat (S k)) by lia.
    rewrite <- app_comm_cons.
    cbn [create_tts_loop run]. unfold exec at 1. rewrite He0.
    rewrite decide_True by lia. cbv zeta.
    set (w1 := called _).
    change (run (perform (Sleep ((a + 1) * 2));; _) w1)
      with (run (create_tts_loop text language max_retries
                   (seqZ (Z.succ a) (Z.of_nat (S k)) ++ later))
                (record (EvSleep ((a + 1) * 2)) w1)).
    set (w2 := record _ w1).
    rewrite (IH (Z.succ a) w2).
    + subst w2 w1. simpl. rewrite <- !app_assoc. simpl.
      by replace (Z.succ a) with (a + 1) by lia.
    + lia.
    + intros j Hj. destruct (Hfail (S j) ltac:(lia)) as (e & p & He).
      exists e, p. subst w2 w1. simpl.
      by replace (S (calls w + j)) with (calls w + S j)%nat by lia.
    + subst w2 w1. simpl.
      replace (S (calls w + k)) with (calls w + S k)%nat by lia.
      destruct Hlast as [?|?]; [by left|right; lia].
Qed.

Lemma save_attempt_log (t : tts) (path : string) (w : world) :
  log (exec (Save (Some t) path) w).2 = log w ++ [EvSave (Some t) path]
  /\ calls (exec (Save (Some t) path) w).2 = S (calls w)
  /\ backend (exec (Save (Some t) path) w).2 = backend w.
Proof.
  simpl. by destruct (result_of (backend w (calls w))) as [audio|e [partial|]].
Qed.

Lemma save_tts_loop_log (t : tts) (path : string) (max_retries : Z)
    (k : nat) (a : Z) (later : list Z) (w : world) :
  a + Z.of_nat k <= max_retries - 1 ->
  (forall j : nat, (j < k)%nat -> exists e, fails_with w (calls w + j) e) ->
  (exists audio, result_of (backend w (calls w + k)) = Succeeds audio)
  \/ a + Z.of_nat k = max_retries - 1 ->
  log (run (save_tts_loop (Some t) path max_retries
              (seqZ a (Z.of_nat (S k)) ++ later)) w).2
  = log w ++ retry_trace_from (EvSave (Some t) path) a (S k).
Proof.
  revert a w. induction k as [|k IH]; intros a w Hm Hfail Hlast.
  - rewrite Nat.add_0_r in Hlast.
    change (seqZ a (Z.of_nat 1)) with [a]. simpl.
    destruct (result_of (backend w (calls w))) as [audio|e [partial|]] eqn:Hres;
      [done| |].
    all: destruct Hlast as [[audio [=]]|Hlast].
    all: rewrite decide_False by lia; done.
  - destruct (Hfail 0%nat ltac:(lia)) as (e0 & p0 & He0).
    rewrite Nat.add_0_r in He0.
    destruct (save_attempt_fails t path w e0 p0 He0)
      as (w1 & Hex & Hc1 & Hb1 & Hl1).
    rewrite (seqZ_cons a) by lia.
    replace (Z.pred (Z.of_nat (S (S k)))) with (Z.of_nat (S k)) by lia.
    rewrite <- app_comm_cons.
    cbn [save_tts_loop run]. rewrite Hex, decide_True by lia. cbv zeta.
    change (run (perform (Sleep ((a + 1) * 2));; _) w1)
      with (run (save_tts_loop (Some t) path max_retries
                   (seqZ (Z.succ a) (Z.of_nat (S k)) ++ later))
                (record (EvSleep ((a + 1) * 2)) w1)).
    set (w2 := record _ w1).
    rewrite (IH (Z.succ a) w2).
    + subst w2. simpl. rewrite Hl1, <- !app_assoc. simpl.
      by replace (Z.succ a) with (a + 1) by lia.
    + lia.
    + intros j Hj. destruct (Hfail (S j) ltac:(lia)) as (e & p & He).
      exists e, p. subst w2. simpl. rewrite Hb1, Hc1.
      by replace (S (calls w) + j)%nat with (calls w + S j)%nat by lia.
    + subst w2. simpl. rewrite Hb1, Hc1.
      replace (S (calls w) + k)%nat with (calls w + S k)%nat by lia.
      destruct Hlast as [?|?]; [by left|right; lia].
Qed.

Example retry_trace_3 (ev : event) :
  retry_trace ev 3 = [ev; EvSleep 2; ev; EvSleep 4; ev].
Proof. reflexivity. Qed.

(** X4. The retry count for any [max_retries >= 1]: a wrapper all of
    whose attempts fail makes exactly [max_retries] attempts, sleeps
    [1 * 2, 2 * 2, ...] between consecutive attempts, [max_retries - 1]
    times in all, and raises the failure of the last attempt.  The log
    shows where the waits fall: attempt, wait 2, attempt, wait 4, ...,
    attempt, with nothing after the last attempt. *)
Lemma retry_wrappers_exhaust_any (text language path : string) (t : tts)
    (max_retries : Z) (w : world) :
  1 <= max_retries ->
  (forall j : nat, Z.of_nat j < max_retries ->
                   exists e, fails_with w (calls w + j) e) ->
  let waits := (fun k => k * 2) <$> seqZ 1 (max_retries - 1) in
  let last := (calls w + Z.to_nat (max_retries - 1))%nat in
  (exists e w',
     run (create_tts_with_retry text language max_retries) w = (inl e, w')
     /\ fails_with w last e
     /\ calls w' = (calls w + Z.to_nat max_retries)%nat
     /\ sleeps (log w') = sleeps (log w) ++ waits
     /\ log w' = log w ++ retry_trace (EvGTTS text language)
                                       (Z.to_nat max_retries))
  /\ (exists e w',
     run (save_tts_with_retry (Some t) path max_retries) w = (inl e, w')
     /\ fails_with w last e
     /\ calls w' = (calls w + Z.to_nat max_retries)%nat
     /\ sleeps (log w') = sleeps (log w) ++ waits
     /\ log w' = log w ++ retry_trace (EvSave (Some t) path)
                                       (Z.to_nat max_retries)).
Proof.
  intros Hm Hfail waits last.
  assert (exists n : nat, max_retries = Z.of_nat (S n)) as [n ->].
  { exists (Z.to_nat (max_retries - 1)). lia. }
  assert (waits = (fun j => (j + 1) * 2) <$> seqZ 0 (Z.of_nat n)) as ->.
  { subst waits. replace (Z.of_nat (S n) - 1) with (Z.of_nat n) by lia.
    rewrite <- (fmap_add_seqZ 1 0), <- list_fmap_compose.
    apply list_fmap_ext. intros _ k _. simpl. lia. }
  assert (last = (calls w + n)%nat) as -> by (subst last; lia).
  replace (Z.to_nat (Z.of_nat (S n))) with (S n) by lia.
  unfold create_tts_with_retry, save_tts_with_retry. rewrite range_seqZ.
  split.
  - destruct (create_tts_loop_exhausts text language (Z.of_nat (S n)) n 0 w)
      as (e & w' & Hrun & ? & ? & ?); [lia|intros j Hj; apply Hfail; lia|].
    pose proof (create_tts_loop_log text language (Z.of_nat (S n)) n 0 [] w)
      as Hlog.
    rewrite app_nil_r, Hrun, retry_trace_from_0 in Hlog.
    exists e, w'. do 4 (split; [done|]).
    apply Hlog; [lia|intros j Hj; apply Hfail; lia|right; lia].
  - destruct (save_tts_loop_exhausts t path (Z.of_nat (S n)) n 0 w)
      as (e & w' & Hrun & ? & ? & ?); [lia|intros j Hj; apply Hfail; lia|].
    pose proof (save_tts_loop_log t path (Z.of_nat (S n)) n 0 [] w) as Hlog.
    rewrite app_nil_r, Hrun, retry_trace_from_0 in Hlog.
    exists e, w'. do 4 (split; [done|]).
    apply Hlog; [lia|intros j Hj; apply Hfail; lia|right; lia].
Qed.

Lemma retry_wrappers_exhaust_any_witness :
  let w := initial_world ∅ (constant_backend
             {| latency := 1; result_of := Fails (BackendError "503") None |}) in
  let waits := (fun k => k * 2) <$> seqZ 1 (5 - 1) in
  let last := (calls w + Z.to_nat (5 - 1))%nat in
  (exists e w',
     run (create_tts_with_retry "hello" "en" 5) w = (inl e, w')
     /\ fails_with w last e
     /\ calls w' = (calls w + Z.to_nat 5)%nat
     /\ sleeps (log w') = sleeps (log w) ++ waits
     /\ log w' = [EvGTTS "hello" "en"; EvSleep 2; EvGTTS "hello" "en";
                  EvSleep 4; EvGTTS "hello" "en"; EvSleep 6;
                  EvGTTS "hello" "en"; EvSleep 8; EvGTTS "hello" "en"])
  /\ (exists e w',
     run (save_tts_with_retry (Some (the_tts "hello" "en")) "out.mp3" 5) w
     = (inl e, w')
     /\ fails_with w last e
     /\ calls w' = (calls w + Z.to_nat 5)%nat
     /\ sleeps (log w') = sleeps (log w) ++ waits
     /\ log w' = [EvSave (Some (the_tts "hello" "en")) "out.mp3"; EvSleep 2;
                  EvSave (Some (the_tts "hello" "en")) "out.mp3"; EvSleep 4;
                  EvSave (Some (the_tts "hello" "en")) "out.mp3"; EvSleep 6;
                  EvSave (Some (the_tts "hello" "en")) "out.mp3"; EvSleep 8;
                  EvSave (Some (the_tts "hello" "en")) "out.mp3"]).
Proof.
  intros w.
  apply (retry_wrappers_exhaust_any "hello" "en" "out.mp3"
           (the_tts "hello" "en") 5 w).
  - lia.
  - intros j _. exists (BackendError "503"), None. reflexivity.
Defined.

Lemma create_tts_with_retry_runs (text language : string) (w : world) :
  exists (k : nat) r w',
    run (create_tts_with_retry text language default_max_retries) w = (r, w')
    /\ attempts_made (EvGTTS text language) k w w'
    /\ fs w' = fs w
    /\ (r = inr (Some {| tts_text := text; tts_lang := language |})
        \/ (k = 3%nat /\ exists e, r = inl e)).
Proof.
  unfold create_tts_with_retry, default_max_retries, attempts_made.
  rewrite range_3. simpl.
  destruct (result_of (backend w (calls w))); simpl.
  { exists 1%nat. eexists _, _. split; [reflexivity|]. simpl.
    repeat split; auto with lia. }
  destruct (result_of (backend w (S (calls w)))); simpl.
  { exists 2%nat. eexists _, _. split; [reflexivity|]. simpl.
    rewrite <- !app_assoc. repeat split; auto with lia. }
  destruct (result_of (backend w (S (S (calls w))))); simpl.
  { exists 3%nat. eexists _, _. split; [reflexivity|]. simpl.
    rewrite <- !app_assoc. repeat split; auto with lia. }
  exists 3%nat. eexists _, _. split; [reflexivity|]. simpl.
  rewrite <- !app_assoc. repeat split; eauto with lia.
Qed.

Lemma save_tts_with_retry_runs (t : option tts) (path : string) (w : world) :
  exists (k : nat) r w',
    run (save_tts_with_retry t path default_max_retries) w = (r, w')
    /\ attempts_made (EvSave t path) k w w'
    /\ (forall p, p <> path -> fs w' !! p = fs w !! p)
    /\ (r = inr tt \/ (k = 3%nat /\ exists e, r = inl e)).
Proof.
  unfold save_tts_with_retry, default_max_retries, attempts_made.
  rewrite range_3. destruct t as [t|]; simpl.
  2:{ exists 3%nat. eexists _, _. split; [reflexivity|]. simpl.
      rewrite <- !app_assoc. repeat split; eauto with lia. }
  destruct (result_of (backend w (calls w))) as [a1|e1 [p1|]]; simpl;
    try (exists 1%nat; eexists _, _; split; [reflexivity|]; simpl;
         repeat split; auto with lia;
         intros p Hp; by rewrite ?lookup_insert_ne).
  all: destruct (result_of (backend w (S (calls w)))) as [a2|e2 [p2|]]; simpl;
    try (exists 2%nat; eexists _, _; split; [reflexivity|]; simpl;
         rewrite <- !app_assoc; repeat split; auto with lia;
         intros p Hp; by rewrite ?lookup_insert_ne).
  all: destruct (result_of (backend w (S (S (calls w))))) as [a3|e3 [p3|]]; simpl;
    exists 3%nat; eexists _, _; (split; [reflexivity|]); simpl;
         rewrite <- !app_assoc; repeat split; eauto with lia;
         intros p Hp; by rewrite ?lookup_insert_ne.
Qed.

(** Any run of the two calls: one group of attempts to synthesize and, if
    that succeeds, one group of attempts to persist; only [path] may
    change; a failure is the exhaustion of one of the two groups. *)
Lemma synthesize_and_persist_runs (text language path : string) (w : world) :
  exists (k1 k2 : nat) r w',
    run (synthesize_and_persist text language path) w = (r, w')
    /\ (1 <= k1 <= 3)%nat /\ (k2 <= 3)%nat
    /\ log w' = log w ++ retry_trace (EvGTTS text language) k1
                      ++ retry_trace (EvSave (Some (the_tts text language)) path) k2
    /\ backend w' = backend w
    /\ result w' = result w
    /\ (forall p, p <> path -> fs w' !! p = fs w !! p)
    /\ (r = inr tt \/ (exists e, r = inl e) /\ (k1 = 3 /\ k2 = 0 \/ k2 = 3)%nat).
Proof.
  unfold synthesize_and_persist. rewrite run_bind.
  destruct (create_tts_with_retry_runs text language w)
    as (k1 & r1 & w1 & -> & (Hk1 & Hlog1 & Hb1 & Hr1 & Hc1) & Hfs1 & Hres1).
  destruct Hres1 as [->|[-> [e ->]]].
  - destruct (save_tts_with_retry_runs (Some (the_tts text language)) path w1)
      as (k2 & r2 & w2 & -> & (Hk2 & Hlog2 & Hb2 & Hr2 & Hc2) & Hfs2 & Hres2).
    exists k1, k2, r2, w2. split; [done|]. split; [done|]. split; [lia|].
    split; [by rewrite Hlog2, Hlog1, <- app_assoc|].
    split; [congruence|]. split; [congruence|].
    split; [intros p Hp; rewrite Hfs2 by done; by rewrite Hfs1|].
    destruct Hres2 as [->|[-> [e ->]]]; [by left|right]. eauto.
  - exists 3%nat, 0%nat. eexists _, w1. split; [done|].
    split; [lia|]. split; [lia|]. simpl retry_trace at 2.
    rewrite app_nil_r. split; [done|]. split; [done|]. split; [done|].
    split; [intros p Hp; by rewrite Hfs1|]. right. eauto.
Qed.

(** How a run of the synthesis wrapper ends. *)
Lemma create_tts_with_retry_outcome (text language : string) (w : world) :
  exists (k : nat) r w',
    run (create_tts_with_retry text language default_max_retries) w = (r, w')
    /\ (1 <= k <= 3)%nat
    /\ log w' = log w ++ retry_trace (EvGTTS text language) k
    /\ calls w' = (calls w + k)%nat
    /\ backend w' = backend w
    /\ result w' = result w
    /\ fs w' = fs w
    /\ (forall j : nat, (j + 1 < k)%nat ->
                        exists e, fails_with w (calls w + j) e)
    /\ ((r = inr (Some (the_tts text language))
         /\ exists audio,
              result_of (backend w (calls w + k - 1)) = Succeeds audio)
        \/ (k = 3%nat /\ exists e, r = inl e /\ fails_with w (calls w + 2) e)).
Proof.
  unfold create_tts_with_retry, default_max_retries.
  rewrite range_3. simpl.
  destruct (result_of (backend w (calls w))) as [a1|e1 p1] eqn:H1; simpl.
  { exists 1%nat. eexists _, _. split; [reflexivity|]. simpl.
    do 6 (split; [auto with lia|]). split; [intros j Hj; lia|].
    left. split; [done|]. exists a1.
    by replace (calls w + 1 - 1)%nat with (calls w) by lia. }
  destruct (result_of (backend w (S (calls w)))) as [a2|e2 p2] eqn:H2; simpl.
  { exists 2%nat. eexists _, _. split; [reflexivity|]. simpl.
    rewrite <- !app_assoc. do 6 (split; [auto with lia|]).
    split.
    - intros j Hj. replace j with 0%nat by lia. exists e1, p1.
      by replace (calls w + 0)%nat with (calls w) by lia.
    - left. split; [done|]. exists a2.
      by replace (calls w + 2 - 1)%nat with (S (calls w)) by lia. }
  assert (forall j : nat, (j + 1 < 3)%nat ->
                          exists e, fails_with w (calls w + j) e) as Hearly.
  { intros [|[|j]] Hj; [| |lia].
    - exists e1, p1. by replace (calls w + 0)%nat with (calls w) by lia.
    - exists e2, p2. by replace (calls w + 1)%nat with (S (calls w)) by lia. }
  destruct (result_of (backend w (S (S (calls w))))) as [a3|e3 p3] eqn:H3; simpl.
  { exists 3%nat. eexists _, _. split; [reflexivity|]. simpl.
    rewrite <- !app_assoc. do 6 (split; [auto with lia|]).
    split; [done|]. left. split; [done|]. exists a3.
    by replace (calls w + 3 - 1)%nat with (S (S (calls w))) by lia. }
  exists 3%nat. eexists _, _. split; [reflexivity|]. simpl.
  rewrite <- !app_assoc. do 6 (split; [auto with lia|]).
  split; [done|].
  right. split; [done|]. eexists. split; [done|].
  replace (calls w + 2)%nat with (S (S (calls w))) by lia. by eexists.
Qed.

(** How a run of the persist wrapper ends: with the audio of its last
    call in the file, or with the failure of its third call. *)
Lemma save_tts_with_retry_outcome (t : tts) (path : string) (w : world) :
  exists (k : nat) r w',
    run (save_tts_with_retry (Some t) path default_max_retries) w = (r, w')
    /\ (1 <= k <= 3)%nat
    /\ log w' = log w ++ retry_trace (EvSave (Some t) path) k
    /\ calls w' = (calls w + k)%nat
    /\ backend w' = backend w
    /\ result w' = result w
    /\ (forall p, p <> path -> fs w' !! p = fs w !! p)
    /\ (forall j : nat, (j + 1 < k)%nat ->
                        exists e, fails_with w (calls w + j) e)
    /\ ((r = inr tt
         /\ exists audio,
              result_of (backend w (calls w + k - 1)) = Succeeds audio
              /\ fs w' !! path = Some audio)
        \/ (k = 3%nat /\ exists e, r = inl e /\ fails_with w (calls w + 2) e)).
Proof.
  unfold save_tts_with_retry, default_max_retries.
  rewrite range_3. simpl.
  destruct (result_of (backend w (calls w))) as [a1|e1 p1] eqn:H1.
  { simpl. exists 1%nat; eexists _, _; split; [reflexivity|]; simpl.
    split; [lia|]. split; [done|]. split; [lia|]. split; [done|].
    split; [done|].
    split; [intros p Hp; by rewrite ?lookup_insert_ne|].
    split; [intros j Hj; lia|].
    left; split; [done|]; exists a1;
    replace (calls w + 1 - 1)%nat with (calls w) by lia;
    split; [done|]; by rewrite lookup_insert_eq. }
  assert (exists e, fails_with w (calls w + 0) e) as Hf1.
  { exists e1, p1. by replace (calls w + 0)%nat with (calls w) by lia. }
  destruct p1 as [p1|]; simpl.
  all: destruct (result_of (backend w (S (calls w)))) as [a2|e2 p2] eqn:H2;
    try solve
      [ simpl; exists 2%nat; eexists _, _; (split; [reflexivity|]); simpl;
        rewrite <- !app_assoc;
        (split; [lia|]); (split; [done|]); (split; [lia|]); (split; [done|]);
        (split; [done|]);
        (split; [intros p Hp; by rewrite ?lookup_insert_ne|]);
        (split; [intros j Hj; by replace j with 0%nat by lia|]);
        left; (split; [done|]); exists a2;
        replace (calls w + 2 - 1)%nat with (S (calls w)) by lia;
        (split; [done|]); by rewrite lookup_insert_eq ].
  all: assert (forall j : nat, (j + 1 < 3)%nat ->
                               exists e, fails_with w (calls w + j) e) as Hearly
    by (intros [|[|j]] Hj; [done| |lia]; exists e2, p2;
        by replace (calls w + 1)%nat with (S (calls w)) by lia).
  all: destruct p2 as [p2|]; simpl.
  all: destruct (result_of (backend w (S (S (calls w))))) as [a3|e3 p3] eqn:H3;
    try solve
      [ simpl; exists 3%nat; eexists _, _; (split; [reflexivity|]); simpl;
        rewrite <- !app_assoc;
        (split; [lia|]); (split; [done|]); (split; [lia|]); (split; [done|]);
        (split; [done|]);
        (split; [intros p Hp; by rewrite ?lookup_insert_ne|]);
        (split; [done|]);
        left; (split; [done|]); exists a3;
        replace (calls w + 3 - 1)%nat with (S (S (calls w))) by lia;
        (split; [done|]); by rewrite lookup_insert_eq ].
  all: destruct p3 as [p3|]; simpl;
    exists 3%nat; eexists _, _; (split; [reflexivity|]); simpl;
    rewrite <- !app_assoc;
    (split; [lia|]); (split; [done|]); (split; [lia|]); (split; [done|]);
    (split; [done|]);
    (split; [intros p Hp; by rewrite ?lookup_insert_ne|]);
    (split; [done|]);
    right; (split; [done|]); eexists; (split; [done|]);
    replace (calls w + 2)%nat with (S (S (calls w))) by lia; by eexists.
Qed.

(** How a run of the two calls ends. *)
Lemma synthesize_and_persist_outcome (text language path : string) (w : world) :
  exists (k1 k2 : nat) r w',
    run (synthesize_and_persist text language path) w = (r, w')
    /\ (1 <= k1 <= 3)%nat /\ (k2 <= 3)%nat
    /\ log w' = log w ++ retry_trace (EvGTTS text language) k1
                      ++ retry_trace (EvSave (Some (the_tts text language)) path) k2
    /\ calls w' = (calls w + k1 + k2)%nat
    /\ result w' = result w
    /\ (forall p, p <> path -> fs w' !! p = fs w !! p)
    /\ (forall j : nat, (j + 1 < k1)%nat ->
                        exists e, fails_with w (calls w + j) e)
    /\ (forall j : nat, (j + 1 < k2)%nat ->
                        exists e, fails_with w (calls w + k1 + j) e)
    /\ ((1 <= k2)%nat ->
        exists audio, result_of (backend w (calls w + k1 - 1)) = Succeeds audio)
    /\ ((r = inr tt /\ (1 <= k2)%nat
         /\ exists audio,
              result_of (backend w (calls w + k1 + k2 - 1)) = Succeeds audio
              /\ fs w' !! path = Some audio)
        \/ ((k1 = 3 /\ k2 = 0 \/ k2 = 3)%nat
            /\ exists e, r = inl e
                         /\ fails_with w (calls w + k1 + k2 - 1) e)).
Proof.
  unfold synthesize_and_persist. rewrite run_bind.
  destruct (create_tts_with_retry_outcome text language w)
    as (k1 & r1 & w1 & -> & Hk1 & Hlog1 & Hc1 & Hb1 & Hr1 & Hfs1 & He1 & Hres1).
  destruct Hres1 as [[-> Hs1]|[-> (e & -> & He)]].
  - destruct (save_tts_with_retry_outcome (the_tts text language) path w1)
      as (k2 & r2 & w2 & -> & Hk2 & Hlog2 & Hc2 & Hb2 & Hr2 & Hfs2 & He2 & Hres2).
    exists k1, k2, r2, w2. split; [done|]. split; [done|]. split; [lia|].
    split; [by rewrite Hlog2, Hlog1, <- app_assoc|].
    split; [lia|]. split; [congruence|].
    split; [intros p Hp; rewrite Hfs2 by done; by rewrite Hfs1|].
    split; [done|].
    split.
    { intros j Hj. destruct (He2 j Hj) as [e He]. exists e.
      unfold fails_with in *. by rewrite Hb1, Hc1 in He. }
    split; [done|].
    destruct Hres2 as [[-> (audio & Ha & Hfile)]|[-> (e & -> & He)]].
    + left. split; [done|]. split; [lia|]. exists audio. split; [|done].
      by rewrite Hb1, Hc1 in Ha.
    + right. split; [by right|]. exists e. split; [done|].
      unfold fails_with in *. rewrite Hb1, Hc1 in He.
      by replace (calls w + k1 + 3 - 1)%nat with (calls w + k1 + 2)%nat by lia.
  - exists 3%nat, 0%nat. eexists _, w1. split; [done|].
    split; [lia|]. split; [lia|]. simpl retry_trace at 2.
    rewrite app_nil_r. split; [done|]. split; [lia|]. split; [done|].
    split; [intros p Hp; by rewrite Hfs1|].
    split; [done|]. split; [intros j Hj; lia|]. split; [lia|]. right.
    split; [by left|]. exists e. split; [done|].
    by replace (calls w + 3 + 0 - 1)%nat with (calls w + 2)%nat by lia.
Qed.

(** C7. A text of at most 1000 characters is not split: the conversion
    makes one group of at most three attempts to synthesize the whole text
    and, if one succeeds, one group of at most three attempts to persist it
    to the output path itself; nothing else happens (no open, read, write or
    remove of the assembly), and no path but the output path changes, so no
    temporary chunk file appears.  Each group stops at its first attempt
    that succeeds: the attempts before the last of a group have failed, and
    a persist attempt is made only after a synthesis that succeeded.  The
    run ends in one of two ways.  Either the text was persisted: a persist
    attempt was made, the last one succeeded, the output path holds the
    audio of that call, and [result] records success.  Or one of the two
    groups was exhausted after three attempts, and [result] records the
    failure of the last call. *)
Theorem short_text_is_one_chunk (text output_path language : string)
    (w : world) :
  Str.len text <= 1000 ->
  exists (k1 k2 : nat) w',
    run (convert text output_path language) w = (inr tt, w')
    /\ (1 <= k1 <= 3)%nat /\ (k2 <= 3)%nat
    /\ log w' = log w
                  ++ retry_trace (EvGTTS text language) k1
                  ++ retry_trace (EvSave (Some (the_tts text language))
                                         output_path) k2
    /\ (forall p, p <> output_path -> fs w' !! p = fs w !! p)
    /\ calls w' = (calls w + k1 + k2)%nat
    /\ (forall j : nat, (j + 1 < k1)%nat ->
                        exists e, fails_with w (calls w + j) e)
    /\ (forall j : nat, (j + 1 < k2)%nat ->
                        exists e, fails_with w (calls w + k1 + j) e)
    /\ ((1 <= k2)%nat ->
        exists audio, result_of (backend w (calls w + k1 - 1)) = Succeeds audio)
    /\ ((* persisted: a persist call succeeded, the output holds its audio *)
        ((1 <= k2)%nat
         /\ (exists audio,
               result_of (backend w (calls w + k1 + k2 - 1)) = Succeeds audio
               /\ fs w' !! output_path = Some audio)
         /\ result w' = {| success := true; error := error (result w) |})
        \/ (* or one of the two attempt groups was exhausted *)
           ((k1 = 3 /\ k2 = 0 \/ k2 = 3)%nat
            /\ exists e,
                 fails_with w (calls w + k1 + k2 - 1) e
                 /\ result w' = {| success := success (result w);
                                   error := Some (str e) |})).
Proof.
  intros Hshort. unfold convert, convert_body.
  rewrite decide_False by (unfold max_chunk_size; lia).
  rewrite run_try_except, run_bind.
  destruct (synthesize_and_persist_outcome text language output_path w)
    as (k1 & k2 & r & w' & -> & Hk1 & Hk2 & Hlog & Hcalls & Hresult & Hfs
        & He1 & He2 & Hs1 & Hres).
  exists k1, k2.
  destruct Hres as [(-> & Hk & audio & Ha & Hfile)|(Hk & e & -> & He)]; simpl;
    (eexists; split; [reflexivity|]); simpl;
    do 8 (split; [done|]).
  - left. split; [done|]. split; [by exists audio|]. by rewrite Hresult.
  - right. split; [done|]. exists e. split; [done|]. by rewrite Hresult.
Qed.

Lemma short_text_is_one_chunk_witness :
  let w := initial_world ∅ (constant_backend
             {| latency := 1; result_of := Succeeds [Byte.x01] |}) in
  exists w',
    run (convert "hello" "out.mp3" "en") w = (inr tt, w')
    /\ log w' = [EvGTTS "hello" "en";
                 EvSave (Some (the_tts "hello" "en")) "out.mp3"]
    /\ (forall p, p <> "out.mp3" -> fs w' !! p = fs w !! p)
    /\ calls w' = 2%nat
    /\ fs w' !! "out.mp3" = Some [Byte.x01]
    /\ result w' = {| success := true; error := None |}.
Proof.
  intros w.
  destruct (short_text_is_one_chunk "hello" "out.mp3" "en" w)
    as (k1 & k2 & w' & Hrun & Hk1 & Hk2 & Hlog & Hframe & Hcalls
        & He1 & He2 & Hs1 & Hend).
  { vm_compute. discriminate. }
  assert (k1 = 1%nat) as ->.
  { destruct k1 as [|[|k1]]; [lia|done|].
    destruct (He1 0%nat) as (e & p & Hp); [lia|discriminate Hp]. }
  assert (k2 = 1%nat) as ->.
  { destruct k2 as [|[|k2]]; [|done|].
    - destruct Hend as [(Hk & _)|([[Hk _]|Hk] & _)]; lia.
    - destruct (He2 0%nat) as (e & p & Hp); [lia|discriminate Hp]. }
  exists w'.
  destruct Hend as [(Hk & (audio & Ha & Hfile) & Hres)|(_ & e & [p Hp] & _)].
  - injection Ha as <-.
    split; [exact Hrun|]. split; [exact Hlog|]. split; [exact Hframe|].
    split; [exact Hcalls|]. split; [exact Hfile|exact Hres].
  - discriminate Hp.
Defined.

(** ** Deadlines *)

Lemma duration_nonneg {X : Type} (o : op X) (w : world) : 0 <= duration o w.
Proof. destruct o as [| | [t|] | | | | | |]; simpl; lia. Qed.

Lemma elapsed_nonneg {A : Type} (p : Prog A) (w : world) : 0 <= elapsed p w.
Proof.
  revert w. induction p as [a|e|X o k IH]; intros w; simpl; try lia.
  destruct (exec o w) as [x w'].
  pose proof (duration_nonneg o w). pose proof (IH x w'). lia.
Qed.

(** A thread whose run fits in the budget is joined at its end. *)
Lemma join_for_finished (p : Prog unit) (budget : Z) (w : world) :
  elapsed p w <= budget -> join_for budget p w = (Finished, (run p w).2).
Proof.
  revert budget w. induction p as [a|e|X o k IH]; intros budget w; simpl;
    try done.
  destruct (exec o w) as [x w'] eqn:Hexec. intros H.
  pose proof (elapsed_nonneg (k x) w').
  rewrite decide_True by lia. apply IH. lia.
Qed.

(** A thread whose run does not fit is still alive at the deadline, and
    what is left of it, run from the world of the deadline, ends as the
    uninterrupted run does. *)
Lemma join_for_alive (p : Prog unit) (budget : Z) (w : world) :
  0 <= budget -> budget < elapsed p w ->
  exists rest w',
    join_for budget p w = (Alive rest, w') /\ run rest w' = run p w.
Proof.
  revert budget w. induction p as [a|e|X o k IH]; intros budget w Hb; simpl;
    try lia.
  destruct (exec o w) as [x w'] eqn:Hexec. intros H.
  pose proof (duration_nonneg o w).
  destruct (decide (duration o w <= budget)).
  - apply IH; lia.
  - eexists _, _. split; [reflexivity|]. simpl. by rewrite Hexec.
Qed.

Lemma TimeoutError_ne_ConversionError timeout detail :
  TimeoutError timeout <> ConversionError detail.
Proof. unfold TimeoutError, ConversionError. intros [= H]. Qed.

(** C3. If the background unit has not finished within the timeout, the
    supervisor raises the timeout error, the unit is still alive, and what
    is left of it runs on to the very end the uninterrupted unit reaches,
    whatever that end is.  If the unit has finished in time, the supervisor
    never raises the timeout error: it returns normally when the unit
    recorded success and raises the conversion error otherwise. *)
Theorem supervisor_deadline (text output_path language : string)
    (timeout : Z) (w : world) :
  let p := convert text output_path language in
  let w0 := with_result {| success := false; error := None |} w in
  (elapsed p w0 > Z.max 0 timeout ->
   exists rest w1,
     text_to_mp3_optimized text output_path language timeout w
     = (inl (TimeoutError timeout), Alive rest, w1)
     /\ run rest w1 = run p w0)
  /\ (elapsed p w0 <= Z.max 0 timeout ->
      exists r,
        text_to_mp3_optimized text output_path language timeout w
        = (r, Finished, (run p w0).2)
        /\ r <> inl (TimeoutError timeout)
        /\ r = if success (result (run p w0).2)
               then inr tt
               else inl (ConversionError (error (result (run p w0).2)))).
Proof.
  intros p w0. unfold text_to_mp3_optimized, join. fold p w0. split.
  - intros H.
    destruct (join_for_alive p (Z.max 0 timeout) w0) as (rest & w1 & Hj & Hr);
      [lia..|].
    exists rest, w1. by rewrite Hj.
  - intros H. rewrite (join_for_finished p _ w0) by done. simpl.
    destruct (success (result (run p w0).2)); simpl; eexists;
      (split; [reflexivity|split; [|done]]); [done|].
    intros Heq. by injection Heq.
Qed.

Lemma supervisor_deadline_witness :
  let w := initial_world ∅ (constant_backend
             {| latency := 10; result_of := Succeeds [Byte.x01] |}) in
  exists rest w1,
    text_to_mp3_optimized "hello" "out.mp3" "en" 5 w
    = (inl (TimeoutError 5), Alive rest, w1)
    /\ run rest w1
       = run (convert "hello" "out.mp3" "en")
             (with_result {| success := false; error := None |} w).
Proof.
  intros w. apply (proj1 (supervisor_deadline "hello" "out.mp3" "en" 5 w)).
  vm_compute. reflexivity.
Defined.

(** Scenario D, twice.  Two units that are both too slow for a deadline of 5: left alone, the
    first ends in success and writes the output, the second ends in
    failure; the supervisor raises the same timeout error for both. *)
Example timeout_whatever_the_end :
  let slow_ok := constant_backend
    {| latency := 10; result_of := Succeeds [Byte.x01] |} in
  let slow_bad := constant_backend
    {| latency := 10; result_of := Fails (BackendError "503") None |} in
  let '(r1, th1, w1) :=
    text_to_mp3_optimized "hello" "out.mp3" "en" 5 (initial_world ∅ slow_ok) in
  let '(r2, th2, w2) :=
    text_to_mp3_optimized "hello" "out.mp3" "en" 5 (initial_world ∅ slow_bad) in
  r1 = inl (TimeoutError 5) /\ r2 = inl (TimeoutError 5)
  /\ match th1, th2 with
     | Alive rest1, Alive rest2 =>
         result (run rest1 w1).2 = {| success := true; error := None |}
         /\ fs (run rest1 w1).2 !! "out.mp3" = Some [Byte.x01]
         /\ result (run rest2 w2).2 = {| success := false; error := Some "503" |}
     | _, _ => False
     end.
Proof. vm_compute. auto. Qed.

(** ** Temporary file names *)

Lemma temp_file_name_inj (out : string) (i j : Z) :
  temp_file_name out i = temp_file_name out j -> i = j.
Proof.
  unfold temp_file_name. intros H.
  apply (inj (String.append out)) in H.
  apply (inj (String.append ".chunk_")) in H.
  apply StrFacts.app_inj_r in H. by apply (inj pretty) in H.
Qed.

Lemma temp_file_name_ne_output (out : string) (i : Z) :
  temp_file_name out i <> out.
Proof. unfold temp_file_name. by apply StrFacts.app_ne_self. Qed.

Lemma NoDup_temp_file_names (out : string) (n : Z) :
  NoDup (temp_file_names out n).
Proof.
  apply NoDup_fmap_2; [|apply NoDup_seqZ].
  intros i j. apply temp_file_name_inj.
Qed.

Lemma output_not_temp_file (out : string) (n : Z) :
  out ∉ temp_file_names out n.
Proof.
  intros (i & Hi & _)%list_elem_of_fmap.
  by eapply temp_file_name_ne_output.
Qed.

(** ** The assembly of the chunks *)

Lemma read_ok (path : string) (data : bytes) (w : world) :
  holds w path data ->
  exec (ReadAll path) w = (inr data, record (EvRead path) w).
Proof. intros [Hfs Hr]. simpl. by rewrite Hfs, Hr. Qed.

Lemma read_fails (path : string) (e : exn) (w : world) :
  read_error w path = Some e ->
  exec (ReadAll path) w = (inl e, record (EvRead path) w).
Proof.
  unfold read_error. simpl. destruct (fs w !! path); [|by intros [= <-]].
  destruct (unreadable w path); [by intros [= <-]|done].
Qed.

Lemma Forall2_holds_frame (tfs : list string) (datas : list bytes)
    (w w' : world) :
  (forall tf, tf ∈ tfs -> fs w' !! tf = fs w !! tf) ->
  unreadable w' = unreadable w ->
  Forall2 (holds w) tfs datas ->
  Forall2 (holds w') tfs datas.
Proof.
  intros Hframe Hun H.
  induction H as [|tf d tfs datas [Htf Hr] _ IH]; constructor.
  - split; [|by rewrite Hun]. rewrite Hframe; [done|]. apply list_elem_of_here.
  - apply IH. intros tf' Hin. apply Hframe. by apply list_elem_of_further.
Qed.

(** One round of the assembly loop on a temporary file that can be read. *)
Lemma combine_loop_step (out tf : string) (tfs : list string) (w : world)
    (d c : bytes) :
  holds w tf d -> fs w !! out = Some c -> tf <> out ->
  exists w1,
    run (combine_loop out (tf :: tfs)) w = run (combine_loop out tfs) w1
    /\ fs w1 = delete tf (<[out := c ++ d]> (fs w))
    /\ log w1 = log w ++ [EvRead tf; EvWrite out d; EvRemove tf]
    /\ unreadable w1 = unreadable w
    /\ calls w1 = calls w /\ result w1 = result w.
Proof.
  intros [Htf Hr] Hout Hne. simpl. rewrite Htf, Hr. simpl. rewrite Hout. simpl.
  rewrite lookup_insert_ne by done. rewrite Htf. simpl.
  eexists. split; [reflexivity|]. simpl. split; [done|].
  by rewrite <- !app_assoc.
Qed.

(** The assembly opens the output, which empties it, and then loops. *)
Lemma run_combine_chunks (out : string) (tfs : list string) (w : world) :
  run (combine_chunks out tfs) w
  = run (combine_loop out tfs)
        (with_fs (<[out := []]> (fs w)) (record (EvOpenWb out) w)).
Proof. reflexivity. Qed.

(** One round of the assembly loop on a temporary file that is missing or
    may not be read: the loop ends there, before any removal. *)
Lemma combine_loop_fails (out tf : string) (tfs : list string) (w : world)
    (e : exn) :
  read_error w tf = Some e ->
  run (combine_loop out (tf :: tfs)) w = (inl e, record (EvRead tf) w).
Proof.
  intros Herr. pose proof (read_fails tf e w Herr) as Hread.
  simpl in *. by rewrite Hread.
Qed.

(** The assembly loop over temporary files that can all be read: their
    contents are appended to the output in order, they are removed, and no
    other path changes. *)
Lemma combine_loop_prefix (out : string) (pre rest : list string)
    (datas : list bytes) (w : world) (c : bytes) :
  NoDup pre -> out ∉ pre ->
  Forall2 (holds w) pre datas ->
  fs w !! out = Some c ->
  exists w1,
    run (combine_loop out (pre ++ rest)) w = run (combine_loop out rest) w1
    /\ fs w1 !! out = Some (c ++ concat datas)
    /\ (forall tf, tf ∈ pre -> fs w1 !! tf = None)
    /\ (forall p, p <> out -> p ∉ pre -> fs w1 !! p = fs w !! p)
    /\ unreadable w1 = unreadable w
    /\ calls w1 = calls w /\ result w1 = result w.
Proof.
  revert datas w c.
  induction pre as [|tf tfs IH]; intros datas w c Hnd Hout Hall Hc.
  - apply Forall2_nil_inv_l in Hall as ->. exists w. simpl.
    rewrite app_nil_r. set_solver.
  - apply Forall2_cons_inv_l in Hall as (d & datas' & Htf & Hall & ->).
    apply NoDup_cons in Hnd as [Hnotin Hnd].
    apply not_elem_of_cons in Hout as [Hne Hout].
    rewrite <- app_comm_cons.
    destruct (combine_loop_step out tf (tfs ++ rest) w d c)
      as (w1 & -> & Hfs & _ & Hun & Hcalls & Hres); [done..|].
    destruct (IH datas' w1 (c ++ d))
      as (w' & Hrun & Ho & Hgone & Hframe & Hun' & Hcalls' & Hres');
      [done|done| | |].
    { eapply Forall2_holds_frame; [|done|exact Hall]. intros tf' Hin.
      rewrite Hfs. rewrite lookup_delete_ne by (intros ->; done).
      rewrite lookup_insert_ne; [done|]. intros ->. done. }
    { rewrite Hfs. rewrite lookup_delete_ne by done.
      by rewrite lookup_insert_eq. }
    exists w'. split; [done|]. split; [|split; [|split]].
    + rewrite Ho. simpl. by rewrite <- app_assoc.
    + intros tf' [->|Hin]%elem_of_cons; [|by apply Hgone].
      rewrite Hframe by done. rewrite Hfs. apply lookup_delete_eq.
    + intros p Hp [Hp1 Hp2]%not_elem_of_cons. rewrite Hframe by done.
      rewrite Hfs. rewrite lookup_delete_ne by done.
      by rewrite lookup_insert_ne.
    + repeat split; congruence.
Qed.

(** C4. When the temporary files of all N chunks can be read, the assembly
    succeeds, the output path holds exactly the concatenation of their
    contents in chunk-index order, none of the N temporary files exists
    afterwards, and no other path changes. *)
Theorem assembly_concatenates (output_path : string) (datas : list bytes)
    (w : world) :
  let temp_files := temp_file_names output_path (Z.of_nat (length datas)) in
  Forall2 (holds w) temp_files datas ->
  exists w',
    run (combine_chunks output_path temp_files) w = (inr tt, w')
    /\ fs w' !! output_path = Some (concat datas)
    /\ (forall tf, tf ∈ temp_files -> fs w' !! tf = None)
    /\ (forall p, p <> output_path -> p ∉ temp_files ->
                  fs w' !! p = fs w !! p).
Proof.
  intros temp_files Hall. rewrite run_combine_chunks.
  set (w0 := with_fs _ _).
  destruct (combine_loop_prefix output_path temp_files [] datas w0 [])
    as (w' & Hrun & Ho & Hgone & Hframe & _).
  - apply NoDup_temp_file_names.
  - apply output_not_temp_file.
  - eapply (Forall2_holds_frame _ _ w); [|done|exact Hall]. intros tf Hin.
    subst w0. simpl.
    apply lookup_insert_ne. intros ->. by eapply output_not_temp_file.
  - subst w0. simpl. apply lookup_insert_eq.
  - exists w'. rewrite app_nil_r in Hrun. rewrite Hrun. simpl.
    split; [done|]. split; [done|]. split; [done|].
    intros p Hp Hnin. rewrite Hframe by done. subst w0. simpl.
    by apply lookup_insert_ne.
Qed.

Lemma assembly_concatenates_witness :
  let files : gmap string bytes :=
    {[ "out.mp3.chunk_0.mp3" := [Byte.x01];
       "out.mp3.chunk_1.mp3" := [Byte.x02; Byte.x03] ]} in
  let w := initial_world files (constant_backend
             {| latency := 1; result_of := Succeeds [] |}) in
  exists w',
    run (combine_chunks "out.mp3" (temp_file_names "out.mp3" 2)) w = (inr tt, w')
    /\ fs w' !! "out.mp3" = Some [Byte.x01; Byte.x02; Byte.x03]
    /\ (forall tf, tf ∈ temp_file_names "out.mp3" 2 -> fs w' !! tf = None)
    /\ (forall p, p <> "out.mp3" -> p ∉ temp_file_names "out.mp3" 2 ->
                  fs w' !! p = fs w !! p).
Proof.
  intros files w.
  apply (assembly_concatenates "out.mp3" [[Byte.x01]; [Byte.x02; Byte.x03]] w).
  repeat constructor.
Defined.

(** Three chunks, the second of which is missing: the assembly fails on
    it and the third, which could be deleted, is still there. *)
Lemma failed_assembly_leaves_later_chunks :
  ~ failed_assembly_leaves_no_temp_file.
Proof.
  intros H.
  pose (files := ({[ "out.mp3.chunk_0.mp3" := [Byte.x01];
                     "out.mp3.chunk_2.mp3" := [Byte.x03] ]}
                  : gmap string bytes)).
  pose (w := initial_world files (constant_backend
               {| latency := 1; result_of := Succeeds [] |})).
  destruct (run (combine_chunks "out.mp3" (temp_file_names "out.mp3" 3)) w)
    as [r w'] eqn:Hrun.
  assert (r = inl (FileNotFoundError "out.mp3.chunk_1.mp3")
          /\ fs w' !! "out.mp3.chunk_2.mp3" = Some [Byte.x03]) as [-> Hleft].
  { vm_compute in Hrun. by injection Hrun as <- <-. }
  specialize (H "out.mp3" (temp_file_names "out.mp3" 3) w w' _
                (NoDup_temp_file_names _ _) (output_not_temp_file _ _) Hrun
                "out.mp3.chunk_2.mp3").
  rewrite Hleft in H. discriminate H.
  apply list_elem_of_fmap. exists 2. split; [reflexivity|].
  apply elem_of_seqZ. lia.
Qed.

(** C6, amended. When a temporary file is missing or may not be read,
    the assembly fails on it with the error of that file; the temporary
    files before it have been deleted, that file and the ones after it are
    left as they were, and the output path holds the concatenation of the
    ones before it. *)
Theorem assembly_stops_at_missing_chunk (output_path bad : string)
    (before after : list string) (datas : list bytes) (w : world) (e : exn) :
  NoDup (before ++ bad :: after) ->
  output_path ∉ before ++ bad :: after ->
  Forall2 (holds w) before datas ->
  read_error w bad = Some e ->
  exists w',
    run (combine_chunks output_path (before ++ bad :: after)) w = (inl e, w')
    /\ (forall tf, tf ∈ before -> fs w' !! tf = None)
    /\ (forall tf, tf ∈ bad :: after -> fs w' !! tf = fs w !! tf)
    /\ fs w' !! output_path = Some (concat datas).
Proof.
  intros Hnd Hout Hall Hbad. rewrite run_combine_chunks.
  set (w0 := with_fs _ _).
  apply NoDup_app in Hnd as (Hnd1 & Hdisj & Hnd2).
  apply not_elem_of_app in Hout as [Hout1 Hout2].
  assert (forall p, p <> output_path -> fs w0 !! p = fs w !! p) as Hw0.
  { intros p Hp. subst w0. simpl. by apply lookup_insert_ne. }
  destruct (combine_loop_prefix output_path before (bad :: after) datas w0 [])
    as (w1 & Hrun & Ho & Hgone & Hframe & Hun & _); [done|done| | |].
  { eapply (Forall2_holds_frame _ _ w); [|done|exact Hall]. intros tf Hin.
    apply Hw0. by intros ->. }
  { subst w0. simpl. apply lookup_insert_eq. }
  assert (forall tf, tf ∈ bad :: after -> fs w1 !! tf = fs w !! tf) as Hleft.
  { intros tf Hin. rewrite Hframe, Hw0; [done| | |].
    - intros ->. by apply Hout2.
    - intros ->. by apply Hout2.
    - intros Hin'. by eapply Hdisj. }
  rewrite Hrun, (combine_loop_fails _ _ _ _ e).
  2:{ unfold read_error in *. rewrite Hun, Hleft by apply list_elem_of_here.
      done. }
  eexists. split; [reflexivity|]. simpl. done.
Qed.

Lemma assembly_stops_at_missing_chunk_witness :
  let files : gmap string bytes :=
    {[ "out.mp3.chunk_0.mp3" := [Byte.x01];
       "out.mp3.chunk_2.mp3" := [Byte.x03] ]} in
  let w := initial_world files (constant_backend
             {| latency := 1; result_of := Succeeds [] |}) in
  exists w',
    run (combine_chunks "out.mp3"
           (["out.mp3.chunk_0.mp3"] ++ "out.mp3.chunk_1.mp3"
              :: ["out.mp3.chunk_2.mp3"])) w
    = (inl (FileNotFoundError "out.mp3.chunk_1.mp3"), w')
    /\ (forall tf, tf ∈ ["out.mp3.chunk_0.mp3"] -> fs w' !! tf = None)
    /\ (forall tf, tf ∈ ["out.mp3.chunk_1.mp3"; "out.mp3.chunk_2.mp3"] ->
                   fs w' !! tf = fs w !! tf)
    /\ fs w' !! "out.mp3" = Some [Byte.x01].
Proof.
  intros files w.
  apply (assembly_stops_at_missing_chunk "out.mp3" "out.mp3.chunk_1.mp3"
           ["out.mp3.chunk_0.mp3"] ["out.mp3.chunk_2.mp3"] [[Byte.x01]] w
           (FileNotFoundError "out.mp3.chunk_1.mp3")).
  - apply (NoDup_temp_file_names "out.mp3" 3).
  - apply (output_not_temp_file "out.mp3" 3).
  - repeat constructor.
  - reflexivity.
Defined.

(** The same with a second chunk that is there but may not be read: it
    stays, and so does the third. *)
Example assembly_stops_at_unreadable_chunk :
  let files : gmap string bytes :=
    {[ "out.mp3.chunk_0.mp3" := [Byte.x01];
       "out.mp3.chunk_1.mp3" := [Byte.x02];
       "out.mp3.chunk_2.mp3" := [Byte.x03] ]} in
  let w :=
    {| fs := files;
       unreadable := fun p => bool_decide (p = "out.mp3.chunk_1.mp3");
       backend := constant_backend {| latency := 1; result_of := Succeeds [] |};
       calls := 0; log := [];
       result := {| success := false; error := None |} |} in
  let '(r, w') := run (combine_chunks "out.mp3" (temp_file_names "out.mp3" 3)) w in
  r = inl (PermissionError "out.mp3.chunk_1.mp3")
  /\ fs w' !! "out.mp3" = Some [Byte.x01]
  /\ fs w' !! "out.mp3.chunk_0.mp3" = None
  /\ fs w' !! "out.mp3.chunk_1.mp3" = Some [Byte.x02]
  /\ fs w' !! "out.mp3.chunk_2.mp3" = Some [Byte.x03].
Proof. vm_compute. repeat split; reflexivity. Qed.

(** ** The chunk loop *)

Lemma enumerate_from_app {A : Type} (i : Z) (l1 l2 : list A) :
  enumerate_from i (l1 ++ l2)
  = enumerate_from i l1 ++ enumerate_from (i + Z.of_nat (length l1)) l2.
Proof.
  revert i. induction l1 as [|x l1 IH]; intros i; simpl.
  - by rewrite Z.add_0_r.
  - rewrite IH. do 3 f_equal. lia.
Qed.

(** One round of the chunk loop: the two calls, then the chunk's
    temporary file is noted and, unless the chunk is the last, the thread
    sleeps; a chunk whose calls raise ends the round there. *)
Lemma process_chunk_runs (out language : string) (n i : Z) (chunk : string)
    (tfs : list string) (w : world) :
  run (process_chunk out language n i chunk tfs) w
  = match run (synthesize_and_persist chunk language (temp_file_name out i)) w with
    | (inl e, w') => (inl e, w')
    | (inr _, w') =>
        (inr (tfs ++ [temp_file_name out i]),
         if decide (i < n - 1) then record (EvSleep chunk_delay) w' else w')
    end.
Proof.
  unfold process_chunk. rewrite run_bind.
  destruct (run (synthesize_and_persist _ _ _) w) as [[e|[]] w']; [done|].
  rewrite run_bind. by destruct (decide (i < n - 1)).
Qed.

Lemma synthesize_chunks_cons (out language : string) (n i : Z)
    (chunk : string) (todo : list (Z * string)) (tfs : list string) :
  synthesize_chunks out language n ((i, chunk) :: todo) tfs
  = process_chunk out language n i chunk tfs
      ≫= synthesize_chunks out language n todo.
Proof. reflexivity. Qed.

Lemma synthesize_chunks_app (out language : string) (n : Z)
    (todo1 todo2 : list (Z * string)) (tfs : list string) (w : world) :
  run (synthesize_chunks out language n (todo1 ++ todo2) tfs) w
  = match run (synthesize_chunks out language n todo1 tfs) w with
    | (inl e, w') => (inl e, w')
    | (inr tfs', w') => run (synthesize_chunks out language n todo2 tfs') w'
    end.
Proof.
  revert tfs w. induction todo1 as [|[i chunk] todo1 IH]; intros tfs w;
    [done|].
  rewrite <- app_comm_cons, !synthesize_chunks_cons, !run_bind.
  destruct (run (process_chunk _ _ _ _ _ _) w) as [[e|tfs'] w']; [done|].
  apply IH.
Qed.

(** The chunk loop never touches the [result] dictionary or the backend. *)
Lemma synthesize_chunks_keeps (out language : string) (n : Z)
    (todo : list (Z * string)) (tfs : list string) (w : world) :
  result (run (synthesize_chunks out language n todo tfs) w).2 = result w
  /\ backend (run (synthesize_chunks out language n todo tfs) w).2 = backend w.
Proof.
  revert tfs w. induction todo as [|[i chunk] todo IH]; intros tfs w;
    [done|].
  rewrite synthesize_chunks_cons, run_bind, process_chunk_runs.
  destruct (synthesize_and_persist_runs chunk language (temp_file_name out i) w)
    as (k1 & k2 & r & w' & -> & _ & _ & _ & Hb & Hr & _ & _).
  destruct r as [e|[]]; [done|].
  destruct (IH (tfs ++ [temp_file_name out i])
               (if decide (i < n - 1) then record (EvSleep chunk_delay) w' else w'))
    as [-> ->].
  by destruct (decide (i < n - 1)).
Qed.

(** When the chunk loop ends normally it has noted the temporary files of
    its chunks, in order. *)
Lemma synthesize_chunks_temp_files (out language : string) (n i : Z)
    (l : list string) (tfs tfs' : list string) (w w' : world) :
  run (synthesize_chunks out language n (enumerate_from i l) tfs) w
  = (inr tfs', w') ->
  tfs' = tfs ++ (temp_file_name out <$> seqZ i (Z.of_nat (length l))).
Proof.
  revert i tfs tfs' w. induction l as [|chunk l IH]; intros i tfs tfs' w.
  - simpl. intros [= <- _]. by rewrite app_nil_r.
  - cbn [enumerate_from].
    rewrite synthesize_chunks_cons, run_bind, process_chunk_runs.
    destruct (run (synthesize_and_persist _ _ _) w) as [[e|[]] w1]; [done|].
    intros H. apply IH in H as ->.
    rewrite (seqZ_cons i) by (simpl; lia).
    rewrite fmap_cons, <- app_assoc. simpl.
    replace (Z.pred (Z.of_nat (S (length l)))) with (Z.of_nat (length l)) by lia.
    by replace (Z.succ i) with (i + 1) by lia.
Qed.

(** C5. When a chunk exhausts its retry attempts (the two retry-wrapped
    calls made for it raise [e], which by [synthesize_and_persist_runs]
    happens only after three failed attempts of one wrapper), be it a chunk
    of a long text reached after the chunks before it were synthesized, or
    a short text as its own single chunk, the background unit ends right
    there: its final world is the world at the raise with [str e] recorded
    as the error (same log, same number of backend calls, same files), so
    no later chunk is synthesized and nothing is assembled.  A supervisor that sees the unit completed by the deadline
    raises the conversion error carrying that recorded detail. *)
Theorem exhausted_chunk_aborts_conversion (text output_path language : string)
    (timeout : Z) (w wi w' : world) (e : exn) :
  let p := convert text output_path language in
  let w0 := with_result {| success := false; error := None |} w in
  let failed := with_result {| success := false; error := Some (str e) |} w' in
  ((* a long text, one of whose chunks exhausts its attempts *)
   (exists (before after : list string) (chunk : string) (tfs : list string),
      Str.len text > max_chunk_size
      /\ chunks text = before ++ chunk :: after
      /\ run (synthesize_chunks output_path language
                (Z.of_nat (length (chunks text))) (enumerate before) []) w0
         = (inr tfs, wi)
      /\ run (synthesize_and_persist chunk language
                (temp_file_name output_path (Z.of_nat (length before)))) wi
         = (inl e, w'))
   \/ (* a short text, which is its own single chunk *)
   (Str.len text <= max_chunk_size
    /\ run (synthesize_and_persist text language output_path) w0 = (inl e, w'))) ->
  run p w0 = (inr tt, failed)
  /\ log failed = log w' /\ calls failed = calls w' /\ fs failed = fs w'
  /\ (elapsed p w0 <= Z.max 0 timeout ->
      text_to_mp3_optimized text output_path language timeout w
      = (inl (ConversionError (Some (str e))), Finished, failed)).
Proof.
  intros p w0 failed Hcase.
  assert (run p w0 = (inr tt, failed)) as Hrun.
  { subst p failed. unfold convert, convert_body.
    rewrite run_try_except, run_bind.
    destruct Hcase as [(before & after & chunk & tfs & Hlong & Hch & Hbefore & Hfail)
                      |(Hshort & Hfail)].
    - rewrite decide_True by done. rewrite run_bind. cbv zeta.
      unfold enumerate in *. rewrite Hch at 2.
      rewrite enumerate_from_app, synthesize_chunks_app, Hbefore.
      cbn [enumerate_from]. rewrite synthesize_chunks_cons.
      rewrite run_bind, process_chunk_runs. rewrite Z.add_0_l, Hfail.
      simpl. do 2 f_equal.
      pose proof (synthesize_chunks_keeps output_path language
        (Z.of_nat (length (chunks text))) (enumerate_from 0 before) [] w0) as [Hr _].
      rewrite Hbefore in Hr. simpl in Hr.
      destruct (synthesize_and_persist_runs chunk language
        (temp_file_name output_path (Z.of_nat (length before))) wi)
        as (k1 & k2 & r & w2 & Hrun2 & _ & _ & _ & _ & Hr2 & _).
      rewrite Hfail in Hrun2. injection Hrun2 as <- <-.
      unfold with_result. by rewrite Hr2, Hr.
    - rewrite decide_False by lia. rewrite Hfail. simpl. do 2 f_equal.
      destruct (synthesize_and_persist_runs text language output_path w0)
        as (k1 & k2 & r & w2 & Hrun2 & _ & _ & _ & _ & Hr2 & _).
      rewrite Hfail in Hrun2. injection Hrun2 as <- <-.
      unfold with_result. by rewrite Hr2. }
  split; [done|]. do 3 (split; [reflexivity|]). intros Hin.
  unfold text_to_mp3_optimized, join. fold w0. fold p.
  rewrite (join_for_finished p _ w0) by done. by rewrite Hrun.
Qed.

Lemma exhausted_chunk_aborts_conversion_witness :
  let w := initial_world ∅ (constant_backend
             {| latency := 1; result_of := Fails (BackendError "503") None |}) in
  exists w',
    run (convert "hello" "out.mp3" "en") w
    = (inr tt, with_result {| success := false; error := Some "503" |} w')
    /\ text_to_mp3_optimized "hello" "out.mp3" "en" 900 w
       = (inl (ConversionError (Some "503")), Finished,
          with_result {| success := false; error := Some "503" |} w').
Proof.
  intros w.
  destruct (run (synthesize_and_persist "hello" "en" "out.mp3") w)
    as [r w'] eqn:Hrun.
  assert (r = inl (BackendError "503")) as ->.
  { vm_compute in Hrun. by injection Hrun as <- _. }
  exists w'.
  destruct (exhausted_chunk_aborts_conversion "hello" "out.mp3" "en" 900
              w w w' (BackendError "503")) as (H1 & _ & _ & _ & H2).
  { right. split; [vm_compute; discriminate|exact Hrun]. }
  split; [exact H1|]. apply H2. vm_compute. discriminate.
Defined.

(** A text of three chunks whose second chunk cannot be synthesized: the
    first chunk is synthesized and persisted, the second is attempted three
    times, the third is never attempted, and the supervisor reports the
    backend's detail. *)
Example second_chunk_exhausted :
  let b := fun n : nat =>
    if decide (n < 2)%nat
    then {| latency := 1; result_of := Succeeds [Byte.x01] |}
    else {| latency := 1; result_of := Fails (BackendError "503") None |} in
  let text := repeat_char "a" 2500 in
  let chunk := repeat_char "a" 1000 in
  let '(r, thread, w') :=
    text_to_mp3_optimized text "out.mp3" "en" 900 (initial_world ∅ b) in
  r = inl (ConversionError (Some "503"))
  /\ thread = Finished
  /\ log w' = [EvGTTS chunk "en";
               EvSave (Some (the_tts chunk "en")) "out.mp3.chunk_0.mp3";
               EvSleep 2;
               EvGTTS chunk "en"; EvSleep 2;
               EvGTTS chunk "en"; EvSleep 4;
               EvGTTS chunk "en"]
  /\ fs w' !! "out.mp3" = None
  /\ fs w' !! "out.mp3.chunk_0.mp3" = Some [Byte.x01].
Proof. vm_compute. auto. Qed.

(** ** A conversion that succeeds *)

(** With a backend that succeeds, the two calls take one attempt each. *)
Lemma synthesize_and_persist_succeeds (text language path : string)
    (w : world) (audio : nat -> bytes) :
  all_succeed w audio ->
  exists w',
    run (synthesize_and_persist text language path) w = (inr tt, w')
    /\ fs w' = <[path := audio (S (calls w))]> (fs w)
    /\ calls w' = S (S (calls w))
    /\ backend w' = backend w
    /\ result w' = result w
    /\ unreadable w' = unreadable w
    /\ log w' = log w ++ [EvGTTS text language;
                          EvSave (Some (the_tts text language)) path].
Proof.
  intros Hok. unfold synthesize_and_persist, create_tts_with_retry,
    save_tts_with_retry, default_max_retries.
  rewrite range_3. simpl. rewrite !Hok. simpl. rewrite Hok.
  eexists. split; [reflexivity|]. simpl. by rewrite <- app_assoc.
Qed.

Lemma synthesize_chunks_succeed (out language : string) (n : Z)
    (audio : nat -> bytes) (l : list string) (i : Z) (tfs : list string)
    (w : world) :
  all_succeed w audio ->
  exists w',
    run (synthesize_chunks out language n (enumerate_from i l) tfs) w
    = (inr (tfs ++ (temp_file_name out <$> seqZ i (Z.of_nat (length l)))), w')
    /\ calls w' = (calls w + 2 * length l)%nat
    /\ backend w' = backend w
    /\ result w' = result w
    /\ unreadable w' = unreadable w
    /\ (forall j : nat, (j < length l)%nat ->
          fs w' !! temp_file_name out (i + Z.of_nat j)
          = Some (audio (calls w + 2 * j + 1)%nat))
    /\ (forall p, (forall j : nat, (j < length l)%nat ->
                     p <> temp_file_name out (i + Z.of_nat j)) ->
                  fs w' !! p = fs w !! p).
Proof.
  revert i tfs w. induction l as [|chunk l IH]; intros i tfs w Hok.
  - exists w. simpl. rewrite app_nil_r. repeat split; try done; try lia.
  - cbn [enumerate_from].
    rewrite synthesize_chunks_cons, run_bind, process_chunk_runs.
    destruct (synthesize_and_persist_succeeds chunk language
                (temp_file_name out i) w audio Hok)
      as (w1 & -> & Hfs1 & Hc1 & Hb1 & Hr1 & Hu1 & _).
    set (w2 := if decide (i < n - 1) then record (EvSleep chunk_delay) w1 else w1).
    assert (fs w2 = fs w1 /\ calls w2 = calls w1 /\ backend w2 = backend w1
            /\ result w2 = result w1 /\ unreadable w2 = unreadable w1)
      as (Hfs2 & Hc2 & Hb2 & Hr2 & Hu2).
    { subst w2. by destruct (decide (i < n - 1)). }
    destruct (IH (i + 1) (tfs ++ [temp_file_name out i]) w2)
      as (w' & -> & Hc & Hb & Hr & Hu & Hfiles & Hframe).
    { intros k. unfold all_succeed in Hok. by rewrite Hb2, Hb1. }
    exists w'. split.
    { f_equal. rewrite <- app_assoc. f_equal. simpl.
      rewrite (seqZ_cons i) by lia. rewrite fmap_cons.
      replace (Z.pred (Z.of_nat (S (length l)))) with (Z.of_nat (length l)) by lia.
      by replace (Z.succ i) with (i + 1) by lia. }
    split; [simpl; lia|]. split; [congruence|]. split; [congruence|].
    split; [congruence|]. split.
    + intros [|j] Hj.
      * rewrite Hframe.
        { rewrite Hfs2, Hfs1, Z.add_0_r, lookup_insert_eq.
          do 2 f_equal. lia. }
        intros j' _ Heq. apply temp_file_name_inj in Heq. lia.
      * simpl in Hj. specialize (Hfiles j ltac:(lia)).
        replace (i + Z.of_nat (S j)) with (i + 1 + Z.of_nat j) by lia.
        rewrite Hfiles. do 2 f_equal. lia.
    + intros p Hp. rewrite Hframe.
      2:{ intros j Hj. specialize (Hp (S j)). simpl in Hp.
          replace (i + 1 + Z.of_nat j) with (i + Z.of_nat (S j)) by lia.
          apply Hp. lia. }
      rewrite Hfs2, Hfs1. apply lookup_insert_ne.
      specialize (Hp 0%nat). rewrite Z.add_0_r in Hp.
      intros <-. apply Hp; [simpl; lia|done].
Qed.

(** End to end: when every backend call succeeds and the temporary files
    may be read, the conversion of a long text makes two calls per chunk
    and ends in success; the output
    holds the audio of the chunks' persist calls in chunk order, no
    temporary file is left, and no other path has changed. *)
Theorem long_conversion_succeeds (text output_path language : string)
    (w : world) (audio : nat -> bytes) :
  let n := length (chunks text) in
  let audios := (fun j => audio (calls w + 2 * j + 1)%nat) <$> seq 0 n in
  Str.len text > max_chunk_size ->
  all_succeed w audio ->
  (forall tf, tf ∈ temp_file_names output_path (Z.of_nat n) ->
              unreadable w tf = false) ->
  exists w',
    run (convert text output_path language) w = (inr tt, w')
    /\ success (result w') = true
    /\ fs w' !! output_path = Some (concat audios)
    /\ (forall tf, tf ∈ temp_file_names output_path (Z.of_nat n) ->
                   fs w' !! tf = None)
    /\ (forall p, p <> output_path ->
                  p ∉ temp_file_names output_path (Z.of_nat n) ->
                  fs w' !! p = fs w !! p)
    /\ calls w' = (calls w + 2 * n)%nat.
Proof.
  intros n audios Hlong Hok Hreadable. unfold convert, convert_body.
  rewrite decide_True by done. cbv zeta.
  rewrite run_try_except, run_bind, run_bind. unfold enumerate.
  destruct (synthesize_chunks_succeed output_path language
              (Z.of_nat (length (chunks text))) audio (chunks text) 0 [] w Hok)
    as (w1 & -> & Hc1 & Hb1 & Hr1 & Hu1 & Hfiles & Hframe1).
  rewrite app_nil_l. fold n. fold (temp_file_names output_path (Z.of_nat n)).
  rewrite run_combine_chunks.
  set (w2 := with_fs _ _).
  assert (forall p, p <> output_path -> fs w2 !! p = fs w1 !! p) as Hw2.
  { intros p Hp. subst w2. simpl. by apply lookup_insert_ne. }
  destruct (combine_loop_prefix output_path
              (temp_file_names output_path (Z.of_nat n)) [] audios w2 [])
    as (w3 & Hrun & Ho & Hgone & Hframe3 & _ & Hc3 & Hr3).
  - apply NoDup_temp_file_names.
  - apply output_not_temp_file.
  - apply Forall2_same_length_lookup_2.
    { unfold temp_file_names, audios.
      rewrite !length_fmap, length_seqZ, length_seq. lia. }
    intros j tf d Htf Hd.
    assert (unreadable w2 tf = false) as Hr2.
    { subst w2. simpl. rewrite Hu1. apply Hreadable.
      by eapply list_elem_of_lookup_2. }
    unfold temp_file_names, audios in *.
    rewrite list_lookup_fmap in Htf. rewrite list_lookup_fmap in Hd.
    apply fmap_Some in Htf as (i & [-> Hi]%lookup_seqZ & ->).
    apply fmap_Some in Hd as (k & [-> Hk]%lookup_seq & ->).
    split; [|done].
    rewrite Hw2 by apply temp_file_name_ne_output.
    rewrite Hfiles by (fold n; lia). done.
  - subst w2. simpl. apply lookup_insert_eq.
  - rewrite app_nil_r in Hrun. rewrite Hrun. simpl.
    eexists. split; [reflexivity|]. simpl.
    split; [done|]. split; [done|]. split; [done|]. split.
    + intros p Hp Hnin. rewrite Hframe3, Hw2, Hframe1; try done.
      intros j Hj ->. apply Hnin. apply list_elem_of_fmap.
      exists (Z.of_nat j). split; [done|]. apply elem_of_seqZ. fold n in Hj. lia.
    + rewrite Hc3. subst w2. simpl. by fold n in Hc1.
Qed.

(** ** The upload handler: early answers *)

Lemma upload_not_allowed (env : Env) (req : request) (file : upload) (w : world) :
  files_file req = Some file ->
  filename file <> "" ->
  allowed_file (filename file) = false ->
  upload_file env req w
  = ({| json := ErrorBody "Only PDF files are allowed"; status := 400 |},
     Finished, w).
Proof.
  intros Hfile Hname Hallowed. unfold upload_file, upload_prepare.
  rewrite Hfile, decide_False by done. by rewrite Hallowed.
Qed.

Lemma oversized_text_file_size : file_size oversized_text_file > max_size.
Proof.
  unfold file_size, oversized_text_file. cbn [stream].
  rewrite length_replicate, Z2Nat.id by done. reflexivity.
Qed.

(** The oversized file named [notes.txt] is refused for its name, not for
    its size. *)
Lemma oversized_text_file_is_refused_by_name :
  ~ oversized_upload_gets_size_error.
Proof.
  intros H.
  specialize (H test_env (request_of oversized_text_file) oversized_text_file
                (initial_world ∅ (constant_backend
                   {| latency := 1; result_of := Succeeds [] |}))
                eq_refl oversized_text_file_size).
  rewrite (upload_not_allowed _ _ oversized_text_file) in H;
    [discriminate H|reflexivity|discriminate|reflexivity].
Qed.

(** C10, amended. An uploaded file that has a name with the pdf
    extension and more than 10 * 1024 * 1024 bytes gets the answer 400
    'File size must be less than 10MB', and the world is left exactly as it
    was: nothing is saved, extracted or converted. *)
Theorem oversized_pdf_is_rejected (env : Env) (req : request) (file : upload)
    (w : world) :
  files_file req = Some file ->
  filename file <> "" ->
  allowed_file (filename file) = true ->
  file_size file > 10 * 1024 * 1024 ->
  upload_file env req w = (too_large, Finished, w).
Proof.
  intros Hfile Hname Hallowed Hsize. unfold upload_file, upload_prepare.
  rewrite Hfile, decide_False by done. rewrite Hallowed. simpl negb. cbv iota.
  by rewrite decide_True by done.
Qed.

Lemma oversized_pdf_is_rejected_witness :
  let w := initial_world ∅ (constant_backend
             {| latency := 1; result_of := Succeeds [] |}) in
  upload_file test_env (request_of oversized_pdf) w = (too_large, Finished, w).
Proof.
  intros w. apply (oversized_pdf_is_rejected test_env _ oversized_pdf w).
  - reflexivity.
  - discriminate.
  - reflexivity.
  - unfold file_size, oversized_pdf. cbn [stream].
    rewrite length_replicate, Z2Nat.id by done. reflexivity.
Defined.

(** ** The upload handler: the text that is converted *)

Lemma cap_text_long (text : string) :
  Str.len text > 30000 ->
  cap_text text
  = Str.prefix text 30000 +:+ "... (text truncated due to length limit)".
Proof. intros H. unfold cap_text. by rewrite decide_True. Qed.

Lemma cap_text_short (text : string) :
  Str.len text <= 30000 -> cap_text text = text.
Proof.
  intros H. unfold cap_text. rewrite decide_False; [done|].
  unfold max_text_length. lia.
Qed.

Lemma len_cap_text_long (text : string) :
  Str.len text > 30000 -> Str.len (cap_text text) = 30040.
Proof.
  intros H. rewrite cap_text_long by done.
  rewrite StrFacts.len_app. unfold Str.prefix.
  rewrite StrFacts.len_slice by lia.
  change (Str.len "... (text truncated due to length limit)") with 40. lia.
Qed.

(** The uploaded file as [file.save] leaves it. *)
Lemma saved_upload (path : string) (data : bytes) (w : world) :
  fs (exec (Write path data) (exec (OpenWb path) w).2).2
  = <[path := data]> (fs w).
Proof.
  simpl. rewrite lookup_insert_eq. simpl. apply insert_insert_eq.
Qed.

(** What a request has passed when the handler reaches the conversion. *)
Lemma upload_prepare_ready (env : Env) (req : request) (w w1 : world)
    (text pdf_path mp3_filename mp3_path language : string) :
  upload_prepare env req w
  = (Ready text pdf_path mp3_filename mp3_path language, w1) ->
  exists (file : upload) (pages : list (exn + string)) (raw : string),
    files_file req = Some file
    /\ filename file <> ""
    /\ allowed_file (filename file) = true
    /\ file_size file <= max_size
    /\ fitz_open env (stream file) = inr pages
    /\ get_texts pages "" = inr raw
    /\ is_blank raw = false
    /\ text = cap_text raw
    /\ pdf_path = pdf_path_of env file
    /\ mp3_filename = mp3_filename_of env file
    /\ mp3_path = mp3_path_of env file
    /\ language = choose_language req
    /\ fs w1 = <[pdf_path := stream file]> (fs w).
Proof.
  unfold upload_prepare. destruct (files_file req) as [file|]; [|done].
  destruct (decide (filename file = "")) as [|Hname]; [done|].
  destruct (allowed_file (filename file)) eqn:Hallowed; [|done]. simpl negb.
  cbv iota.
  destruct (decide (file_size file > max_size)) as [|Hsize]; [done|].
  cbv zeta.
  set (pdf := pdf_path_of env file).
  pose proof (saved_upload pdf (stream file) w) as Hsaved.
  set (ws := (exec (Write pdf (stream file)) (exec (OpenWb pdf) w).2).2) in *.
  assert (open_document env pdf ws
          = if unreadable ws pdf
            then inl (fitz_open_error env (PermissionError pdf))
            else fitz_open env (stream file)) as Hopen.
  { unfold open_document. rewrite Hsaved. by rewrite lookup_insert_eq. }
  unfold validate_pdf. rewrite Hopen.
  destruct (unreadable ws pdf).
  { by destruct (exec (Remove pdf) ws) as [[?|?] ?]. }
  destruct (fitz_open env (stream file)) as [e|pages] eqn:Hfitz.
  { by destruct (exec (Remove pdf) ws) as [[?|?] ?]. }
  destruct (decide (Z.of_nat (length pages) = 0)).
  { destruct (exec (Remove pdf) ws) as [[?|?] w']; [|done].
    by destruct (exec (Remove pdf) w') as [[?|?] ?]. }
  unfold pdf_to_text. rewrite Hopen.
  destruct (get_texts pages "") as [e|raw] eqn:Htexts; [done|].
  destruct (is_blank raw) eqn:Hblank.
  { by destruct (exec (Remove pdf) ws) as [[?|?] ?]. }
  intros [= <- <- <- <- <- <-].
  exists file, pages, raw. repeat split; try done; lia.
Qed.

(** An early [return] of the handler is a 400. *)
Lemma upload_prepare_respond (env : Env) (req : request) (w w1 : world)
    (r : response) :
  upload_prepare env req w = (Respond r, w1) -> status r = 400.
Proof.
  unfold upload_prepare. destruct (files_file req) as [file|];
    [|by intros [= <- _]].
  destruct (decide (filename file = "")); [by intros [= <- _]|].
  destruct (negb (allowed_file (filename file))); [by intros [= <- _]|].
  destruct (decide (file_size file > max_size)); [by intros [= <- _]|].
  cbv zeta.
  set (pdf := pdf_path_of env file).
  set (ws := (exec (Write pdf (stream file)) (exec (OpenWb pdf) w).2).2).
  unfold validate_pdf, pdf_to_text.
  destruct (open_document env pdf ws) as [e|pages] eqn:Hopen.
  { destruct (exec (Remove pdf) ws) as [[?|?] ?]; by intros [= <- _]. }
  destruct (decide (Z.of_nat (length pages) = 0)).
  { destruct (exec (Remove pdf) ws) as [[?|?] w']; [|by intros [= <- _]].
    destruct (exec (Remove pdf) w') as [[?|?] ?]; by intros [= <- _]. }
  rewrite Hopen.
  destruct (get_texts pages "") as [e|raw]; [done|].
  destruct (is_blank raw); [|done].
  destruct (exec (Remove pdf) ws) as [[?|?] ?]; by intros [= <- _].
Qed.

(** C9. An extracted text of more than 30000 characters is converted
    as its first 30000 characters followed by the truncation marker, a
    shorter one as it is; and whenever the handler answers with success,
    the conversion ran on the capped text of the uploaded file and the
    [text_length] of the answer is the length of that capped text. *)
Theorem converted_text_is_capped :
  (forall text, Str.len text > 30000 ->
     cap_text text
     = Str.prefix text 30000 +:+ "... (text truncated due to length limit)")
  /\ (forall text, Str.len text <= 30000 -> cap_text text = text)
  /\ (forall (env : Env) (req : request) (w w' : world) (thread : thread_state)
             (mp3_filename : string) (text_length : Z),
        upload_file env req w
        = ({| json := SuccessBody mp3_filename text_length; status := 200 |},
           thread, w') ->
        exists (file : upload) (pages : list (exn + string)) (raw : string)
               (w1 w2 : world),
          files_file req = Some file
          /\ fitz_open env (stream file) = inr pages
          /\ get_texts pages "" = inr raw
          /\ upload_prepare env req w
             = (Ready (cap_text raw) (pdf_path_of env file) mp3_filename
                      (mp3_path_of env file) (choose_language req), w1)
          /\ text_to_mp3_optimized (cap_text raw) (mp3_path_of env file)
               (choose_language req) conversion_timeout w1
             = (inr tt, thread, w2)
          /\ text_length = Str.len (cap_text raw)).
Proof.
  split; [exact cap_text_long|]. split; [exact cap_text_short|].
  intros env req w w' thread mp3_filename text_length. unfold upload_file.
  destruct (upload_prepare env req w) as [[r|e pdf|text pdf name mp3 lang] w1]
    eqn:Hprep.
  - intros [= -> <- <-]. by apply upload_prepare_respond in Hprep.
  - unfold on_exception. intros [=].
  - destruct (upload_prepare_ready _ _ _ _ _ _ _ _ _ Hprep)
      as (file & pages & raw & Hf & _ & _ & _ & Hfitz & Htexts & _ & -> & ->
          & -> & -> & -> & _).
    destruct (text_to_mp3_optimized _ _ _ _ w1) as [[[e|[]] th] w2] eqn:Hconv.
    { unfold on_exception. intros [=]. }
    destruct (exec (Remove _) w2) as [[e|[]] w3].
    { unfold on_exception. intros [=]. }
    intros [= <- <- <- <-].
    exists file, pages, raw, w1, w2. done.
Qed.

Lemma converted_text_is_capped_witness :
  let raw := repeat_char "a" (Z.to_nat 30001) in
  let w := initial_world ∅ (constant_backend
             {| latency := 1; result_of := Succeeds [Byte.x01] |}) in
  cap_text raw
  = Str.prefix raw 30000 +:+ "... (text truncated due to length limit)"
  /\ cap_text "hello world" = "hello world"
  /\ exists thread w',
       upload_file test_env (request_of (upload_of "talk.pdf" "hello world")) w
       = ({| json := SuccessBody "0f8fad5b_talk.mp3" 11; status := 200 |},
          thread, w')
       /\ 11 = Str.len (cap_text "hello world").
Proof.
  intros raw w.
  destruct converted_text_is_capped as (Hlong & Hshort & Hmeta).
  split; [apply Hlong; vm_compute; reflexivity|].
  split; [apply Hshort; vm_compute; discriminate|].
  destruct (upload_file test_env
              (request_of (upload_of "talk.pdf" "hello world")) w)
    as [[r thread] w'] eqn:Hup.
  assert (r = {| json := SuccessBody "0f8fad5b_talk.mp3" 11; status := 200 |})
    as ->.
  { vm_compute in Hup. by injection Hup as <- _ _. }
  exists thread, w'. split; [reflexivity|].
  destruct (Hmeta _ _ _ _ _ _ _ Hup)
    as (file & pages & raw' & w1 & w2 & Hfile & Hfitz & Htexts & _ & _ & Hlen).
  injection Hfile as <-.
  assert (raw' = "hello world") as ->; [|exact Hlen].
  vm_compute in Hfitz. injection Hfitz as <-.
  vm_compute in Htexts. by injection Htexts as <-.
Defined.

(** A text of 30001 characters goes through the whole handler: it is
    converted in 31 chunks and the answer reports 30040 characters. *)
Example long_upload_is_capped :
  let raw := repeat_char "a" (Z.to_nat 30001) in
  let w := initial_world ∅ (constant_backend
             {| latency := 1; result_of := Succeeds [Byte.x01] |}) in
  let '(r, thread, w') :=
    upload_file test_env (request_of (upload_of "book.pdf" raw)) w in
  r = {| json := SuccessBody "0f8fad5b_book.mp3" 30040; status := 200 |}
  /\ calls w' = 62%nat.
Proof. vm_compute. auto. Qed.

(** ** The upload handler: failures *)

(** [os.remove] of a path that is there succeeds and removes only it. *)
Lemma remove_existing (path : string) (w : world) :
  is_Some (fs w !! path) ->
  exists w', exec (Remove path) w = (inr tt, w')
             /\ fs w' = delete path (fs w).
Proof. intros [d Hd]. simpl. rewrite Hd. eauto. Qed.

(** After the cleanup of the [except] branch the destination is gone. *)
Lemma cleanup_removes_destination (pdf_path mp3_path : string) (w : world) :
  fs (cleanup pdf_path (Some mp3_path) w) !! mp3_path = None.
Proof.
  unfold cleanup, path_exists.
  destruct (bool_decide (is_Some (fs w !! pdf_path))) eqn:Hpdf.
  - apply bool_decide_eq_true in Hpdf.
    destruct (remove_existing pdf_path w Hpdf) as (w1 & -> & Hfs1).
    destruct (bool_decide (is_Some (fs w1 !! mp3_path))) eqn:Hmp3.
    + apply bool_decide_eq_true in Hmp3.
      destruct (remove_existing mp3_path w1 Hmp3) as (w2 & -> & Hfs2).
      simpl. rewrite Hfs2. apply lookup_delete_eq.
    + apply bool_decide_eq_false in Hmp3.
      by apply eq_None_not_Some.
  - destruct (bool_decide (is_Some (fs w !! mp3_path))) eqn:Hmp3.
    + apply bool_decide_eq_true in Hmp3.
      destruct (remove_existing mp3_path w Hmp3) as (w2 & -> & Hfs2).
      simpl. rewrite Hfs2. apply lookup_delete_eq.
    + apply bool_decide_eq_false in Hmp3.
      by apply eq_None_not_Some.
Qed.

(** How the unit stands when the supervisor raises: it has finished,
    unless what is raised is the timeout error. *)
Lemma raised_while_alive (text output_path language : string) (timeout : Z)
    (w w' : world) (e : exn) (thread : thread_state) :
  text_to_mp3_optimized text output_path language timeout w
  = (inl e, thread, w') ->
  thread = Finished \/ e = TimeoutError timeout.
Proof.
  unfold text_to_mp3_optimized.
  destruct (join timeout _ _) as [[|rest] w1]; simpl.
  - destruct (negb _); intros [= _ <- _]; by left.
  - intros [= <- _ _]. by right.
Qed.


(** C8, amended. Whenever a request reaches the conversion and the
    conversion fails, with the timeout error or with the conversion error,
    the handler answers 500 and there is no file at the destination path
    when it returns: whatever the failed conversion left there has been
    removed.  Unless the failure is the timeout, the background unit has
    finished, so this is also how things stay. *)
Theorem failed_conversion_leaves_no_output (env : Env) (req : request)
    (w w1 w2 : world) (text pdf_path mp3_filename mp3_path language : string)
    (e : exn) (thread : thread_state) :
  upload_prepare env req w
  = (Ready text pdf_path mp3_filename mp3_path language, w1) ->
  text_to_mp3_optimized text mp3_path language conversion_timeout w1
  = (inl e, thread, w2) ->
  exists w3,
    upload_file env req w
    = ({| json := ErrorBody ("An error occurred during conversion: " +:+ str e);
          status := 500 |}, thread, w3)
    /\ fs w3 !! mp3_path = None
    /\ (e <> TimeoutError conversion_timeout ->
        thread = Finished /\ fs (settled thread w3) !! mp3_path = None).
Proof.
  intros Hprep Hconv. unfold upload_file. rewrite Hprep, Hconv.
  unfold on_exception. eexists. split; [reflexivity|].
  pose proof (cleanup_removes_destination pdf_path mp3_path w2) as Hgone.
  split; [done|]. intros Hne.
  destruct (raised_while_alive _ _ _ _ _ _ _ _ Hconv) as [->|]; done.
Qed.

Lemma failed_conversion_leaves_no_output_witness :
  let w := initial_world ∅ (constant_backend
             {| latency := 1; result_of := Fails (BackendError "503") (Some []) |}) in
  let file := upload_of "talk.pdf" "hello world" in
  exists w3,
    upload_file test_env (request_of file) w
    = ({| json := ErrorBody ("An error occurred during conversion: "
                             +:+ str (ConversionError (Some "503")));
          status := 500 |}, Finished, w3)
    /\ fs w3 !! mp3_path_of test_env file = None.
Proof.
  intros w file.
  destruct (upload_prepare test_env (request_of file) w) as [prep w1] eqn:Hprep.
  assert (prep = Ready "hello world" (pdf_path_of test_env file)
                       (mp3_filename_of test_env file)
                       (mp3_path_of test_env file) "en") as ->.
  { vm_compute in Hprep. injection Hprep as <- _. reflexivity. }
  destruct (text_to_mp3_optimized "hello world" (mp3_path_of test_env file)
              "en" conversion_timeout w1) as [[r th] w2] eqn:Hconv.
  assert (r = inl (ConversionError (Some "503")) /\ th = Finished) as [-> ->].
  { vm_compute in Hprep. injection Hprep as <-.
    vm_compute in Hconv. by injection Hconv as <- <- _. }
  destruct (failed_conversion_leaves_no_output test_env (request_of file)
              w w1 w2 _ _ _ _ _ _ _ Hprep Hconv) as (w3 & Hup & Hgone & _).
  exists w3. split; [exact Hup|exact Hgone].
Defined.

(** A short text whose first persist call fails just before the deadline:
    the handler answers with the timeout, having removed what that call
    left at the destination; the abandoned unit then makes its second and
    third persist attempts, which fail and leave their bytes there. *)
Lemma abandoned_unit_leaves_partial_output :
  ~ failure_leaves_no_partial_output.
Proof.
  intros H.
  pose (file := upload_of "talk.pdf" "hello world").
  pose (w := initial_world ∅ stalling_backend).
  destruct (upload_file test_env (request_of file) w) as [[r thread] w'] eqn:Hup.
  specialize (H test_env (request_of file) file w w' r thread eq_refl eq_refl Hup).
  vm_compute in Hup. injection Hup as <- <- <-.
  destruct H as [H|H]; [discriminate| |]; vm_compute in H; discriminate H.
Qed.


(** Uploads and outputs live in different folders. *)
Lemma pdf_path_ne_mp3_path (env : Env) (file : upload) :
  pdf_path_of env file <> mp3_path_of env file.
Proof.
  unfold pdf_path_of, mp3_path_of, path_join, UPLOAD_FOLDER, OUTPUT_FOLDER.
  rewrite !StrFacts.app_assoc. intros H.
  apply (inj (String.append (root_path env))) in H.
  discriminate H.
Qed.

Lemma remove_frame (path p : string) (w : world) :
  p <> path -> fs (exec (Remove path) w).2 !! p = fs w !! p.
Proof.
  intros Hp. simpl. destruct (fs w !! path); simpl; [|done].
  by apply lookup_delete_ne.
Qed.

(** Before the conversion the handler touches the uploaded file only. *)
Lemma upload_prepare_frame (env : Env) (req : request) (w w1 : world)
    (out : prepared) (p : string) :
  upload_prepare env req w = (out, w1) ->
  (forall file, files_file req = Some file -> p <> pdf_path_of env file) ->
  fs w1 !! p = fs w !! p.
Proof.
  unfold upload_prepare. destruct (files_file req) as [file|];
    [|by intros [= _ <-]].
  intros H Hp. specialize (Hp file eq_refl). revert H.
  destruct (decide (filename file = "")); [by intros [= _ <-]|].
  destruct (negb (allowed_file (filename file))); [by intros [= _ <-]|].
  destruct (decide (file_size file > max_size)); [by intros [= _ <-]|].
  cbv zeta.
  set (pdf := pdf_path_of env file) in *.
  pose proof (saved_upload pdf (stream file) w) as Hsaved.
  set (ws := (exec (Write pdf (stream file)) (exec (OpenWb pdf) w).2).2) in *.
  assert (fs ws !! p = fs w !! p) as Hws.
  { rewrite Hsaved. by apply lookup_insert_ne. }
  pose proof (remove_frame pdf p ws Hp) as Hrm.
  unfold validate_pdf, pdf_to_text.
  destruct (open_document env pdf ws) as [e|pages] eqn:Hopen.
  { destruct (exec (Remove pdf) ws) as [[?|?] ?]; intros [= _ <-];
      simpl in Hrm; congruence. }
  destruct (decide (Z.of_nat (length pages) = 0)).
  { destruct (exec (Remove pdf) ws) as [[?|?] w'] eqn:Hrm1;
      [|intros [= _ <-]; simpl in Hrm; congruence].
    pose proof (remove_frame pdf p w' Hp) as Hrm'.
    destruct (exec (Remove pdf) w') as [[?|?] ?]; intros [= _ <-];
      simpl in *; congruence. }
  rewrite Hopen.
  destruct (get_texts pages "") as [e|raw]; [by intros [= _ <-]|].
  destruct (is_blank raw); [|by intros [= _ <-]].
  destruct (exec (Remove pdf) ws) as [[?|?] ?]; intros [= _ <-];
    simpl in Hrm; congruence.
Qed.

Lemma upload_prepare_raised (env : Env) (req : request) (w w1 : world)
    (e : exn) (pdf_path : string) :
  upload_prepare env req w = (Raised e pdf_path, w1) ->
  exists file, files_file req = Some file /\ pdf_path = pdf_path_of env file.
Proof.
  unfold upload_prepare. destruct (files_file req) as [file|]; [|done].
  intros H. exists file. split; [done|]. revert H.
  destruct (decide (filename file = "")); [done|].
  destruct (negb (allowed_file (filename file))); [done|].
  destruct (decide (file_size file > max_size)); [done|].
  cbv zeta.
  set (pdf := pdf_path_of env file) in *.
  set (ws := (exec (Write pdf (stream file)) (exec (OpenWb pdf) w).2).2) in *.
  unfold validate_pdf, pdf_to_text.
  destruct (open_document env pdf ws) as [e'|pages] eqn:Hopen.
  { destruct (exec (Remove pdf) ws) as [[?|?] ?]; by intros [= _ <- _]. }
  destruct (decide (Z.of_nat (length pages) = 0)).
  { destruct (exec (Remove pdf) ws) as [[?|?] w']; [|done].
    destruct (exec (Remove pdf) w') as [[?|?] ?]; by intros [= _ <- _]. }
  rewrite Hopen.
  destruct (get_texts pages "") as [e'|raw]; [by intros [= _ <- _]|].
  destruct (is_blank raw); [|done].
  destruct (exec (Remove pdf) ws) as [[?|?] ?]; by intros [= _ <- _].
Qed.

Lemma cleanup_frame (pdf_path p : string) (w : world) :
  p <> pdf_path -> fs (cleanup pdf_path None w) !! p = fs w !! p.
Proof.
  intros Hp. unfold cleanup. destruct (path_exists pdf_path w); [|done].
  pose proof (remove_frame pdf_path p w Hp) as Hrm.
  by destruct (exec (Remove pdf_path) w) as [[?|?] ?].
Qed.

(** X18. Any request that is answered with a failure, whatever failed
    and wherever, leaves no file at a destination that was free before, at
    the moment the handler returns. *)
Lemma failed_request_leaves_no_output (env : Env) (req : request)
    (file : upload) (w w' : world) (r : response) (thread : thread_state) :
  files_file req = Some file ->
  fs w !! mp3_path_of env file = None ->
  upload_file env req w = (r, thread, w') ->
  status r <> 200 ->
  fs w' !! mp3_path_of env file = None.
Proof.
  intros Hfile Hfresh. unfold upload_file.
  pose proof (pdf_path_ne_mp3_path env file) as Hne.
  destruct (upload_prepare env req w) as [[r0|e pdf|text pdf name mp3 lang] w1]
    eqn:Hprep.
  - intros [= <- <- <-] _.
    rewrite (upload_prepare_frame _ _ _ _ _ _ Hprep); [done|].
    intros file' Hfile'. congruence.
  - unfold on_exception. intros [= <- <- <-] _.
    destruct (upload_prepare_raised _ _ _ _ _ _ Hprep) as (file' & Hfile' & ->).
    assert (file' = file) as -> by congruence.
    rewrite cleanup_frame by done.
    rewrite (upload_prepare_frame _ _ _ _ _ _ Hprep); [done|].
    intros file' Hfile''. congruence.
  - destruct (upload_prepare_ready _ _ _ _ _ _ _ _ _ Hprep)
      as (file' & pages & raw & Hfile' & _ & _ & _ & _ & _ & _ & _ & -> & _
          & -> & _ & _).
    assert (file' = file) as -> by congruence.
    destruct (text_to_mp3_optimized _ _ _ _ w1) as [[[e|[]] th] w2] eqn:Hconv.
    + unfold on_exception. intros [= <- <- <-] _.
      apply cleanup_removes_destination.
    + destruct (exec (Remove _) w2) as [[e|[]] w3].
      * unfold on_exception. intros [= <- <- <-] _.
        apply cleanup_removes_destination.
      * by intros [= <- <- <-] Hst.
Qed.

Lemma failed_request_leaves_no_output_witness :
  let w := initial_world ∅ stalling_backend in
  let file := upload_of "talk.pdf" "hello world" in
  let '(r, thread, w') := upload_file test_env (request_of file) w in
  status r <> 200 /\ fs w' !! mp3_path_of test_env file = None.
Proof.
  intros w file.
  destruct (upload_file test_env (request_of file) w) as [[r thread] w'] eqn:Hup.
  assert (status r <> 200) as Hst.
  { vm_compute in Hup. injection Hup as <- _ _. discriminate. }
  split; [exact Hst|].
  apply (failed_request_leaves_no_output test_env (request_of file) file w w' r
           thread eq_refl eq_refl Hup Hst).
Defined.

(** ** File names *)

Lemma after_last_dot_app (stem ext : string) :
  after_last_dot ext = None ->
  after_last_dot (stem +:+ "." +:+ ext) = Some ext.
Proof.
  intros Hext. induction stem as [|c stem IH].
  - rewrite StrFacts.app_nil_l, StrFacts.app_cons, StrFacts.app_nil_l. simpl.
    by rewrite Hext.
  - rewrite StrFacts.app_cons. simpl. by rewrite IH.
Qed.

Lemma after_last_dot_split (name ext : string) :
  after_last_dot name = Some ext ->
  after_last_dot ext = None /\ exists stem, name = stem +:+ "." +:+ ext.
Proof.
  revert ext. induction name as [|c name IH]; intros ext; simpl; [done|].
  destruct (after_last_dot name) as [ext'|] eqn:Hname.
  - intros [= ->]. destruct (IH ext eq_refl) as (Hnone & stem & ->).
    split; [done|]. exists (String c stem). by rewrite StrFacts.app_cons.
  - destruct (decide (c = "."%char)) as [->|]; [|done].
    intros [= ->]. split; [done|]. exists "".
    by rewrite StrFacts.app_nil_l, StrFacts.app_cons, StrFacts.app_nil_l.
Qed.

Lemma lower_pdf_no_dot (ext : string) :
  lower ext = "pdf" -> after_last_dot ext = None.
Proof.
  destruct ext as [|c1 [|c2 [|c3 [|c4 ext]]]]; simpl; try done.
  intros [= H1 H2 H3].
  destruct (decide (c3 = "."%char)) as [->|]; [done|].
  destruct (decide (c2 = "."%char)) as [->|]; [done|].
  destruct (decide (c1 = "."%char)) as [->|]; [done|]. done.
Qed.

Lemma lower_char_cases (c l : ascii) :
  lower_char c = l ->
  c = l \/ (exists n, Ascii.N_of_ascii c = n /\ (65 <= n <= 90)%N
                      /\ l = Ascii.ascii_of_N (n + 32)).
Proof.
  unfold lower_char. case_decide; intros <-; eauto.
Qed.

(** The eight spellings of the extension. *)
Lemma lower_pdf_spellings (ext : string) :
  lower ext = "pdf"
  <-> ext ∈ ["pdf"; "pdF"; "pDf"; "pDF"; "Pdf"; "PdF"; "PDf"; "PDF"].
Proof.
  split.
  - destruct ext as [|c1 [|c2 [|c3 [|c4 ext]]]]; simpl; try done.
    intros [= H1 H2 H3].
    assert (forall c l u, lower_char c = l ->
              forall (Hl : lower_char l = l)
                     (Hu : forall n, (65 <= n <= 90)%N ->
                                     Ascii.ascii_of_N (n + 32) = l ->
                                     n = Ascii.N_of_ascii u),
              c = l \/ c = u) as Hcase.
    { intros c l u Hc Hl Hu. apply lower_char_cases in Hc as [->|(n & Hn & Hr & ->)];
        [by left|right].
      rewrite <- (Ascii.ascii_N_embedding c), Hn.
      rewrite (Hu n Hr eq_refl). apply Ascii.ascii_N_embedding. }
    assert (forall (m n : N), (65 <= n <= 90)%N ->
              Ascii.ascii_of_N (n + 32) = Ascii.ascii_of_N m -> (m < 256)%N ->
              (n + 32 = m)%N) as Hinj.
    { intros m n Hn Heq Hm.
      rewrite <- (Ascii.N_ascii_embedding (n + 32)) by lia.
      rewrite <- (Ascii.N_ascii_embedding m) by lia. by rewrite Heq. }
    apply (Hcase c1 "p"%char "P"%char) in H1; [|done|].
    2:{ intros n Hn Hl. apply (Hinj 112%N) in Hl; [|done|done].
        change (Ascii.N_of_ascii "P") with 80%N. lia. }
    apply (Hcase c2 "d"%char "D"%char) in H2; [|done|].
    2:{ intros n Hn Hl. apply (Hinj 100%N) in Hl; [|done|done].
        change (Ascii.N_of_ascii "D") with 68%N. lia. }
    apply (Hcase c3 "f"%char "F"%char) in H3; [|done|].
    2:{ intros n Hn Hl. apply (Hinj 102%N) in Hl; [|done|done].
        change (Ascii.N_of_ascii "F") with 70%N. lia. }
    destruct H1 as [-> | ->], H2 as [-> | ->], H3 as [-> | ->];
      rewrite !elem_of_cons; auto 10.
  - rewrite !elem_of_cons, elem_of_nil.
    intros [->|[->|[->|[->|[->|[->|[->|[->|[]]]]]]]]]; reflexivity.
Qed.

(** X1. [allowed_file] accepts exactly the names that end in a dot
    followed by [pdf] in any mix of upper and lower case.  Only what follows
    the last dot counts: [a.pdf.txt] is refused, [a.txt.PDF] is accepted,
    and so is the bare [.pdf]; a name without a dot is refused. *)
Theorem allowed_file_iff (name : string) :
  allowed_file name = true
  <-> exists stem ext,
        name = stem +:+ "." +:+ ext
        /\ ext ∈ ["pdf"; "pdF"; "pDf"; "pDF"; "Pdf"; "PdF"; "PDf"; "PDF"].
Proof.
  unfold allowed_file. split.
  - destruct (after_last_dot name) as [ext|] eqn:Hname; [|done].
    intros Hext%bool_decide_eq_true.
    destruct (after_last_dot_split _ _ Hname) as (_ & stem & ->).
    exists stem, ext. by rewrite <- lower_pdf_spellings.
  - intros (stem & ext & -> & Hext%lower_pdf_spellings).
    rewrite after_last_dot_app by by apply lower_pdf_no_dot.
    by apply bool_decide_eq_true.
Qed.

Example allowed_file_examples :
  allowed_file "a.txt.PDF" = true /\ allowed_file ".pdf" = true
  /\ allowed_file "a.pdf.txt" = false /\ allowed_file "pdf" = false
  /\ allowed_file "a.pdf." = false /\ allowed_file "" = false.
Proof. repeat split. Qed.

(** ** The text of a PDF *)

Lemma get_texts_ok (pages : list (exn + string)) (text out : string) :
  get_texts pages text = inr out
  <-> exists texts, pages = inr <$> texts /\ out = text +:+ Str.join texts.
Proof.
  revert text. induction pages as [|[e|page_text] pages IH]; intros text; simpl.
  - split.
    + intros [= <-]. exists []. by rewrite StrFacts.app_nil_r.
    + intros ([|??] & ? & ->); [|done]. by rewrite StrFacts.app_nil_r.
  - split; [done|]. by intros ([|??] & ? & _).
  - rewrite IH. split.
    + intros (texts & -> & ->). exists (page_text :: texts).
      by rewrite StrFacts.join_cons, StrFacts.app_assoc.
    + intros ([|t texts] & Hp & ->); [done|]. injection Hp as -> ->.
      exists texts. by rewrite StrFacts.join_cons, StrFacts.app_assoc.
Qed.

Lemma get_texts_error (pages : list (exn + string)) (text : string) (e : exn) :
  get_texts pages text = inl e
  <-> exists texts rest, pages = (inr <$> texts) ++ inl e :: rest.
Proof.
  revert text. induction pages as [|[e'|page_text] pages IH]; intros text; simpl.
  - split; [done|]. by intros ([|??] & ? & ?).
  - split.
    + intros [= ->]. by exists [], pages.
    + intros ([|??] & ? & H); [|done]. by injection H as ->.
  - rewrite IH. split.
    + intros (texts & rest & ->). by exists (page_text :: texts), rest.
    + intros ([|t texts] & rest & H); [done|]. injection H as -> ->. eauto.
Qed.

Lemma open_document_ok (env : Env) (path : string) (w : world)
    (pages : list (exn + string)) :
  open_document env path w = inr pages
  <-> exists content, holds w path content /\ fitz_open env content = inr pages.
Proof.
  unfold open_document, holds. split.
  - destruct (fs w !! path) as [content|]; [|done].
    destruct (unreadable w path); [done|]. eauto.
  - intros (content & [-> ->] & ?). done.
Qed.

Lemma open_document_error (env : Env) (path : string) (w : world) (e : exn) :
  open_document env path w = inl e
  <-> (exists reason, read_error w path = Some reason
                      /\ e = fitz_open_error env reason)
      \/ exists content, holds w path content /\ fitz_open env content = inl e.
Proof.
  unfold open_document, read_error, holds. split.
  - destruct (fs w !! path) as [content|]; [|intros [= <-]; left; eauto].
    destruct (unreadable w path); [intros [= <-]; left; eauto|]. right. eauto.
  - intros [(reason & H & ->)|(content & [-> ->] & ?)]; [|done].
    destruct (fs w !! path) as [content|]; [|by injection H as <-].
    destruct (unreadable w path); [by injection H as <-|done].
Qed.

(** X2. [pdf_to_text] returns a text exactly when the file is there, may be
    read, opens as a document and every page gives its text; the text is then
    the concatenation of the pages' texts in page order. *)
Theorem pdf_to_text_concatenates_pages (env : Env) (pdf_path : string)
    (w : world) (text : string) :
  pdf_to_text env pdf_path w = inr text
  <-> exists (content : bytes) (texts : list string),
        holds w pdf_path content
        /\ fitz_open env content = inr (inr <$> texts)
        /\ text = Str.join texts.
Proof.
  unfold pdf_to_text. split.
  - destruct (open_document env pdf_path w) as [e|pages] eqn:Hopen; [done|].
    destruct (get_texts pages "") as [e|out] eqn:Hget; [done|].
    intros [= <-].
    apply open_document_ok in Hopen as (content & Hholds & Hfitz).
    apply get_texts_ok in Hget as (texts & -> & ->).
    exists content, texts. by rewrite StrFacts.app_nil_l.
  - intros (content & texts & Hholds & Hfitz & ->).
    assert (open_document env pdf_path w = inr (inr <$> texts)) as ->
      by (apply open_document_ok; eauto).
    assert (get_texts (inr <$> texts) "" = inr (Str.join texts)) as ->; [|done].
    apply get_texts_ok. exists texts. by rewrite StrFacts.app_nil_l.
Qed.

(** X3. [pdf_to_text] raises exactly when the file cannot be opened for
    reading, or does not open as a document, or some page fails to give its
    text.  What it raises is always a plain [Exception] whose message is
    "Error reading PDF: " followed by the message of the cause.  The cause
    is the first failure met: for a file that is missing or may not be read,
    what PyMuPDF raises for that reason; else what opening the document
    raises; else what the first failing page raises, and the pages after it
    are not looked at. *)
Theorem pdf_to_text_wraps_first_failure (env : Env) (pdf_path : string)
    (w : world) (e : exn) :
  pdf_to_text env pdf_path w = inl e
  <-> exists cause : exn,
        e = Exception ("Error reading PDF: " +:+ str cause)
        /\ ((exists reason : exn,
               read_error w pdf_path = Some reason
               /\ cause = fitz_open_error env reason)
            \/ exists content : bytes,
                 holds w pdf_path content
                 /\ (fitz_open env content = inl cause
                     \/ exists (texts : list string) (rest : list (exn + string)),
                          fitz_open env content
                          = inr ((inr <$> texts) ++ inl cause :: rest))).
Proof.
  unfold pdf_to_text. split.
  - destruct (open_document env pdf_path w) as [cause|pages] eqn:Hopen.
    + intros [= <-]. exists cause. split; [done|].
      apply open_document_error in Hopen as [?|(content & ? & ?)]; eauto.
    + destruct (get_texts pages "") as [cause|out] eqn:Hget; [|done].
      intros [= <-]. exists cause. split; [done|]. right.
      apply open_document_ok in Hopen as (content & Hholds & Hfitz).
      apply get_texts_error in Hget as (texts & rest & ->). eauto 10.
  - intros (cause & -> & [Hread|(content & Hholds & [Hfitz|(texts & rest & Hfitz)])]).
    + assert (open_document env pdf_path w = inl cause) as ->; [|done].
      apply open_document_error. by left.
    + assert (open_document env pdf_path w = inl cause) as ->; [|done].
      apply open_document_error. eauto.
    + assert (open_document env pdf_path w
              = inr ((inr <$> texts) ++ inl cause :: rest)) as ->
        by (apply open_document_ok; eauto).
      assert (get_texts ((inr <$> texts) ++ inl cause :: rest) "" = inl cause)
        as ->; [|done].
      apply get_texts_error. eauto.
Qed.

(** A missing file with the test environment: the message is PyMuPDF's,
    not the operating system's. *)
Example pdf_to_text_missing_file :
  pdf_to_text test_env "missing.pdf"
    (initial_world ∅ (constant_backend {| latency := 1; result_of := Succeeds [] |}))
  = inl (Exception "Error reading PDF: no such file: 'missing.pdf'").
Proof. reflexivity. Qed.

(** ** The size of what is converted *)

Lemma len_cap_text_le (text : string) : Str.len (cap_text text) <= 30040.
Proof.
  destruct (decide (Str.len text > 30000)) as [Hlong|Hshort].
  - rewrite len_cap_text_long by done. lia.
  - rewrite cap_text_short by lia. lia.
Qed.

Lemma chunk_count_capped (text : string) :
  chunk_count (Str.len (cap_text text)) <= 31.
Proof.
  pose proof (len_cap_text_le text) as Hlen.
  pose proof (StrFacts.len_nonneg (cap_text text)) as H0.
  unfold chunk_count, max_chunk_size.
  assert ((Str.len (cap_text text) + 1000 - 1) `div` 1000 < 32).
  { apply Z.div_lt_upper_bound; lia. }
  lia.
Qed.

(** X12. Whatever the extracted text, the text handed to the conversion has
    at most 30040 characters (the 30000 of the limit and the 40 of the
    marker), so a request is split into at most 31 chunks. *)
Theorem capped_text_has_at_most_31_chunks (text : string) :
  Str.len (cap_text text) <= 30040
  /\ (length (chunks (cap_text text)) <= 31)%nat.
Proof.
  split; [apply len_cap_text_le|].
  pose proof (length_chunks (cap_text text)) as Hn.
  pose proof (chunk_count_capped text). lia.
Qed.

(** ** Retries that recover *)

Lemma create_tts_loop_recovers (text language : string) (max_retries : Z)
    (k : nat) (a : Z) (later : list Z) (w : world) (audio : bytes) :
  a + Z.of_nat k < max_retries ->
  (forall j : nat, (j < k)%nat -> exists e, fails_with w (calls w + j) e) ->
  result_of (backend w (calls w + k)) = Succeeds audio ->
  exists w',
    run (create_tts_loop text language max_retries
           (seqZ a (Z.of_nat (S k)) ++ later)) w
    = (inr (Some (the_tts text language)), w')
    /\ calls w' = (calls w + S k)%nat
    /\ fs w' = fs w
    /\ sleeps (log w')
       = sleeps (log w) ++ ((fun j => (j + 1) * 2) <$> seqZ a (Z.of_nat k)).
Proof.
  revert a w. induction k as [|k IH]; intros a w Hm Hfail Hok.
  - rewrite Nat.add_0_r in Hok.
    change (seqZ a (Z.of_nat 1)) with [a]. simpl. rewrite Hok.
    eexists. split; [reflexivity|]. simpl.
    split; [lia|]. split; [done|].
    rewrite sleeps_app. simpl. by rewrite !app_nil_r.
  - destruct (Hfail 0%nat ltac:(lia)) as (e0 & p0 & He0).
    rewrite Nat.add_0_r in He0.
    rewrite (seqZ_cons a) by lia.
    replace (Z.pred (Z.of_nat (S (S k)))) with (Z.of_nat (S k)) by lia.
    rewrite <- app_comm_cons.
    cbn [create_tts_loop run]. unfold exec at 1. rewrite He0.
    rewrite decide_True by lia. cbv zeta.
    set (w1 := called _).
    change (run (perform (Sleep ((a + 1) * 2));; _) w1)
      with (run (create_tts_loop text language max_retries
                   (seqZ (Z.succ a) (Z.of_nat (S k)) ++ later))
                (record (EvSleep ((a + 1) * 2)) w1)).
    set (w2 := record _ w1).
    destruct (IH (Z.succ a) w2) as (w' & Hrun & Hcalls & Hfs & Hsleeps).
    { lia. }
    { intros j Hj. destruct (Hfail (S j) ltac:(lia)) as (e & p & He).
      exists e, p. subst w2 w1. simpl.
      by replace (S (calls w + j)) with (calls w + S j)%nat by lia. }
    { subst w2 w1. simpl.
      by replace (S (calls w + k)) with (calls w + S k)%nat by lia. }
    exists w'. split; [done|]. split.
    { rewrite Hcalls. subst w2 w1. simpl. lia. }
    split; [by rewrite Hfs|].
    rewrite Hsleeps. subst w2 w1. simpl.
    rewrite !sleeps_app. simpl. rewrite app_nil_r, <- app_assoc. simpl.
    rewrite (seqZ_cons a (Z.of_nat (S k))) by lia. rewrite fmap_cons.
    by replace (Z.pred (Z.of_nat (S k))) with (Z.of_nat k) by lia.
Qed.

(** A failing attempt to persist leaves at [path] what it had written, or
    what was there, and nothing else changes in the files. *)
Lemma save_attempt_fails_fs (t : tts) (path : string) (w : world) (e : exn)
    (partial : option bytes) :
  result_of (backend w (calls w)) = Fails e partial ->
  forall data, <[path := data]> (fs (exec (Save (Some t) path) w).2)
               = <[path := data]> (fs w).
Proof.
  intros H data. simpl. rewrite H. destruct partial; simpl; [|done].
  apply insert_insert_eq.
Qed.

Lemma save_tts_loop_recovers (t : tts) (path : string) (max_retries : Z)
    (k : nat) (a : Z) (later : list Z) (w : world) (audio : bytes) :
  a + Z.of_nat k < max_retries ->
  (forall j : nat, (j < k)%nat -> exists e, fails_with w (calls w + j) e) ->
  result_of (backend w (calls w + k)) = Succeeds audio ->
  exists w',
    run (save_tts_loop (Some t) path max_retries
           (seqZ a (Z.of_nat (S k)) ++ later)) w
    = (inr tt, w')
    /\ calls w' = (calls w + S k)%nat
    /\ fs w' = <[path := audio]> (fs w)
    /\ sleeps (log w')
       = sleeps (log w) ++ ((fun j => (j + 1) * 2) <$> seqZ a (Z.of_nat k)).
Proof.
  revert a w. induction k as [|k IH]; intros a w Hm Hfail Hok.
  - rewrite Nat.add_0_r in Hok.
    change (seqZ a (Z.of_nat 1)) with [a]. simpl. rewrite Hok.
    eexists. split; [reflexivity|]. simpl.
    split; [lia|]. split; [done|].
    rewrite sleeps_app. simpl. by rewrite !app_nil_r.
  - destruct (Hfail 0%nat ltac:(lia)) as (e0 & p0 & He0).
    rewrite Nat.add_0_r in He0.
    pose proof (save_attempt_fails_fs t path w e0 p0 He0 audio) as Hfs1.
    destruct (save_attempt_fails t path w e0 p0 He0)
      as (w1 & Hex & Hc1 & Hb1 & Hl1).
    rewrite Hex in Hfs1. simpl in Hfs1.
    rewrite (seqZ_cons a) by lia.
    replace (Z.pred (Z.of_nat (S (S k)))) with (Z.of_nat (S k)) by lia.
    rewrite <- app_comm_cons.
    cbn [save_tts_loop run]. rewrite Hex, decide_True by lia. cbv zeta.
    change (run (perform (Sleep ((a + 1) * 2));; _) w1)
      with (run (save_tts_loop (Some t) path max_retries
                   (seqZ (Z.succ a) (Z.of_nat (S k)) ++ later))
                (record (EvSleep ((a + 1) * 2)) w1)).
    set (w2 := record _ w1).
    destruct (IH (Z.succ a) w2) as (w' & Hrun & Hcalls & Hfs & Hsleeps).
    { lia. }
    { intros j Hj. destruct (Hfail (S j) ltac:(lia)) as (e & p & He).
      exists e, p. subst w2. simpl. rewrite Hb1, Hc1.
      by replace (S (calls w) + j)%nat with (calls w + S j)%nat by lia. }
    { subst w2. simpl. rewrite Hb1, Hc1.
      by replace (S (calls w) + k)%nat with (calls w + S k)%nat by lia. }
    exists w'. split; [done|]. split.
    { rewrite Hcalls. subst w2. simpl. lia. }
    split; [by rewrite Hfs|].
    rewrite Hsleeps. subst w2. simpl. rewrite Hl1.
    rewrite !sleeps_app. simpl. rewrite app_nil_r, <- app_assoc. simpl.
    rewrite (seqZ_cons a (Z.of_nat (S k))) by lia. rewrite fmap_cons.
    by replace (Z.pred (Z.of_nat (S k))) with (Z.of_nat k) by lia.
Qed.

(** X5. A retry that recovers.  When the first [k] attempts of a wrapper
    fail and the next one succeeds, with [k] below [max_retries], the wrapper
    makes exactly [k + 1] backend calls and waits [2, 4, ..., 2 * k] between
    them: the log is attempt, wait 2, attempt, wait 4, ..., attempt, with
    nothing after the attempt that succeeds.  [create_tts_with_retry] then
    returns the [gTTS] object and leaves the files alone;
    [save_tts_with_retry] returns with the file holding exactly the audio of
    the successful attempt: whatever the failed attempts had written there
    is overwritten. *)
Theorem retry_wrappers_recover (text language path : string) (t : tts)
    (max_retries : Z) (k : nat) (w : world) (audio : bytes) :
  Z.of_nat k < max_retries ->
  (forall j : nat, (j < k)%nat -> exists e, fails_with w (calls w + j) e) ->
  result_of (backend w (calls w + k)) = Succeeds audio ->
  let waits := (fun j => j * 2) <$> seqZ 1 (Z.of_nat k) in
  (exists w',
     run (create_tts_with_retry text language max_retries) w
     = (inr (Some (the_tts text language)), w')
     /\ calls w' = (calls w + S k)%nat
     /\ fs w' = fs w
     /\ sleeps (log w') = sleeps (log w) ++ waits
     /\ log w' = log w ++ retry_trace (EvGTTS text language) (S k))
  /\ (exists w',
     run (save_tts_with_retry (Some t) path max_retries) w = (inr tt, w')
     /\ calls w' = (calls w + S k)%nat
     /\ fs w' = <[path := audio]> (fs w)
     /\ sleeps (log w') = sleeps (log w) ++ waits
     /\ log w' = log w ++ retry_trace (EvSave (Some t) path) (S k)).
Proof.
  intros Hk Hfail Hok waits.
  assert (waits = (fun j => (j + 1) * 2) <$> seqZ 0 (Z.of_nat k)) as ->.
  { subst waits.
    rewrite <- (fmap_add_seqZ 1 0), <- list_fmap_compose.
    apply list_fmap_ext. intros _ j _. simpl. lia. }
  assert (range max_retries
          = seqZ 0 (Z.of_nat (S k))
              ++ seqZ (Z.of_nat (S k)) (max_retries - Z.of_nat (S k))) as Hrange.
  { rewrite range_seqZ.
    replace max_retries
      with (Z.of_nat (S k) + (max_retries - Z.of_nat (S k))) at 1 by lia.
    rewrite seqZ_app by lia. done. }
  unfold create_tts_with_retry, save_tts_with_retry. rewrite Hrange.
  split.
  - destruct (create_tts_loop_recovers text language max_retries k 0
                (seqZ (Z.of_nat (S k)) (max_retries - Z.of_nat (S k))) w audio)
      as (w' & Hrun & ? & ? & ?); [lia|done|done|].
    pose proof (create_tts_loop_log text language max_retries k 0
                  (seqZ (Z.of_nat (S k)) (max_retries - Z.of_nat (S k))) w)
      as Hlog.
    rewrite Hrun, retry_trace_from_0 in Hlog.
    exists w'. do 4 (split; [done|]).
    apply Hlog; [lia|done|left; eauto].
  - destruct (save_tts_loop_recovers t path max_retries k 0
                (seqZ (Z.of_nat (S k)) (max_retries - Z.of_nat (S k))) w audio)
      as (w' & Hrun & ? & ? & ?); [lia|done|done|].
    pose proof (save_tts_loop_log t path max_retries k 0
                  (seqZ (Z.of_nat (S k)) (max_retries - Z.of_nat (S k))) w)
      as Hlog.
    rewrite Hrun, retry_trace_from_0 in Hlog.
    exists w'. do 4 (split; [done|]).
    apply Hlog; [lia|done|left; eauto].
Qed.

Lemma retry_wrappers_recover_witness :
  let w := initial_world {[ "out.mp3" := [Byte.x00] ]}
             (failing_first 2 [Byte.x01; Byte.x02]) in
  (exists w',
     run (create_tts_with_retry "hello" "en" 3) w
     = (inr (Some (the_tts "hello" "en")), w')
     /\ calls w' = 3%nat
     /\ fs w' = fs w
     /\ sleeps (log w') = [2; 4]
     /\ log w' = [EvGTTS "hello" "en"; EvSleep 2; EvGTTS "hello" "en";
                  EvSleep 4; EvGTTS "hello" "en"])
  /\ (exists w',
     run (save_tts_with_retry (Some (the_tts "hello" "en")) "out.mp3" 3) w
     = (inr tt, w')
     /\ calls w' = 3%nat
     /\ fs w' = <[ "out.mp3" := [Byte.x01; Byte.x02] ]> (fs w)
     /\ sleeps (log w') = [2; 4]
     /\ log w' = [EvSave (Some (the_tts "hello" "en")) "out.mp3"; EvSleep 2;
                  EvSave (Some (the_tts "hello" "en")) "out.mp3"; EvSleep 4;
                  EvSave (Some (the_tts "hello" "en")) "out.mp3"]).
Proof.
  intros w.
  apply (retry_wrappers_recover "hello" "en" "out.mp3" (the_tts "hello" "en")
           3 2 w [Byte.x01; Byte.x02]).
  - lia.
  - intros j Hj. exists (BackendError "503"), (Some [Byte.xff]).
    destruct j as [|[|j]]; [reflexivity|reflexivity|lia].
  - reflexivity.
Defined.

(** ** Retry counts below one *)

Lemma range_nonpositive (n : Z) : n <= 0 -> range n = [].
Proof.
  intros Hn. rewrite range_seqZ. unfold seqZ.
  by replace (Z.to_nat n) with 0%nat by lia.
Qed.

(** With at least one retry the synthesis wrapper never returns [None]:
    it returns the [gTTS] object or raises. *)
Lemma create_tts_loop_not_none (text language : string) (max_retries : Z)
    (n : nat) (a : Z) (w w' : world) :
  a + Z.of_nat (S n) = max_retries ->
  run (create_tts_loop text language max_retries (seqZ a (Z.of_nat (S n)))) w
  <> (inr None, w').
Proof.
  revert a w. induction n as [|n IH]; intros a w Hm.
  - change (seqZ a (Z.of_nat 1)) with [a]. simpl.
    destruct (result_of (backend w (calls w))); simpl; [done|].
    rewrite decide_False by lia. done.
  - rewrite (seqZ_cons a) by lia.
    replace (Z.pred (Z.of_nat (S (S n)))) with (Z.of_nat (S n)) by lia.
    cbn [create_tts_loop run]. unfold exec at 1.
    destruct (result_of (backend w (calls w))); [done|].
    rewrite decide_True by lia. cbv zeta.
    set (w1 := called _).
    change (run (perform (Sleep ((a + 1) * 2));; _) w1)
      with (run (create_tts_loop text language max_retries
                   (seqZ (Z.succ a) (Z.of_nat (S n))))
                (record (EvSleep ((a + 1) * 2)) w1)).
    apply IH. lia.
Qed.

(** X6. Retry counts below one.  [create_tts_with_retry] returns [None]
    exactly when [max_retries <= 0], and then without a backend call, a wait
    or any other change of the world; with [max_retries >= 1] it returns the
    [gTTS] object or raises.  With [max_retries <= 0],
    [save_tts_with_retry] likewise returns at once, as if it had saved. *)
Theorem retry_count_below_one (text language path : string) (t : option tts)
    (max_retries : Z) (w : world) :
  (forall w',
     run (create_tts_with_retry text language max_retries) w = (inr None, w')
     <-> max_retries <= 0 /\ w' = w)
  /\ (max_retries <= 0 ->
      run (save_tts_with_retry t path max_retries) w = (inr tt, w)).
Proof.
  split.
  - intros w'. split.
    + intros Hrun. destruct (decide (max_retries <= 0)) as [Hn|Hn].
      * unfold create_tts_with_retry in Hrun.
        rewrite range_nonpositive in Hrun by done. simpl in Hrun.
        by injection Hrun as <-.
      * exfalso. unfold create_tts_with_retry in Hrun.
        rewrite range_seqZ in Hrun.
        replace max_retries with (Z.of_nat (S (Z.to_nat (max_retries - 1))))
          in Hrun at 2 by lia.
        by eapply create_tts_loop_not_none in Hrun; [|lia].
    + intros [Hn ->]. unfold create_tts_with_retry.
      by rewrite range_nonpositive.
  - intros Hn. unfold save_tts_with_retry. by rewrite range_nonpositive.
Qed.

Lemma retry_count_below_one_witness :
  let w := initial_world ∅ (constant_backend
             {| latency := 1; result_of := Succeeds [Byte.x01] |}) in
  run (create_tts_with_retry "hello" "en" 0) w = (inr None, w)
  /\ run (save_tts_with_retry (Some (the_tts "hello" "en")) "out.mp3" 0) w
     = (inr tt, w).
Proof.
  intros w.
  destruct (retry_count_below_one "hello" "en" "out.mp3"
              (Some (the_tts "hello" "en")) 0 w) as [Hcreate Hsave].
  split; [apply Hcreate; split; [lia|reflexivity]|apply Hsave; lia].
Defined.

(** X7. The temporary files of one conversion do not collide: the
    names [output.chunk_0.mp3], ..., [output.chunk_(n-1).mp3] are pairwise
    different and none of them is the output path, so no chunk overwrites
    another one or the output. *)
Theorem temp_files_do_not_collide (output_path : string) (n : Z) :
  NoDup (output_path :: temp_file_names output_path n).
Proof.
  apply NoDup_cons. split.
  - apply output_not_temp_file.
  - apply NoDup_temp_file_names.
Qed.

(** ** What a program can do *)

Lemma may_give_run {A : Type} (p : Prog A) (w w' : world) (a : A) :
  run p w = (inr a, w') -> may_give p a.
Proof.
  revert w. induction p as [b|e|X o k IH]; intros w; simpl.
  - by intros [= ->].
  - done.
  - destruct (exec o w) as [x w1] eqn:Hexec. intros Hrun.
    exists x. split; [exists w; by rewrite Hexec|by eapply IH].
Qed.

Lemma may_give_bind {A B : Type} (p : Prog A) (f : A -> Prog B) (b : B) :
  may_give (p ≫= f) b <-> exists a, may_give p a /\ may_give (f a) b.
Proof.
  unfold mbind, Prog_bind.
  induction p as [a|e|X o k IH]; simpl.
  - split; [eauto|]. by intros (? & <- & ?).
  - split; [done|]. by intros (? & [] & _).
  - split.
    + intros (x & Hx & (a & ? & ?)%IH). eauto 10.
    + intros (a & (x & Hx & Ha) & Hb). exists x. split; [done|].
      apply IH. eauto.
Qed.

Lemma all_ops_bind {A B : Type} (P : forall X, op X -> Prop) (p : Prog A)
    (f : A -> Prog B) :
  all_ops P p -> (forall a, may_give p a -> all_ops P (f a)) ->
  all_ops P (p ≫= f).
Proof.
  unfold mbind, Prog_bind.
  induction p as [a|e|X o k IH]; simpl.
  - intros _ Hf. by apply Hf.
  - done.
  - intros [Ho Hk] Hf. split; [done|]. intros x Hx.
    apply IH; [by apply Hk|]. intros a Ha. apply Hf. eauto.
Qed.

Lemma all_ops_try_except {A : Type} (P : forall X, op X -> Prop) (p : Prog A)
    (h : exn -> Prog A) :
  all_ops P p -> (forall e, all_ops P (h e)) -> all_ops P (try_except p h).
Proof.
  induction p as [a|e|X o k IH]; simpl; [done|auto|].
  intros [Ho Hk] Hh. split; [done|]. intros x Hx. apply IH; auto.
Qed.

(** An invariant that every operation satisfying [P] keeps is kept by a run
    of a program all of whose operations satisfy [P], ... *)
Lemma all_ops_run {A : Type} (P : forall X, op X -> Prop) (I : world -> Prop)
    (p : Prog A) (w : world) :
  (forall X (o : op X) w, P X o -> I w -> I (exec o w).2) ->
  all_ops P p -> I w -> I (run p w).2.
Proof.
  intros Hstep. revert w. induction p as [a|e|X o k IH]; intros w; simpl;
    [done|done|].
  intros [Ho Hk] Hw. destruct (exec o w) as [x w1] eqn:Hexec.
  apply IH.
  - apply Hk. exists w. by rewrite Hexec.
  - specialize (Hstep X o w Ho Hw). by rewrite Hexec in Hstep.
Qed.

(** ... by a run that is cut at a deadline, and by what is left of it. *)
Lemma all_ops_join_for (P : forall X, op X -> Prop) (I : world -> Prop)
    (budget : Z) (p : Prog unit) (w : world) :
  (forall X (o : op X) w, P X o -> I w -> I (exec o w).2) ->
  all_ops P p -> I w ->
  I (join_for budget p w).2
  /\ match (join_for budget p w).1 with
     | Finished => True
     | Alive rest => all_ops P rest
     end.
Proof.
  intros Hstep. revert budget w.
  induction p as [a|e|X o k IH]; intros budget w; simpl; [done|done|].
  intros [Ho Hk] Hw. case_decide; [|done].
  destruct (exec o w) as [x w1] eqn:Hexec.
  apply IH.
  - apply Hk. exists w. by rewrite Hexec.
  - specialize (Hstep X o w Ho Hw). by rewrite Hexec in Hstep.
Qed.

Lemma all_ops_settled (P : forall X, op X -> Prop) (I : world -> Prop)
    (budget : Z) (p : Prog unit) (w : world) :
  (forall X (o : op X) w, P X o -> I w -> I (exec o w).2) ->
  all_ops P p -> I w ->
  I (join_for budget p w).2
  /\ I (settled (join_for budget p w).1 (join_for budget p w).2).
Proof.
  intros Hstep Hp Hw.
  destruct (all_ops_join_for P I budget p w Hstep Hp Hw) as [H1 H2].
  split; [done|].
  destruct (join_for budget p w) as [[|rest] w1]; simpl in *; [done|].
  by apply all_ops_run with (P := P).
Qed.

(** ** What a conversion can do *)

Lemma may_give_create_tts (text language : string) (r : option tts) :
  may_give (create_tts_with_retry text language default_max_retries) r ->
  r = Some (the_tts text language).
Proof.
  assert (forall x, may_return (GTTS text language) x ->
            forall t, x = inr t -> t = the_tts text language) as Hret.
  { intros x [w <-] t. simpl.
    destruct (result_of (backend w (calls w))); [|done]. by intros [= <-]. }
  unfold create_tts_with_retry, default_max_retries. rewrite range_3. simpl.
  intros (x1 & H1 & Hk1). destruct x1 as [e1|t1];
    [|simpl in Hk1; subst r; f_equal; by eapply Hret].
  simpl in Hk1. destruct Hk1 as (_ & _ & x2 & H2 & Hk2).
  destruct x2 as [e2|t2];
    [|simpl in Hk2; subst r; f_equal; by eapply Hret].
  simpl in Hk2. destruct Hk2 as (_ & _ & x3 & H3 & Hk3).
  destruct x3 as [e3|t3];
    [done|simpl in Hk3; subst r; f_equal; by eapply Hret].
Qed.

Section conversion.
Context (output_path language : string).


Lemma all_ops_impl {A : Type} (P Q : forall X, op X -> Prop) (p : Prog A) :
  (forall X (o : op X), P X o -> Q X o) -> all_ops P p -> all_ops Q p.
Proof.
  intros HPQ. induction p as [a|e|X o k IH]; simpl; [done|done|].
  intros [Ho Hk]. split; [by apply HPQ|]. intros x Hx. by apply IH, Hk.
Qed.

Lemma create_tts_ops (text : string) :
  Str.len text <= max_chunk_size ->
  all_ops (body_op output_path language) (create_tts_with_retry text language default_max_retries).
Proof.
  intros Hlen. unfold create_tts_with_retry, default_max_retries.
  rewrite range_3. simpl.
  split; [done|]. intros [e1|t1] _; [|done]. simpl.
  split; [split; [by left|done]|]. intros _ _.
  split; [done|]. intros [e2|t2] _; [|done]. simpl.
  split; [split; [by right|done]|]. intros _ _.
  split; [done|]. by intros [e3|t3] _.
Qed.

Lemma save_tts_ops (t : tts) (path : string) :
  Str.len (tts_text t) <= max_chunk_size -> tts_lang t = language ->
  own_path output_path path ->
  all_ops (body_op output_path language) (save_tts_with_retry (Some t) path default_max_retries).
Proof.
  intros Hlen Hlang Hpath.
  assert ((body_op output_path language) _ (Save (Some t) path)) as Hsave by (repeat split; eauto).
  unfold save_tts_with_retry, default_max_retries. rewrite range_3. simpl.
  split; [done|]. intros [e1|[]] _; [|done]. simpl.
  split; [split; [by left|done]|]. intros _ _.
  split; [done|]. intros [e2|[]] _; [|done]. simpl.
  split; [split; [by right|done]|]. intros _ _.
  split; [done|]. by intros [e3|[]] _.
Qed.

Lemma synthesize_and_persist_ops (text path : string) :
  Str.len text <= max_chunk_size -> own_path output_path path ->
  all_ops (body_op output_path language) (synthesize_and_persist text language path).
Proof.
  intros Hlen Hpath. unfold synthesize_and_persist.
  apply all_ops_bind; [by apply create_tts_ops|].
  intros r ->%may_give_create_tts. by apply save_tts_ops.
Qed.

Lemma process_chunk_ops (n i : Z) (chunk : string) (tfs : list string) :
  Str.len chunk <= max_chunk_size ->
  all_ops (body_op output_path language) (process_chunk output_path language n i chunk tfs).
Proof.
  intros Hlen. unfold process_chunk.
  apply all_ops_bind.
  { apply synthesize_and_persist_ops; [done|]. right. eauto. }
  intros _ _. apply all_ops_bind; [|done].
  case_decide; simpl; [|done]. split; [split; [by left|done]|done].
Qed.

Lemma may_give_process_chunk (n i : Z) (chunk : string) (tfs tfs' : list string) :
  may_give (process_chunk output_path language n i chunk tfs) tfs' ->
  tfs' = tfs ++ [temp_file_name output_path i].
Proof.
  unfold process_chunk.
  intros (_ & _ & (_ & _ & H)%may_give_bind)%may_give_bind. by simpl in H.
Qed.

Lemma synthesize_chunks_ops (n : Z) (todo : list (Z * string))
    (tfs : list string) :
  Forall (fun ic => Str.len ic.2 <= max_chunk_size) todo ->
  all_ops (body_op output_path language) (synthesize_chunks output_path language n todo tfs).
Proof.
  intros Htodo. revert tfs.
  induction Htodo as [|[i chunk] todo Hlen _ IH]; intros tfs; [done|].
  rewrite synthesize_chunks_cons.
  apply all_ops_bind; [by apply process_chunk_ops|]. intros tfs' _. apply IH.
Qed.

Lemma may_give_synthesize_chunks (n : Z) (todo : list (Z * string))
    (tfs tfs' : list string) :
  may_give (synthesize_chunks output_path language n todo tfs) tfs' ->
  Forall (fun tf => exists i : Z, tf = temp_file_name output_path i) tfs ->
  Forall (fun tf => exists i : Z, tf = temp_file_name output_path i) tfs'.
Proof.
  revert tfs. induction todo as [|[i chunk] todo IH]; intros tfs.
  - simpl. by intros ->.
  - rewrite synthesize_chunks_cons.
    intros (tfs1 & ->%may_give_process_chunk & H)%may_give_bind Htfs.
    apply (IH _ H). apply Forall_app. split; [done|].
    apply Forall_singleton. eauto.
Qed.

Lemma combine_loop_ops (tfs : list string) :
  Forall (fun tf => exists i : Z, tf = temp_file_name output_path i) tfs ->
  all_ops (body_op output_path language) (combine_loop output_path tfs).
Proof.
  intros Htfs. induction Htfs as [|tf tfs Htf _ IH]; [done|].
  simpl. split; [done|]. intros [e|data] _; [done|]. simpl.
  split; [done|]. intros _ _. split; [done|]. by intros [e|[]] _.
Qed.

Lemma combine_chunks_ops (tfs : list string) :
  Forall (fun tf => exists i : Z, tf = temp_file_name output_path i) tfs ->
  all_ops (body_op output_path language) (combine_chunks output_path tfs).
Proof.
  intros Htfs. unfold combine_chunks.
  apply all_ops_bind; [done|]. intros _ _. by apply combine_loop_ops.
Qed.

Lemma Forall_enumerate_from {A : Type} (P : A -> Prop) (i : Z) (l : list A) :
  Forall P l -> Forall (fun ia => P ia.2) (enumerate_from i l).
Proof.
  intros Hl. revert i. induction Hl as [|x l Hx _ IH]; intros i; simpl;
    constructor; auto.
Qed.

Lemma len_chunks_le (text : string) :
  Forall (fun chunk => Str.len chunk <= max_chunk_size) (chunks text).
Proof.
  apply Forall_lookup. intros k chunk Hk.
  destruct (len_chunk _ _ _ Hk) as [-> _]. lia.
Qed.

Lemma conversion_work_ops (text : string) :
  all_ops (body_op output_path language) (conversion_work text output_path language).
Proof.
  unfold conversion_work. case_decide as Hlong.
  - apply all_ops_bind.
    + apply synthesize_chunks_ops.
      apply (Forall_enumerate_from (fun chunk => Str.len chunk <= max_chunk_size)).
      apply len_chunks_le.
    + intros tfs Htfs. apply combine_chunks_ops.
      by apply (may_give_synthesize_chunks _ _ _ _ Htfs).
  - apply synthesize_and_persist_ops; [lia|by left].
Qed.

Lemma convert_ops (text : string) :
  all_ops (conversion_op output_path language) (convert text output_path language).
Proof.
  unfold convert. apply all_ops_try_except; [|done].
  change (convert_body text output_path language)
    with (conversion_work text output_path language;; perform SetSuccess).
  apply all_ops_bind; [|done].
  apply all_ops_impl with (P := (body_op output_path language)); [by intros X o [? _]|].
  apply conversion_work_ops.
Qed.

(** The work of a conversion leaves [result] as it was. *)
Lemma conversion_work_result (text : string) (w : world) :
  result (run (conversion_work text output_path language) w).2 = result w.
Proof.
  apply (all_ops_run (body_op output_path language) (fun w1 => result w1 = result w));
    [|apply conversion_work_ops|done].
  intros X o w1 [_ Ho] <-.
  destruct o as [secs|t l|[t|] path|path|path|path data|path| |msg];
    simpl in *; try done.
  - by destruct (result_of _).
  - by destruct (result_of _) as [audio|e [partial|]].
  - by destruct (fs w1 !! path), (unreadable w1 path).
  - by destruct (fs w1 !! path).
  - by destruct (fs w1 !! path).
Qed.

(** How [convert] ends: it never raises, and sets [result] by how its
    work ended. *)
Lemma run_convert (text : string) (w : world) :
  run (convert text output_path language) w
  = match run (conversion_work text output_path language) w with
    | (inl e, w1) =>
        (inr tt, with_result {| success := success (result w);
                                error := Some (str e) |} w1)
    | (inr _, w1) =>
        (inr tt, with_result {| success := true;
                                error := error (result w) |} w1)
    end.
Proof.
  unfold convert.
  change (convert_body text output_path language)
    with (conversion_work text output_path language;; perform SetSuccess).
  rewrite run_try_except, run_bind.
  pose proof (conversion_work_result text w) as Hres.
  destruct (run (conversion_work text output_path language) w) as [[e|[]] w1];
    simpl in *; by rewrite Hres.
Qed.

(** No operation of a conversion removes the output once it is there. *)
Lemma conversion_op_keeps_output {X : Type} (o : op X) (w : world) :
  (conversion_op output_path language) X o -> is_Some (fs w !! output_path) ->
  is_Some (fs (exec o w).2 !! output_path).
Proof.
  intros Ho Hout.
  destruct o as [secs|text lang|[t|] path|path|path|path data|path| |msg];
    simpl in *; try done.
  - by destruct (result_of _).
  - destruct (result_of _) as [audio|e [partial|]]; simpl; [| |done];
      (destruct (decide (path = output_path)) as [->|];
       [rewrite lookup_insert_eq; eauto|by rewrite lookup_insert_ne]).
  - subst path. rewrite lookup_insert_eq. eauto.
  - by destruct (fs w !! path), (unreadable w path).
  - subst path. destruct Hout as [old Hold]. rewrite Hold. simpl.
    rewrite lookup_insert_eq. eauto.
  - destruct Ho as [i ->].
    destruct (fs w !! temp_file_name output_path i); simpl; [|done].
    rewrite lookup_delete_ne; [done|]. apply temp_file_name_ne_output.
Qed.

Lemma save_tts_stores (t : tts) (path : string) (w w' : world) :
  run (save_tts_with_retry (Some t) path default_max_retries) w = (inr tt, w') ->
  is_Some (fs w' !! path).
Proof.
  unfold save_tts_with_retry, default_max_retries. rewrite range_3. simpl.
  destruct (result_of (backend w (calls w))) as [a1|e1 [p1|]]; simpl;
    try (intros [= <-]; simpl; rewrite lookup_insert_eq; by eauto).
  all: destruct (result_of (backend w (S (calls w)))) as [a2|e2 [p2|]]; simpl;
    try (intros [= <-]; simpl; rewrite lookup_insert_eq; by eauto).
  all: destruct (result_of (backend w (S (S (calls w))))) as [a3|e3 [p3|]];
    simpl; try done;
    intros [= <-]; simpl; rewrite lookup_insert_eq; by eauto.
Qed.

(** When the work of a conversion ends without an exception, the output
    file is there. *)
Lemma conversion_work_output (text : string) (w w' : world) :
  run (conversion_work text output_path language) w = (inr tt, w') ->
  is_Some (fs w' !! output_path).
Proof.
  unfold conversion_work. case_decide as Hlong.
  - cbv zeta. rewrite run_bind.
    destruct (run (synthesize_chunks _ _ _ _ _) w) as [[e|tfs] w1] eqn:Hsyn;
      [done|].
    rewrite run_combine_chunks. intros Hrun.
    apply may_give_run, may_give_synthesize_chunks in Hsyn; [|done].
    replace w' with (run (combine_loop output_path tfs)
      (with_fs (<[output_path:=[]]> (fs w1)) (record (EvOpenWb output_path) w1))).2
      by by rewrite Hrun.
    apply (all_ops_run (conversion_op output_path language) (fun w2 => is_Some (fs w2 !! output_path))).
    + intros X o w2. apply conversion_op_keeps_output.
    + apply all_ops_impl with (P := (body_op output_path language)); [by intros X o [? _]|].
      by apply combine_loop_ops.
    + simpl. rewrite lookup_insert_eq. eauto.
  - unfold synthesize_and_persist. rewrite run_bind.
    destruct (run (create_tts_with_retry _ _ _) w) as [[e|r] w1] eqn:Hcreate;
      [done|].
    apply may_give_run, may_give_create_tts in Hcreate as ->.
    apply save_tts_stores.
Qed.

(** An operation of a conversion leaves every file that is not the conversion's
    own as it was. *)
Lemma conversion_op_frame {X : Type} (o : op X) (w : world) (p : string) :
  (conversion_op output_path language) X o -> ~ own_path output_path p ->
  fs (exec o w).2 !! p = fs w !! p.
Proof.
  intros Ho Hp.
  assert (forall path, own_path output_path path -> path <> p) as Hne
    by (intros path Hpath ->; done).
  destruct o as [secs|text lang|[t|] path|path|path|path data|path| |msg];
    simpl in *.
  - done.
  - by destruct (result_of _).
  - destruct Ho as [_ Hpath%Hne].
    destruct (result_of _) as [audio|e [partial|]]; simpl;
      by rewrite ?lookup_insert_ne.
  - done.
  - subst path. rewrite lookup_insert_ne; [done|]. apply Hne. by left.
  - by destruct (fs w !! path), (unreadable w path).
  - subst path. destruct (fs w !! output_path); simpl; [|done].
    rewrite lookup_insert_ne; [done|]. apply Hne. by left.
  - destruct (fs w !! path); simpl; [|done].
    rewrite lookup_delete_ne; [done|]. apply Hne. by right.
  - done.
  - done.
Qed.

(** An operation of a conversion adds events of a conversion to the log, or none. *)
Lemma conversion_op_log {X : Type} (o : op X) (w : world) :
  (conversion_op output_path language) X o ->
  exists l, log (exec o w).2 = log w ++ l
            /\ Forall (conversion_event output_path language) l.
Proof.
  intros Ho.
  destruct o as [secs|text lang|[t|] path|path|path|path data|path| |msg];
    simpl in *.
  - eexists. split; [done|]. by apply Forall_singleton.
  - destruct (result_of _); (eexists; split; [done|]); by apply Forall_singleton.
  - destruct (result_of _) as [audio|e [partial|]];
      (eexists; split; [done|]); by apply Forall_singleton.
  - eexists. split; [done|]. by apply Forall_singleton.
  - eexists. split; [done|]. by apply Forall_singleton.
  - destruct (fs w !! path), (unreadable w path);
      (eexists; split; [done|]); by apply Forall_singleton.
  - destruct (fs w !! path); (eexists; split; [done|]); by apply Forall_singleton.
  - destruct (fs w !! path); (eexists; split; [done|]); by apply Forall_singleton.
  - exists []. by rewrite app_nil_r.
  - exists []. by rewrite app_nil_r.
Qed.

End conversion.

(** X9. A conversion changes no file but its own: whatever the backend
    answers and wherever the deadline falls, every path other than the
    output path and its temporary chunk files [output.chunk_i.mp3] holds
    when [text_to_mp3_optimized] ends what it held before, and still does
    once the thread that a timeout left behind has run to its end. *)
Theorem conversion_changes_own_files_only (text output_path language : string)
    (timeout : Z) (w w' : world) (r : exn + unit) (thread : thread_state)
    (p : string) :
  text_to_mp3_optimized text output_path language timeout w = (r, thread, w') ->
  p <> output_path ->
  (forall i : Z, p <> temp_file_name output_path i) ->
  fs w' !! p = fs w !! p
  /\ fs (settled thread w') !! p = fs w !! p.
Proof.
  intros Hrun Hout Htemp.
  assert (~ own_path output_path p) as Hp.
  { intros [->|[i ->]]; [done|]. by apply (Htemp i). }
  unfold text_to_mp3_optimized, join in Hrun.
  set (w0 := with_result _ w) in Hrun.
  pose proof (all_ops_settled (conversion_op output_path language)
                (fun w1 => fs w1 !! p = fs w !! p) (Z.max 0 timeout)
                (convert text output_path language) w0) as Hinv.
  destruct (join_for _ _ w0) as [th w1].
  assert (th = thread /\ w1 = w') as [-> ->].
  { destruct (is_alive th); [by injection Hrun|].
    destruct (negb _); by injection Hrun. }
  apply Hinv; [|apply convert_ops|done].
  intros X o w2 Ho <-. by apply (conversion_op_frame output_path language).
Qed.

Lemma conversion_changes_own_files_only_witness :
  let w := initial_world {[ "notes.txt" := [Byte.x00] ]} stalling_backend in
  let '(r, thread, w') := text_to_mp3_optimized "hello" "out.mp3" "en" 900 w in
  fs w' !! "notes.txt" = fs w !! "notes.txt"
  /\ fs (settled thread w') !! "notes.txt" = fs w !! "notes.txt".
Proof.
  intros w.
  destruct (text_to_mp3_optimized "hello" "out.mp3" "en" 900 w)
    as [[r thread] w'] eqn:Hrun.
  apply (conversion_changes_own_files_only _ _ _ _ _ _ _ _ _ Hrun).
  - discriminate.
  - intros i Hi. unfold temp_file_name in Hi.
    rewrite !StrFacts.app_cons in Hi. discriminate.
Defined.

(** X10. What a conversion does at all.  Every event a conversion adds to
    the log, up to the return of [text_to_mp3_optimized] and, after a
    timeout, in what the abandoned thread goes on to do, is one of these: a
    synthesis of at most 1000 characters in the language asked for; a save of
    an object built from such a text (never of [None]) to the output path or
    to a temporary chunk file; the opening of the output path and writes to
    it; reads and removals of temporary chunk files; sleeps of 2 or of 4. *)
Theorem conversion_stays_within_bounds (text output_path language : string)
    (timeout : Z) (w w' : world) (r : exn + unit) (thread : thread_state) :
  text_to_mp3_optimized text output_path language timeout w = (r, thread, w') ->
  exists l l' : list event,
    log w' = log w ++ l
    /\ log (settled thread w') = log w' ++ l'
    /\ Forall (conversion_event output_path language) (l ++ l').
Proof.
  intros Hrun.
  unfold text_to_mp3_optimized, join in Hrun.
  set (w0 := with_result _ w) in Hrun.
  set (I := fun (base w1 : world) =>
              exists l, log w1 = log base ++ l
                        /\ Forall (conversion_event output_path language) l).
  assert (forall base X (o : op X) w1,
            conversion_op output_path language X o ->
            I base w1 -> I base (exec o w1).2) as Hstep.
  { intros base X o w1 Ho (l & Hl & HF).
    destruct (conversion_op_log output_path language o w1 Ho) as (l1 & Hl1 & HF1).
    exists (l ++ l1). split; [by rewrite Hl1, Hl, app_assoc|].
    by apply Forall_app. }
  assert (forall base, I base base) as Hrefl
    by (intros base; exists []; by rewrite app_nil_r).
  pose proof (all_ops_join_for (conversion_op output_path language) (I w0)
                (Z.max 0 timeout) (convert text output_path language) w0
                (Hstep w0) (convert_ops output_path language text) (Hrefl w0))
    as [(l & Hl & HF) Hrest].
  destruct (join_for _ _ w0) as [th w1].
  assert (th = thread /\ w1 = w') as [-> ->].
  { destruct (is_alive th); [by injection Hrun|].
    destruct (negb _); by injection Hrun. }
  simpl in Hl, Hrest. exists l.
  destruct thread as [|rest]; simpl.
  - exists []. rewrite !app_nil_r. done.
  - pose proof (all_ops_run _ (I w') rest w' (Hstep w') Hrest (Hrefl w'))
      as (l' & Hl' & HF').
    exists l'. split; [done|]. split; [done|]. by apply Forall_app.
Qed.

Lemma conversion_stays_within_bounds_witness :
  let w := initial_world ∅ stalling_backend in
  let '(r, thread, w') := text_to_mp3_optimized "hello" "out.mp3" "en" 900 w in
  exists l l' : list event,
    log w' = log w ++ l
    /\ log (settled thread w') = log w' ++ l'
    /\ Forall (conversion_event "out.mp3" "en") (l ++ l').
Proof.
  intros w.
  destruct (text_to_mp3_optimized "hello" "out.mp3" "en" 900 w)
    as [[r thread] w'] eqn:Hrun.
  apply (conversion_stays_within_bounds _ _ _ _ _ _ _ _ Hrun).
Defined.

(** ** The time a conversion takes *)

Lemma elapsed_bind {A B : Type} (p : Prog A) (f : A -> Prog B) (w : world) :
  elapsed (p ≫= f) w
  = elapsed p w
    + match run p w with
      | (inl _, _) => 0
      | (inr a, w') => elapsed (f a) w'
      end.
Proof.
  unfold mbind, Prog_bind. revert w.
  induction p as [a|e|X o k IH]; intros w; simpl; [done|done|].
  destruct (exec o w) as [x w1]. rewrite IH. lia.
Qed.

Lemma elapsed_try_except {A : Type} (p : Prog A) (h : exn -> Prog A)
    (w : world) :
  elapsed (try_except p h) w
  = elapsed p w
    + match run p w with
      | (inl e, w') => elapsed (h e) w'
      | (inr _, _) => 0
      end.
Proof.
  revert w. induction p as [a|e|X o k IH]; intros w; simpl; [done|done|].
  destruct (exec o w) as [x w1]. rewrite IH. lia.
Qed.

(** The assembly takes no time: it neither sleeps nor calls the backend. *)
Lemma elapsed_combine_chunks (out : string) (tfs : list string) (w : world) :
  elapsed (combine_chunks out tfs) w = 0.
Proof.
  unfold combine_chunks. rewrite elapsed_bind. simpl.
  generalize (with_fs (<[out:=[]]> (fs w)) (record (EvOpenWb out) w)).
  induction tfs as [|tf tfs IH]; intros w1; [done|].
  cbn [combine_loop]. rewrite elapsed_bind.
  destruct (run (call (ReadAll tf)) w1) as [[e|data] w2] eqn:Hread.
  - simpl in *. by destruct (fs w1 !! tf), (unreadable w1 tf).
  - assert (elapsed (call (ReadAll tf)) w1 = 0) as ->.
    { simpl. by destruct (fs w1 !! tf), (unreadable w1 tf). }
    rewrite elapsed_bind.
    destruct (run (perform (Write out data)) w2) as [[e|[]] w3] eqn:Hwrite.
    { simpl in Hwrite. by destruct (fs w2 !! out). }
    assert (elapsed (perform (Write out data)) w2 = 0) as ->.
    { simpl. by destruct (fs w2 !! out). }
    rewrite elapsed_bind.
    assert (elapsed (call (Remove tf)) w3 = 0) as ->.
    { simpl. by destruct (fs w3 !! tf). }
    destruct (run (call (Remove tf)) w3) as [[e|[]] w4]; [done|].
    rewrite IH. done.
Qed.

Section prompt.
Context (L : Z) (audio : nat -> bytes).

Lemma elapsed_synthesize_and_persist (text language path : string) (w : world) :
  prompt L audio w -> elapsed (synthesize_and_persist text language path) w <= 2 * L.
Proof.
  intros [Hok Hlat]. unfold synthesize_and_persist, create_tts_with_retry,
    save_tts_with_retry, default_max_retries.
  rewrite range_3. simpl. rewrite !Hok. simpl. rewrite Hok. simpl.
  pose proof (Hlat (calls w)). pose proof (Hlat (S (calls w))). lia.
Qed.

Lemma elapsed_synthesize_chunks (out language : string) (n : Z)
    (l : list string) (i : Z) (tfs : list string) (w : world) :
  prompt L audio w ->
  elapsed (synthesize_chunks out language n (enumerate_from i l) tfs) w
  <= (2 * L + 2) * Z.of_nat (length l).
Proof.
  revert i tfs w. induction l as [|chunk l IH]; intros i tfs w Hw; [simpl; lia|].
  cbn [enumerate_from].
  rewrite synthesize_chunks_cons, elapsed_bind, process_chunk_runs.
  unfold process_chunk. rewrite elapsed_bind.
  pose proof (elapsed_synthesize_and_persist chunk language
                (temp_file_name out i) w Hw) as Hsp.
  destruct Hw as [Hok Hlat].
  destruct (synthesize_and_persist_succeeds chunk language
              (temp_file_name out i) w audio Hok)
    as (w1 & -> & _ & _ & Hb1 & _).
  rewrite elapsed_bind.
  set (w2 := if decide (i < n - 1) then record (EvSleep chunk_delay) w1 else w1).
  assert (backend w2 = backend w1) as Hb2
    by (subst w2; by destruct (decide (i < n - 1))).
  specialize (IH (i + 1) (tfs ++ [temp_file_name out i]) w2).
  assert (elapsed (if decide (i < n - 1) then perform (Sleep chunk_delay)
                   else Ret tt) w1 <= 2) as Hsleep.
  { destruct (decide (i < n - 1)); simpl; unfold chunk_delay; lia. }
  assert (match run (if decide (i < n - 1) then perform (Sleep chunk_delay)
                     else Ret tt) w1 with
          | (inl _, _) => 0
          | (inr a, w') => elapsed (Ret (tfs ++ [temp_file_name out i])) w'
          end = 0) as ->.
  { by destruct (decide (i < n - 1)). }
  assert (prompt L audio w2) as Hw2.
  { unfold prompt, all_succeed. rewrite Hb2, Hb1. done. }
  specialize (IH Hw2).
  replace (Z.of_nat (length (chunk :: l))) with (Z.of_nat (length l) + 1)
    by (simpl; lia).
  lia.
Qed.

Lemma elapsed_convert (text out language : string) (w : world) :
  prompt L audio w ->
  elapsed (convert text out language) w
  <= (2 * L + 2) * Z.max 1 (chunk_count (Str.len text)).
Proof.
  intros Hw. unfold convert. rewrite elapsed_try_except.
  change (convert_body text out language)
    with (conversion_work text out language;; perform SetSuccess).
  rewrite elapsed_bind.
  assert (elapsed (conversion_work text out language) w
          <= (2 * L + 2) * Z.max 1 (chunk_count (Str.len text))) as Hwork.
  { unfold conversion_work. case_decide as Hlong.
    - cbv zeta. rewrite elapsed_bind.
      assert (elapsed (synthesize_chunks out language
                         (Z.of_nat (length (chunks text)))
                         (enumerate_from 0 (chunks text)) []) w
              <= (2 * L + 2) * chunk_count (Str.len text)) as Hsyn.
      { rewrite <- (length_chunks text).
        by apply elapsed_synthesize_chunks. }
      unfold enumerate.
      assert (0 <= 2 * L + 2).
      { destruct Hw as [_ Hlat]. specialize (Hlat 0%nat). lia. }
      assert (match run (synthesize_chunks out language
                           (Z.of_nat (length (chunks text)))
                           (enumerate_from 0 (chunks text)) []) w with
              | (inl _, _) => 0
              | (inr a, w') => elapsed (combine_chunks out a) w'
              end = 0) as ->.
      { destruct (run _ w) as [[e|tfs] w1]; [done|].
        apply elapsed_combine_chunks. }
      assert ((2 * L + 2) * chunk_count (Str.len text)
              <= (2 * L + 2) * Z.max 1 (chunk_count (Str.len text)))
        by (apply Z.mul_le_mono_nonneg_l; lia).
      lia.
    - pose proof (elapsed_synthesize_and_persist text language out w Hw).
      destruct Hw as [_ Hlat]. specialize (Hlat 0%nat).
      assert ((2 * L + 2) * 1
              <= (2 * L + 2) * Z.max 1 (chunk_count (Str.len text)))
        by (apply Z.mul_le_mono_nonneg_l; lia).
      lia. }
  rewrite run_bind.
  destruct (run (conversion_work text out language) w) as [[e|[]] w1];
    simpl; lia.
Qed.

End prompt.

(** X11. A backend that never fails and answers every call within 13
    time units is never timed out by the handler's 900.  Whatever the
    extracted text, the conversion of its capped form has at most 31 chunks;
    each takes two calls and, but for the last, one delay of 2; so the thread
    has finished when the supervisor looks, and what it reports is not the
    timeout. *)
Theorem prompt_backend_is_not_timed_out (raw output_path language : string)
    (w : world) (audio : nat -> bytes) :
  all_succeed w audio ->
  (forall k, Z.of_N (latency (backend w k)) <= 13) ->
  let p := convert (cap_text raw) output_path language in
  let w0 := with_result {| success := false; error := None |} w in
  elapsed p w0 <= 868
  /\ exists r,
       text_to_mp3_optimized (cap_text raw) output_path language
         conversion_timeout w
       = (r, Finished, (run p w0).2)
       /\ r <> inl (TimeoutError conversion_timeout).
Proof.
  intros Hok Hlat p w0.
  assert (elapsed p w0 <= 868) as Htime.
  { pose proof (elapsed_convert 13 audio (cap_text raw) output_path language w0
                  (conj Hok Hlat)) as H.
    pose proof (chunk_count_capped raw) as Hn.
    assert (14 * Z.max 1 (chunk_count (Str.len (cap_text raw))) <= 14 * 31)
      by (apply Z.mul_le_mono_nonneg_l; lia).
    subst p. lia. }
  split; [done|].
  unfold text_to_mp3_optimized, join. fold w0. fold p.
  rewrite (join_for_finished p _ w0) by (unfold conversion_timeout; lia).
  simpl. destruct (success (result (run p w0).2)); simpl.
  - by eexists.
  - eexists. split; [done|]. intros H.
    apply (TimeoutError_ne_ConversionError conversion_timeout
             (error (result (run p w0).2))).
    congruence.
Qed.

Lemma prompt_backend_is_not_timed_out_witness :
  let w := initial_world ∅ (constant_backend
             {| latency := 13; result_of := Succeeds [Byte.x01] |}) in
  let p := convert (cap_text "hello world") "out.mp3" "en" in
  let w0 := with_result {| success := false; error := None |} w in
  elapsed p w0 <= 868
  /\ exists r,
       text_to_mp3_optimized (cap_text "hello world") "out.mp3" "en"
         conversion_timeout w
       = (r, Finished, (run p w0).2)
       /\ r <> inl (TimeoutError conversion_timeout).
Proof.
  intros w.
  apply (prompt_backend_is_not_timed_out "hello world" "out.mp3" "en" w
           (fun _ => [Byte.x01])).
  - intros k. reflexivity.
  - intros k. simpl. lia.
Defined.

(** ** The upload handler: a normal form *)

Lemma allowed_file_nonempty (name : string) :
  allowed_file name = true -> name <> "".
Proof. by intros H ->. Qed.

Lemma stored_spec (env : Env) (file : upload) (w : world) :
  let pdf_path := pdf_path_of env file in
  fs (stored env file w) = <[pdf_path := stream file]> (fs w)
  /\ log (stored env file w)
     = log w ++ [EvOpenWb pdf_path; EvWrite pdf_path (stream file)]
  /\ calls (stored env file w) = calls w
  /\ backend (stored env file w) = backend w
  /\ unreadable (stored env file w) = unreadable w
  /\ result (stored env file w) = result w.
Proof.
  intros pdf_path. split; [apply saved_upload|].
  unfold stored. simpl. rewrite lookup_insert_eq. simpl.
  by rewrite <- app_assoc.
Qed.

Lemma unstored_spec (env : Env) (file : upload) (w : world) :
  let pdf_path := pdf_path_of env file in
  exec (Remove pdf_path) (stored env file w) = (inr tt, unstored env file w)
  /\ fs (unstored env file w) = delete pdf_path (fs w)
  /\ log (unstored env file w)
     = log w ++ [EvOpenWb pdf_path; EvWrite pdf_path (stream file);
                 EvRemove pdf_path]
  /\ calls (unstored env file w) = calls w
  /\ backend (unstored env file w) = backend w
  /\ unreadable (unstored env file w) = unreadable w
  /\ result (unstored env file w) = result w.
Proof.
  intros pdf_path.
  destruct (stored_spec env file w) as (Hfs & Hlog & Hc & Hb & Hu & Hr).
  fold pdf_path in Hfs, Hlog.
  unfold unstored. fold pdf_path.
  assert (fs (stored env file w) !! pdf_path = Some (stream file)) as Hthere
    by (rewrite Hfs; apply lookup_insert_eq).
  simpl. rewrite Hthere. simpl.
  rewrite Hfs, Hlog, <- app_assoc. simpl.
  by rewrite delete_insert_eq.
Qed.

(** The handler up to the conversion, for an upload that has passed the
    checks of its name and size. *)
Lemma upload_prepare_stored (env : Env) (req : request) (file : upload)
    (w : world) :
  files_file req = Some file ->
  allowed_file (filename file) = true ->
  file_size file <= max_size ->
  let pdf_path := pdf_path_of env file in
  let opened :=
    if unreadable w pdf_path
    then inl (fitz_open_error env (PermissionError pdf_path))
    else fitz_open env (stream file) in
  upload_prepare env req w
  = match opened with
    | inl _ =>
        (Respond (bad_request "Invalid PDF file format"), unstored env file w)
    | inr pages =>
        if decide (Z.of_nat (length pages) = 0)
        then (Respond (bad_request "Invalid PDF file - no pages found"),
              unstored env file w)
        else
          match get_texts pages "" with
          | inl e =>
              (Raised (Exception ("Error reading PDF: " +:+ str e)) pdf_path,
               stored env file w)
          | inr raw =>
              if is_blank raw
              then (Respond (bad_request "The PDF contains no readable text. Please ensure your PDF has text content, not just images."),
                    unstored env file w)
              else (Ready (cap_text raw) pdf_path (mp3_filename_of env file)
                          (mp3_path_of env file) (choose_language req),
                    stored env file w)
          end
    end.
Proof.
  intros Hfile Hallowed Hsize pdf_path opened.
  unfold upload_prepare. rewrite Hfile.
  rewrite decide_False by by apply allowed_file_nonempty.
  rewrite Hallowed. simpl negb. cbv iota.
  rewrite decide_False by lia. cbv zeta.
  fold pdf_path. change (exec (Write pdf_path (stream file)) _).2
    with (stored env file w).
  destruct (stored_spec env file w) as (Hfs & _ & _ & _ & Hu & _).
  destruct (unstored_spec env file w) as (Hrm & _). fold pdf_path in Hfs, Hrm.
  assert (open_document env pdf_path (stored env file w) = opened) as Hopen.
  { unfold open_document. rewrite Hfs, lookup_insert_eq. by rewrite Hu. }
  unfold validate_pdf, pdf_to_text. rewrite Hopen.
  destruct opened as [e|pages]; [by rewrite Hrm|].
  case_decide; [by rewrite Hrm|]. rewrite Hopen.
  destruct (get_texts pages "") as [e|raw]; [done|].
  destruct (is_blank raw); [by rewrite Hrm|done].
Qed.

(** ** The upload handler: refusals *)

(** X13. An upload that is not named as a PDF, or that is larger than
    the limit, and a request without a file, are answered with a 400 before
    anything is stored: the world is exactly as it was, and no thread is
    started. *)
Theorem refused_upload_is_not_stored (env : Env) (req : request) (w : world) :
  (forall file, files_file req = Some file ->
     allowed_file (filename file) = false \/ file_size file > max_size) ->
  exists msg,
    upload_file env req w = (bad_request msg, Finished, w)
    /\ msg ∈ ["No file uploaded"; "No file selected";
              "Only PDF files are allowed"; "File size must be less than 10MB"].
Proof.
  intros Hreq. unfold upload_file, upload_prepare.
  destruct (files_file req) as [file|].
  2:{ eexists. split; [reflexivity|]. rewrite !elem_of_cons; auto 10. }
  case_decide.
  { eexists. split; [reflexivity|]. rewrite !elem_of_cons; auto 10. }
  destruct (allowed_file (filename file)) eqn:Hallowed; simpl.
  2:{ eexists. split; [reflexivity|]. rewrite !elem_of_cons; auto 10. }
  destruct (Hreq file eq_refl) as [?|Hsize]; [congruence|].
  rewrite decide_True by done.
  eexists. split; [reflexivity|]. rewrite !elem_of_cons; auto 10.
Qed.

Lemma refused_upload_is_not_stored_witness :
  let w := initial_world ∅ (constant_backend
             {| latency := 1; result_of := Succeeds [] |}) in
  exists msg,
    upload_file test_env (request_of oversized_text_file) w
    = (bad_request msg, Finished, w)
    /\ msg ∈ ["No file uploaded"; "No file selected";
              "Only PDF files are allowed"; "File size must be less than 10MB"].
Proof.
  intros w. apply (refused_upload_is_not_stored test_env _ w).
  intros file [= <-]. left. reflexivity.
Defined.

(** X14. A stored upload that cannot be opened as a document is answered
    with 400 'Invalid PDF file format'; one that opens with no page with 400
    'Invalid PDF file - no pages found'; one whose pages all give their
    texts, but nothing except white space, with 400 'The PDF contains no
    readable text...'.  In each case the stored upload has been removed
    again, no other file has changed, the backend has not been called and no
    thread is started. *)
Theorem unusable_pdf_is_refused_and_removed (env : Env) (req : request)
    (file : upload) (w : world) (msg : string) :
  files_file req = Some file ->
  allowed_file (filename file) = true ->
  file_size file <= max_size ->
  unreadable w (pdf_path_of env file) = false ->
  ((exists e, fitz_open env (stream file) = inl e)
   /\ msg = "Invalid PDF file format")
  \/ (fitz_open env (stream file) = inr []
      /\ msg = "Invalid PDF file - no pages found")
  \/ ((exists texts, texts <> []
         /\ fitz_open env (stream file) = inr (inr <$> texts)
         /\ is_blank (Str.join texts) = true)
      /\ msg = "The PDF contains no readable text. Please ensure your PDF has text content, not just images.") ->
  exists w',
    upload_file env req w = (bad_request msg, Finished, w')
    /\ fs w' = delete (pdf_path_of env file) (fs w)
    /\ log w' = log w ++ [EvOpenWb (pdf_path_of env file);
                          EvWrite (pdf_path_of env file) (stream file);
                          EvRemove (pdf_path_of env file)]
    /\ calls w' = calls w.
Proof.
  intros Hfile Hallowed Hsize Hread Hcause.
  exists (unstored env file w).
  destruct (unstored_spec env file w) as (_ & Hfs & Hlog & Hcalls & _).
  split; [|done].
  unfold upload_file.
  rewrite (upload_prepare_stored env req file w Hfile Hallowed Hsize).
  rewrite Hread.
  destruct Hcause as [[[e ->] ->]|[[-> ->]|[(texts & Hne & -> & Hblank) ->]]].
  - done.
  - done.
  - rewrite decide_False.
    2:{ rewrite length_fmap. destruct texts; [done|]. simpl. lia. }
    assert (get_texts (inr <$> texts) "" = inr (Str.join texts)) as ->.
    { apply get_texts_ok. exists texts. by rewrite StrFacts.app_nil_l. }
    by rewrite Hblank.
Qed.

Lemma unusable_pdf_is_refused_and_removed_witness :
  let w := initial_world ∅ (constant_backend
             {| latency := 1; result_of := Succeeds [] |}) in
  let file := upload_of "scan.pdf" "   " in
  exists w',
    upload_file test_env (request_of file) w
    = (bad_request "The PDF contains no readable text. Please ensure your PDF has text content, not just images.",
       Finished, w')
    /\ fs w' = delete (pdf_path_of test_env file) (fs w)
    /\ log w' = log w ++ [EvOpenWb (pdf_path_of test_env file);
                          EvWrite (pdf_path_of test_env file) (stream file);
                          EvRemove (pdf_path_of test_env file)]
    /\ calls w' = calls w.
Proof.
  intros w file.
  apply (unusable_pdf_is_refused_and_removed test_env (request_of file) file w).
  - reflexivity.
  - reflexivity.
  - vm_compute. discriminate.
  - reflexivity.
  - right. right. split; [|reflexivity].
    exists ["   "]. split; [discriminate|]. split; reflexivity.
Defined.

(** X15. When the stored upload opens as a document with at least one
    page but some page fails to give its text, the handler answers 500 with
    the message 'An error occurred during conversion: Error reading PDF: '
    followed by the message of the first failing page; the stored upload has
    been removed, no other file has changed and the backend has not been
    called. *)
Theorem failing_page_is_a_500 (env : Env) (req : request) (file : upload)
    (w : world) (texts : list string) (cause : exn)
    (rest : list (exn + string)) :
  files_file req = Some file ->
  allowed_file (filename file) = true ->
  file_size file <= max_size ->
  unreadable w (pdf_path_of env file) = false ->
  fitz_open env (stream file) = inr ((inr <$> texts) ++ inl cause :: rest) ->
  exists w',
    upload_file env req w
    = ({| json := ErrorBody ("An error occurred during conversion: "
                             +:+ "Error reading PDF: " +:+ str cause);
          status := 500 |}, Finished, w')
    /\ fs w' = delete (pdf_path_of env file) (fs w)
    /\ calls w' = calls w.
Proof.
  intros Hfile Hallowed Hsize Hread Hfitz.
  destruct (stored_spec env file w) as (Hfs & _ & Hc & _).
  destruct (unstored_spec env file w) as (Hrm & Hfs' & _ & Hc' & _).
  unfold upload_file.
  rewrite (upload_prepare_stored env req file w Hfile Hallowed Hsize).
  rewrite Hread, Hfitz.
  rewrite decide_False by (rewrite length_app; simpl; lia).
  assert (get_texts ((inr <$> texts) ++ inl cause :: rest) "" = inl cause) as ->
    by (apply get_texts_error; eauto).
  unfold on_exception, cleanup, path_exists.
  rewrite bool_decide_eq_true_2
    by (rewrite Hfs, lookup_insert_eq; eauto).
  rewrite Hrm. eexists. split; [reflexivity|]. done.
Qed.

Lemma failing_page_is_a_500_witness :
  let env := {| root_path := "/app"; unique_id := "0f8fad5b";
                secure_filename := fun s => s;
                splitext_root := fun s => Str.prefix s (Str.len s - 4);
                fitz_open := fun _ =>
                  inr [inr "page one"; inl (Exception "bad page"); inr "x"];
                fitz_open_error := fun reason => reason |} in
  let w := initial_world ∅ (constant_backend
             {| latency := 1; result_of := Succeeds [] |}) in
  let file := upload_of "talk.pdf" "hello" in
  exists w',
    upload_file env (request_of file) w
    = ({| json := ErrorBody ("An error occurred during conversion: "
                             +:+ "Error reading PDF: " +:+ "bad page");
          status := 500 |}, Finished, w')
    /\ fs w' = delete (pdf_path_of env file) (fs w)
    /\ calls w' = calls w.
Proof.
  intros env w file.
  apply (failing_page_is_a_500 env (request_of file) file w ["page one"]
           (Exception "bad page") [inr "x"]).
  - reflexivity.
  - reflexivity.
  - vm_compute. discriminate.
  - reflexivity.
  - reflexivity.
Defined.

(** ** Conversions as the handler sees them *)

Lemma join_for_Finished (p : Prog unit) (budget : Z) (w w' : world) :
  join_for budget p w = (Finished, w') -> (run p w).2 = w'.
Proof.
  revert budget w. induction p as [a|e|X o k IH]; intros budget w; simpl.
  - by intros [= <-].
  - by intros [= <-].
  - case_decide; [|done]. destruct (exec o w) as [x w1]. apply IH.
Qed.

Lemma text_to_mp3_optimized_join (text output_path language : string)
    (timeout : Z) (w w' : world) (r : exn + unit) (thread : thread_state) :
  text_to_mp3_optimized text output_path language timeout w = (r, thread, w') ->
  join_for (Z.max 0 timeout) (convert text output_path language)
           (with_result {| success := false; error := None |} w)
  = (thread, w')
  /\ (r = inr tt -> thread = Finished /\ success (result w') = true).
Proof.
  unfold text_to_mp3_optimized, join.
  destruct (join_for _ _ _) as [th w1].
  destruct th as [|rest]; simpl.
  - destruct (success (result w1)) eqn:Hs; simpl; intros [= <- <- <-]; auto.
    split; [done|]. done.
  - intros [= <- <- <-]. split; [done|]. done.
Qed.

(** An invariant that the operations of a conversion keep holds when
    [text_to_mp3_optimized] ends, and what a timeout leaves of the thread
    performs such operations only. *)
Lemma conversion_invariant (I : world -> Prop)
    (text output_path language : string) (timeout : Z) (w w' : world)
    (r : exn + unit) (thread : thread_state) :
  (forall X (o : op X) w,
     conversion_op output_path language X o -> I w -> I (exec o w).2) ->
  text_to_mp3_optimized text output_path language timeout w = (r, thread, w') ->
  I (with_result {| success := false; error := None |} w) ->
  I w'
  /\ match thread with
     | Finished => True
     | Alive rest => all_ops (conversion_op output_path language) rest
     end.
Proof.
  intros Hstep [Hjoin _]%text_to_mp3_optimized_join Hw.
  pose proof (all_ops_join_for _ I (Z.max 0 timeout) _ _ Hstep
                (convert_ops output_path language text) Hw) as Hinv.
  by rewrite Hjoin in Hinv.
Qed.

(** When [text_to_mp3_optimized] returns, the thread has finished with
    success and the output file is there. *)
Lemma conversion_returns (text output_path language : string) (timeout : Z)
    (w w' : world) (thread : thread_state) :
  text_to_mp3_optimized text output_path language timeout w
  = (inr tt, thread, w') ->
  thread = Finished /\ is_Some (fs w' !! output_path).
Proof.
  intros [Hjoin Hret]%text_to_mp3_optimized_join.
  destruct (Hret eq_refl) as [-> Hsuccess]. split; [done|].
  apply join_for_Finished in Hjoin. rewrite run_convert in Hjoin.
  destruct (run (conversion_work _ _ _) _) as [[e|[]] w1] eqn:Hwork;
    simpl in Hjoin; subst w'; [done|].
  simpl. by eapply conversion_work_output.
Qed.

(** Uploads are not among the files of a conversion. *)
Lemma pdf_path_not_own (env : Env) (file : upload) :
  ~ own_path (mp3_path_of env file) (pdf_path_of env file).
Proof.
  intros [H|[i H]]; [by apply pdf_path_ne_mp3_path in H|].
  revert H.
  unfold temp_file_name, pdf_path_of, mp3_path_of, path_join, UPLOAD_FOLDER,
    OUTPUT_FOLDER.
  rewrite !StrFacts.app_assoc. intros H.
  apply (inj (String.append (root_path env))) in H.
  discriminate H.
Qed.

Lemma cleanup_removes_upload (pdf_path : string) (mp3_path : option string)
    (w : world) :
  (forall p, mp3_path = Some p -> p <> pdf_path) ->
  fs (cleanup pdf_path mp3_path w) !! pdf_path = None.
Proof.
  intros Hne. unfold cleanup, path_exists.
  destruct (bool_decide (is_Some (fs w !! pdf_path))) eqn:Hpdf.
  - apply bool_decide_eq_true in Hpdf.
    destruct (remove_existing pdf_path w Hpdf) as (w1 & -> & Hfs1).
    assert (fs w1 !! pdf_path = None) as Hgone
      by (rewrite Hfs1; apply lookup_delete_eq).
    destruct mp3_path as [mp3|]; [|done].
    destruct (bool_decide (is_Some (fs w1 !! mp3))); [|done].
    rewrite remove_frame; [done|]. intros E. by apply (Hne mp3).
  - apply bool_decide_eq_false in Hpdf.
    assert (fs w !! pdf_path = None) as Hgone by by apply eq_None_not_Some.
    destruct mp3_path as [mp3|]; [|done].
    destruct (bool_decide (is_Some (fs w !! mp3))); [|done].
    rewrite remove_frame; [done|]. intros E. by apply (Hne mp3).
Qed.

Lemma cleanup_frame_both (pdf_path : string) (mp3_path : option string)
    (p : string) (w : world) :
  p <> pdf_path -> (forall mp3, mp3_path = Some mp3 -> p <> mp3) ->
  fs (cleanup pdf_path mp3_path w) !! p = fs w !! p.
Proof.
  intros Hp Hmp3. unfold cleanup.
  assert (forall w0 : world,
            fs (if path_exists pdf_path w0 then exec (Remove pdf_path) w0
                else (inr tt, w0)).2 !! p = fs w0 !! p) as H1.
  { intros w0. destruct (path_exists pdf_path w0); [|done].
    by apply remove_frame. }
  specialize (H1 w).
  destruct (if path_exists pdf_path w then _ else _) as [[e|[]] w1];
    simpl in H1; [done|].
  destruct mp3_path as [mp3|]; [|done].
  destruct (path_exists mp3 w1); [|done].
  rewrite remove_frame by by apply Hmp3. done.
Qed.

(** What lies behind an answer of success. *)
Lemma upload_file_200 (env : Env) (req : request) (w w' : world)
    (r : response) (thread : thread_state) :
  upload_file env req w = (r, thread, w') ->
  status r = 200 ->
  exists (file : upload) (raw : string) (w1 w2 : world),
    files_file req = Some file
    /\ upload_prepare env req w
       = (Ready (cap_text raw) (pdf_path_of env file) (mp3_filename_of env file)
                (mp3_path_of env file) (choose_language req), w1)
    /\ text_to_mp3_optimized (cap_text raw) (mp3_path_of env file)
         (choose_language req) conversion_timeout w1
       = (inr tt, thread, w2)
    /\ exec (Remove (pdf_path_of env file)) w2 = (inr tt, w')
    /\ r = {| json := SuccessBody (mp3_filename_of env file)
                                  (Str.len (cap_text raw));
              status := 200 |}.
Proof.
  unfold upload_file.
  destruct (upload_prepare env req w) as [[r0|e pdf|text pdf name mp3 lang] w1]
    eqn:Hprep.
  - intros [= <- <- <-] Hst.
    apply upload_prepare_respond in Hprep. congruence.
  - unfold on_exception. by intros [= <- <- <-].
  - destruct (upload_prepare_ready _ _ _ _ _ _ _ _ _ Hprep)
      as (file & pages & raw & Hfile & _ & _ & _ & _ & _ & _ & -> & -> & ->
          & -> & -> & Hfs1).
    destruct (text_to_mp3_optimized _ _ _ _ w1) as [[[e|[]] th] w2] eqn:Hconv.
    { unfold on_exception. by intros [= <- <- <-]. }
    destruct (exec (Remove (pdf_path_of env file)) w2) as [[e|[]] w3] eqn:Hrm.
    { unfold on_exception. by intros [= <- <- <-]. }
    intros [= <- <- <-] _. exists file, raw, w1, w2. done.
Qed.

(** After a successful request the destination is there. *)
Lemma upload_file_200_output (env : Env) (file : upload) (text language : string)
    (w1 w2 w' : world) (thread : thread_state) :
  text_to_mp3_optimized text (mp3_path_of env file) language
    conversion_timeout w1 = (inr tt, thread, w2) ->
  exec (Remove (pdf_path_of env file)) w2 = (inr tt, w') ->
  thread = Finished
  /\ success (result w') = true
  /\ is_Some (fs w' !! mp3_path_of env file)
  /\ fs w' !! pdf_path_of env file = None
  /\ unreadable w' = unreadable w2.
Proof.
  intros Hconv Hrm.
  destruct (conversion_returns _ _ _ _ _ _ _ Hconv) as [-> Hout].
  apply text_to_mp3_optimized_join in Hconv as [_ Hret].
  destruct (Hret eq_refl) as [_ Hsuccess].
  pose proof (remove_frame (pdf_path_of env file) (mp3_path_of env file) w2)
    as Hframe.
  rewrite Hrm in Hframe. simpl in Hframe.
  simpl in Hrm. destruct (fs w2 !! pdf_path_of env file) eqn:Hpdf; [|done].
  injection Hrm as <-. simpl in *.
  split; [done|]. split; [done|]. split.
  - rewrite Hframe; [done|]. intros E. by apply (pdf_path_ne_mp3_path env file).
  - split; [apply lookup_delete_eq|done].
Qed.

(** ** The upload handler: what a request leaves behind *)

(** X16. The uploaded file never stays.  Whatever the answer of the
    handler, the path under which the upload was stored, free before the
    request, holds no file when the handler returns, and none once the
    thread that a timeout left behind has run to its end. *)
Theorem upload_is_never_left_behind (env : Env) (req : request)
    (file : upload) (w w' : world) (r : response) (thread : thread_state) :
  files_file req = Some file ->
  fs w !! pdf_path_of env file = None ->
  upload_file env req w = (r, thread, w') ->
  fs w' !! pdf_path_of env file = None
  /\ fs (settled thread w') !! pdf_path_of env file = None.
Proof.
  intros Hfile Hfresh.
  set (pdf := pdf_path_of env file) in *.
  destruct (allowed_file (filename file)) eqn:Hallowed.
  2:{ unfold upload_file, upload_prepare. rewrite Hfile.
      case_decide; [by intros [= <- <- <-]|].
      rewrite Hallowed. by intros [= <- <- <-]. }
  destruct (decide (file_size file > max_size)) as [Hbig|Hsize].
  { unfold upload_file, upload_prepare. rewrite Hfile, Hallowed.
    rewrite decide_False by by apply allowed_file_nonempty.
    simpl negb. cbv iota. rewrite decide_True by done.
    by intros [= <- <- <-]. }
  destruct (stored_spec env file w) as (Hfs & _).
  destruct (unstored_spec env file w) as (_ & Hfs' & _).
  fold pdf in Hfs, Hfs'.
  assert (fs (unstored env file w) !! pdf = None) as Hgone
    by (rewrite Hfs'; apply lookup_delete_eq).
  unfold upload_file.
  rewrite (upload_prepare_stored env req file w Hfile Hallowed) by lia.
  fold pdf.
  destruct (if unreadable w pdf then _ else _) as [e|pages];
    [by intros [= <- <- <-]|].
  case_decide; [by intros [= <- <- <-]|].
  destruct (get_texts pages "") as [e|raw].
  { unfold on_exception. intros [= <- <- <-]. simpl.
    split; by apply cleanup_removes_upload. }
  destruct (is_blank raw); [by intros [= <- <- <-]|].
  set (mp3 := mp3_path_of env file).
  assert (~ own_path mp3 pdf) as Hown by apply pdf_path_not_own.
  assert (mp3 <> pdf) as Hne by (intros E; apply Hown; by left).
  destruct (text_to_mp3_optimized _ _ _ _ _) as [[res th] w2] eqn:Hconv.
  destruct (conversion_invariant
              (fun w1 => fs w1 !! pdf = fs (stored env file w) !! pdf)
              _ _ _ _ _ _ _ _
              (fun X o w1 Ho Hw1 =>
                 eq_trans (conversion_op_frame mp3 _ o w1 pdf Ho Hown) Hw1)
              Hconv eq_refl) as [Hkept Hrest].
  assert (forall w3 : world,
            fs w3 !! pdf = None -> fs (settled th w3) !! pdf = None) as Hsettled.
  { intros w3 Hw3. destruct th as [|rest]; [done|]. simpl.
    apply (all_ops_run (conversion_op mp3 (choose_language req))
             (fun w4 => fs w4 !! pdf = None) rest w3); [|done|done].
    intros X o w4 Ho <-. by apply (conversion_op_frame mp3 (choose_language req)). }
  destruct res as [e|[]].
  - unfold on_exception. intros [= <- <- <-].
    assert (fs (cleanup pdf (Some mp3) w2) !! pdf = None) as Hclean.
    { apply cleanup_removes_upload. by intros p [= <-]. }
    split; [done|]. by apply Hsettled.
  - assert (is_Some (fs w2 !! pdf)) as Hthere.
    { rewrite Hkept, Hfs, lookup_insert_eq. eauto. }
    destruct (remove_existing pdf w2 Hthere) as (w3 & -> & Hfs3).
    intros [= <- <- <-].
    assert (fs w3 !! pdf = None) as H3 by (rewrite Hfs3; apply lookup_delete_eq).
    split; [done|]. by apply Hsettled.
Qed.

Lemma upload_is_never_left_behind_witness :
  let w := initial_world ∅ stalling_backend in
  let file := upload_of "talk.pdf" "hello world" in
  let '(r, thread, w') := upload_file test_env (request_of file) w in
  fs w' !! pdf_path_of test_env file = None
  /\ fs (settled thread w') !! pdf_path_of test_env file = None.
Proof.
  intros w file.
  destruct (upload_file test_env (request_of file) w) as [[r thread] w'] eqn:Hup.
  apply (upload_is_never_left_behind test_env (request_of file) file w w' r
           thread eq_refl eq_refl Hup).
Defined.

(** ** Temporary files that stay *)

Lemma synthesize_and_persist_stores (text language path : string)
    (w w' : world) :
  run (synthesize_and_persist text language path) w = (inr tt, w') ->
  is_Some (fs w' !! path).
Proof.
  unfold synthesize_and_persist. rewrite run_bind.
  destruct (run (create_tts_with_retry _ _ _) w) as [[e|r] w1] eqn:Hcreate;
    [done|].
  apply may_give_run, may_give_create_tts in Hcreate as ->.
  apply save_tts_stores.
Qed.

(** The chunk loop changes the temporary files of its chunks only. *)
Lemma synthesize_chunks_frame (out language : string) (n i : Z)
    (l : list string) (tfs : list string) (w : world) (p : string) :
  (forall j : nat, (j < length l)%nat -> p <> temp_file_name out (i + Z.of_nat j)) ->
  fs (run (synthesize_chunks out language n (enumerate_from i l) tfs) w).2 !! p
  = fs w !! p.
Proof.
  revert i tfs w. induction l as [|chunk l IH]; intros i tfs w Hp; [done|].
  cbn [enumerate_from].
  rewrite synthesize_chunks_cons, run_bind, process_chunk_runs.
  destruct (synthesize_and_persist_runs chunk language (temp_file_name out i) w)
    as (k1 & k2 & r & w1 & -> & _ & _ & _ & _ & _ & Hfs1 & _).
  assert (fs w1 !! p = fs w !! p) as H1.
  { apply Hfs1. specialize (Hp 0%nat). rewrite Z.add_0_r in Hp.
    apply Hp. simpl. lia. }
  destruct r as [e|[]]; [done|].
  rewrite IH.
  - by destruct (decide (i < n - 1)).
  - intros j Hj. replace (i + 1 + Z.of_nat j) with (i + Z.of_nat (S j)) by lia.
    apply Hp. simpl. lia.
Qed.

(** When the chunk loop ends normally the temporary file of every chunk
    is there. *)
Lemma synthesize_chunks_stores (out language : string) (n i : Z)
    (l : list string) (tfs tfs' : list string) (w w' : world) :
  run (synthesize_chunks out language n (enumerate_from i l) tfs) w
  = (inr tfs', w') ->
  forall j : nat, (j < length l)%nat ->
    is_Some (fs w' !! temp_file_name out (i + Z.of_nat j)).
Proof.
  revert i tfs w. induction l as [|chunk l IH]; intros i tfs w Hrun j Hj;
    [simpl in Hj; lia|].
  revert Hrun. cbn [enumerate_from].
  rewrite synthesize_chunks_cons, run_bind, process_chunk_runs.
  destruct (run (synthesize_and_persist _ _ _) w) as [[e|[]] w1] eqn:Hsp;
    [done|].
  apply synthesize_and_persist_stores in Hsp.
  set (w2 := if decide (i < n - 1) then _ else w1).
  assert (fs w2 = fs w1) as Hfs2 by (subst w2; by destruct (decide (i < n - 1))).
  intros Hrun. destruct j as [|j].
  - pose proof (synthesize_chunks_frame out language n (i + 1) l
                  (tfs ++ [temp_file_name out i]) w2 (temp_file_name out i))
      as Hframe.
    rewrite Hrun in Hframe. simpl in Hframe.
    rewrite Z.add_0_r, Hframe, Hfs2; [done|].
    intros j' _ Heq. apply temp_file_name_inj in Heq. lia.
  - replace (i + Z.of_nat (S j)) with (i + 1 + Z.of_nat j) by lia.
    apply (IH _ _ _ Hrun). simpl in Hj. lia.
Qed.

(** X8. Temporary files that stay.  When a chunk of a long text
    exhausts its attempts, the temporary files of the chunks before it, which
    had been saved, are still there when the conversion has ended; and the
    cleanup of the handler's [except] branch, which removes the upload and
    the destination, leaves them there too. *)
Theorem failed_chunk_leaves_temp_files (text output_path language : string)
    (pdf_path : string) (w wi w' : world) (before after : list string)
    (chunk : string) (tfs : list string) (e : exn) :
  Str.len text > max_chunk_size ->
  chunks text = before ++ chunk :: after ->
  run (synthesize_chunks output_path language
         (Z.of_nat (length (chunks text))) (enumerate before) []) w
  = (inr tfs, wi) ->
  run (synthesize_and_persist chunk language
         (temp_file_name output_path (Z.of_nat (length before)))) wi
  = (inl e, w') ->
  (forall i : Z, pdf_path <> temp_file_name output_path i) ->
  let ended := (run (convert text output_path language) w).2 in
  forall j : nat, (j < length before)%nat ->
    is_Some (fs ended !! temp_file_name output_path (Z.of_nat j))
    /\ is_Some (fs (cleanup pdf_path (Some output_path) ended)
                  !! temp_file_name output_path (Z.of_nat j)).
Proof.
  intros Hlong Hch Hbefore Hfail Hpdf ended j Hj.
  assert (fs ended = fs w') as Hended.
  { subst ended. rewrite run_convert. unfold conversion_work.
    rewrite decide_True by done. cbv zeta. rewrite run_bind.
    unfold enumerate in *. rewrite Hch at 2.
    rewrite enumerate_from_app, synthesize_chunks_app, Hbefore.
    cbn [enumerate_from]. rewrite synthesize_chunks_cons.
    rewrite run_bind, process_chunk_runs. rewrite Z.add_0_l, Hfail. done. }
  assert (is_Some (fs ended !! temp_file_name output_path (Z.of_nat j))) as Hj'.
  { rewrite Hended.
    destruct (synthesize_and_persist_runs chunk language
                (temp_file_name output_path (Z.of_nat (length before))) wi)
      as (k1 & k2 & r & w2 & Hrun2 & _ & _ & _ & _ & _ & Hfs2 & _).
    rewrite Hfail in Hrun2. injection Hrun2 as <- <-.
    rewrite Hfs2 by (intros Heq; apply temp_file_name_inj in Heq; lia).
    pose proof (synthesize_chunks_stores _ _ _ _ _ _ _ _ _ Hbefore j Hj) as H.
    by rewrite Z.add_0_l in H. }
  split; [done|].
  rewrite cleanup_frame_both; [done| |].
  - intros Heq. by apply (Hpdf (Z.of_nat j)).
  - intros mp3 [= <-]. apply temp_file_name_ne_output.
Qed.

Lemma failed_chunk_leaves_temp_files_witness :
  let b := fun n : nat =>
    if decide (n < 2)%nat
    then {| latency := 1; result_of := Succeeds [Byte.x01] |}
    else {| latency := 1; result_of := Fails (BackendError "503") None |} in
  let text := repeat_char "a" 2500 in
  let w := initial_world ∅ b in
  let ended := (run (convert text "out.mp3" "en") w).2 in
  is_Some (fs ended !! temp_file_name "out.mp3" (Z.of_nat 0))
  /\ is_Some (fs (cleanup "up.pdf" (Some "out.mp3") ended)
                !! temp_file_name "out.mp3" (Z.of_nat 0)).
Proof.
  intros b text w.
  pose (chunk := repeat_char "a" 1000).
  destruct (run (synthesize_chunks "out.mp3" "en"
                   (Z.of_nat (length (chunks text))) (enumerate [chunk]) []) w)
    as [r1 wi] eqn:H1.
  assert (r1 = inr ["out.mp3.chunk_0.mp3"]) as ->.
  { vm_compute in H1. by injection H1 as <- _. }
  destruct (run (synthesize_and_persist chunk "en"
                   (temp_file_name "out.mp3" (Z.of_nat (length [chunk])))) wi)
    as [r2 w'] eqn:H2.
  assert (r2 = inl (BackendError "503")) as ->.
  { vm_compute in H1. injection H1 as <-. vm_compute in H2.
    by injection H2 as <- _. }
  assert (Str.len text > max_chunk_size) as Hlong by (vm_compute; reflexivity).
  assert (chunks text = [chunk] ++ chunk :: [repeat_char "a" 500]) as Hch
    by (vm_compute; reflexivity).
  assert (forall i : Z, "up.pdf" <> temp_file_name "out.mp3" i) as Hpdf.
  { intros i Hi. unfold temp_file_name in Hi. vm_compute in Hi. discriminate Hi. }
  apply (failed_chunk_leaves_temp_files text "out.mp3" "en" "up.pdf" w wi w'
           [chunk] [repeat_char "a" 500] chunk ["out.mp3.chunk_0.mp3"]
           (BackendError "503") Hlong Hch H1 H2 Hpdf 0%nat).
  simpl. lia.
Defined.

(** ** The upload handler: what a request touches *)

(** X17. An answer of success means what it says: the handler answers
    200 only when the thread of the conversion has finished with success; the
    file named in the answer is then present in the output folder and the
    stored upload is gone. *)
Theorem success_answer_names_an_existing_file (env : Env) (req : request)
    (w w' : world) (r : response) (thread : thread_state) :
  upload_file env req w = (r, thread, w') ->
  status r = 200 ->
  exists (file : upload) (text_length : Z),
    files_file req = Some file
    /\ json r = SuccessBody (mp3_filename_of env file) text_length
    /\ thread = Finished
    /\ success (result w') = true
    /\ is_Some (fs w' !! path_join (path_join (root_path env) OUTPUT_FOLDER)
                                   (mp3_filename_of env file))
    /\ fs w' !! pdf_path_of env file = None.
Proof.
  intros Hup Hst.
  destruct (upload_file_200 _ _ _ _ _ _ Hup Hst)
    as (file & raw & w1 & w2 & Hfile & _ & Hconv & Hrm & ->).
  destruct (upload_file_200_output _ _ _ _ _ _ _ _ Hconv Hrm)
    as (-> & Hsuccess & Hout & Hpdf & _).
  by exists file, (Str.len (cap_text raw)).
Qed.

Lemma success_answer_names_an_existing_file_witness :
  let w := initial_world ∅ (constant_backend
             {| latency := 1; result_of := Succeeds [Byte.x01] |}) in
  let file := upload_of "talk.pdf" "hello world" in
  let '(r, thread, w') := upload_file test_env (request_of file) w in
  status r = 200
  /\ exists (f : upload) (text_length : Z),
       files_file (request_of file) = Some f
       /\ json r = SuccessBody (mp3_filename_of test_env f) text_length
       /\ thread = Finished
       /\ success (result w') = true
       /\ is_Some (fs w' !! path_join (path_join (root_path test_env)
                                                 OUTPUT_FOLDER)
                                      (mp3_filename_of test_env f))
       /\ fs w' !! pdf_path_of test_env f = None.
Proof.
  intros w file.
  destruct (upload_file test_env (request_of file) w) as [[r thread] w'] eqn:Hup.
  assert (status r = 200) as Hst.
  { vm_compute in Hup. by injection Hup as <- _ _. }
  split; [exact Hst|].
  apply (success_answer_names_an_existing_file test_env (request_of file)
           w w' r thread Hup Hst).
Defined.

(** X19. A request changes no file but its own, which are the stored
    upload, the destination and the temporary chunk files of the destination:
    every other path holds when the handler returns what it held before, and
    still does once the thread that a timeout left behind has run to its
    end. *)
Theorem request_changes_own_files_only (env : Env) (req : request)
    (file : upload) (w w' : world) (r : response) (thread : thread_state)
    (p : string) :
  files_file req = Some file ->
  upload_file env req w = (r, thread, w') ->
  p <> pdf_path_of env file ->
  p <> mp3_path_of env file ->
  (forall i : Z, p <> temp_file_name (mp3_path_of env file) i) ->
  fs w' !! p = fs w !! p
  /\ fs (settled thread w') !! p = fs w !! p.
Proof.
  intros Hfile Hup Hpdf Hmp3 Htemp.
  assert (~ own_path (mp3_path_of env file) p) as Hown.
  { intros [->|[i ->]]; [done|]. by apply (Htemp i). }
  revert Hup. unfold upload_file.
  destruct (upload_prepare env req w) as [[r0|e pdf|text pdf name mp3 lang] w1]
    eqn:Hprep.
  - intros [= <- <- <-]. simpl.
    rewrite (upload_prepare_frame _ _ _ _ _ _ Hprep); [done|].
    intros file' Hfile'. congruence.
  - unfold on_exception. intros [= <- <- <-]. simpl.
    destruct (upload_prepare_raised _ _ _ _ _ _ Hprep) as (file' & Hfile' & ->).
    assert (file' = file) as -> by congruence.
    rewrite cleanup_frame by done.
    rewrite (upload_prepare_frame _ _ _ _ _ _ Hprep); [done|].
    intros file' Hfile''. congruence.
  - destruct (upload_prepare_ready _ _ _ _ _ _ _ _ _ Hprep)
      as (file' & pages & raw & Hfile' & _ & _ & _ & _ & _ & _ & -> & -> & ->
          & -> & -> & _).
    assert (file' = file) as -> by congruence.
    assert (fs w1 !! p = fs w !! p) as H1.
    { rewrite (upload_prepare_frame _ _ _ _ _ _ Hprep); [done|].
      intros file' Hfile''. congruence. }
    destruct (text_to_mp3_optimized _ _ _ _ w1) as [[res th] w2] eqn:Hconv.
    destruct (conversion_invariant
                (fun w3 => fs w3 !! p = fs w1 !! p)
                _ _ _ _ _ _ _ _
                (fun X o w3 Ho Hw3 =>
                   eq_trans (conversion_op_frame (mp3_path_of env file) _ o w3
                               p Ho Hown) Hw3)
                Hconv eq_refl) as [H2 Hrest].
    assert (forall w3 : world,
              fs w3 !! p = fs w !! p -> fs (settled th w3) !! p = fs w !! p)
      as Hsettled.
    { intros w3 Hw3. destruct th as [|rest]; [done|]. simpl.
      apply (all_ops_run (conversion_op (mp3_path_of env file)
                            (choose_language req))
               (fun w4 => fs w4 !! p = fs w !! p) rest w3); [|done|done].
      intros X o w4 Ho <-.
      by apply (conversion_op_frame (mp3_path_of env file)
                  (choose_language req)). }
    assert (forall w3 : world,
              fs w3 !! p = fs w !! p ->
              fs (cleanup (pdf_path_of env file) (Some (mp3_path_of env file)) w3)
                !! p = fs w !! p) as Hclean.
    { intros w3 Hw3. rewrite cleanup_frame_both; [done|done|].
      by intros mp3 [= <-]. }
    destruct res as [e|[]].
    + unfold on_exception. intros [= <- <- <-]. simpl.
      assert (fs w2 !! p = fs w !! p) by congruence. auto.
    + pose proof (remove_frame (pdf_path_of env file) p w2 Hpdf) as Hrm.
      destruct (exec (Remove (pdf_path_of env file)) w2) as [[e|[]] w3];
        simpl in Hrm; assert (fs w3 !! p = fs w !! p) by congruence.
      * unfold on_exception. intros [= <- <- <-]. simpl. auto.
      * intros [= <- <- <-]. auto.
Qed.

Lemma request_changes_own_files_only_witness :
  let w := initial_world {[ "/app/outputs/older.mp3" := [Byte.x07] ]}
             stalling_backend in
  let file := upload_of "talk.pdf" "hello world" in
  let '(r, thread, w') := upload_file test_env (request_of file) w in
  fs w' !! "/app/outputs/older.mp3" = fs w !! "/app/outputs/older.mp3"
  /\ fs (settled thread w') !! "/app/outputs/older.mp3"
     = fs w !! "/app/outputs/older.mp3".
Proof.
  intros w file.
  destruct (upload_file test_env (request_of file) w) as [[r thread] w'] eqn:Hup.
  apply (request_changes_own_files_only test_env (request_of file) file w w' r
           thread _ eq_refl Hup).
  - vm_compute. discriminate.
  - vm_compute. discriminate.
  - intros i Hi. unfold temp_file_name in Hi. vm_compute in Hi.
    discriminate Hi.
Defined.

(** ** Logs that grow *)

Lemma extends_by_refl (Q : event -> Prop) (w : world) : extends_by Q w w.
Proof. exists []. by rewrite app_nil_r. Qed.

Lemma extends_by_trans (Q : event -> Prop) (w1 w2 w3 : world) :
  extends_by Q w1 w2 -> extends_by Q w2 w3 -> extends_by Q w1 w3.
Proof.
  intros (l1 & H1 & HQ1) (l2 & H2 & HQ2). exists (l1 ++ l2).
  split; [by rewrite H2, H1, app_assoc|]. by apply Forall_app.
Qed.

Lemma extends_by_mono (Q Q' : event -> Prop) (w1 w2 : world) :
  (forall ev, Q ev -> Q' ev) -> extends_by Q w1 w2 -> extends_by Q' w1 w2.
Proof.
  intros HQ (l & Hl & HF). exists l. split; [done|].
  by apply (Forall_impl _ _ _ HF).
Qed.

Lemma extends_by_log (Q : event -> Prop) (w1 w2 : world) (l : list event) :
  log w2 = log w1 ++ l -> Forall Q l -> extends_by Q w1 w2.
Proof. intros. by exists l. Qed.

Lemma choose_language_supported (req : request) :
  choose_language req ∈ supported_languages.
Proof.
  unfold choose_language. case_decide; [done|].
  unfold supported_languages. apply elem_of_cons. by left.
Qed.

Lemma remove_log (Q : event -> Prop) (path : string) (w : world) :
  Q (EvRemove path) -> extends_by Q w (exec (Remove path) w).2.
Proof.
  intros HQ. exists [EvRemove path]. split; [|by apply Forall_singleton].
  simpl. by destruct (fs w !! path).
Qed.

Lemma cleanup_log (Q : event -> Prop) (pdf_path : string)
    (mp3_path : option string) (w : world) :
  Q (EvRemove pdf_path) ->
  (forall mp3, mp3_path = Some mp3 -> Q (EvRemove mp3)) ->
  extends_by Q w (cleanup pdf_path mp3_path w).
Proof.
  intros Hpdf Hmp3. unfold cleanup.
  assert (extends_by Q w
            (if path_exists pdf_path w then exec (Remove pdf_path) w
             else (inr tt, w)).2) as H1.
  { destruct (path_exists pdf_path w); [by apply remove_log|].
    apply extends_by_refl. }
  destruct (if path_exists pdf_path w then _ else _) as [[e|[]] w1];
    simpl in H1; [done|].
  destruct mp3_path as [mp3|]; [|done].
  destruct (path_exists mp3 w1); [|done].
  eapply extends_by_trans; [done|]. apply remove_log. by apply Hmp3.
Qed.

(** ** The upload handler: what a request does at all *)

(** X20. What a request does at all.  The language handed to the
    conversion is one of the ten supported ones, whatever the form says.
    Every event a request adds to the log, up to the return of the handler
    and, after a timeout, in what the abandoned thread goes on to do, is one
    of these: storing the upload and removing it again; removing the
    destination; and what a conversion into the destination in that language
    may do (syntheses of at most 1000 characters, saves to the destination or
    its temporary chunk files, and so on). *)
Theorem request_stays_within_bounds (env : Env) (req : request)
    (file : upload) (w w' : world) (r : response) (thread : thread_state) :
  files_file req = Some file ->
  upload_file env req w = (r, thread, w') ->
  choose_language req ∈ supported_languages
  /\ exists l l' : list event,
       log w' = log w ++ l
       /\ log (settled thread w') = log w' ++ l'
       /\ Forall (request_event env req file) (l ++ l').
Proof.
  intros Hfile Hup. split; [apply choose_language_supported|].
  set (Q := request_event env req file).
  set (pdf := pdf_path_of env file).
  set (mp3 := mp3_path_of env file).
  assert (Q (EvOpenWb pdf)) as Qopen by by left.
  assert (Q (EvWrite pdf (stream file))) as Qwrite by (right; by left).
  assert (Q (EvRemove pdf)) as Qrm by (right; right; by left).
  assert (Q (EvRemove mp3)) as Qrm' by (right; right; right; by left).
  assert (forall ev, conversion_event mp3 (choose_language req) ev -> Q ev)
    as Qconv by (intros ev Hev; by do 4 right).
  enough (extends_by Q w w' /\ extends_by Q w' (settled thread w'))
    as [(l & Hl & HF) (l' & Hl' & HF')].
  { exists l, l'. split; [done|]. split; [done|]. by apply Forall_app. }
  revert Hup.
  destruct (allowed_file (filename file)) eqn:Hallowed.
  2:{ unfold upload_file, upload_prepare. rewrite Hfile.
      case_decide; [intros [= <- <- <-]; split; apply extends_by_refl|].
      rewrite Hallowed. intros [= <- <- <-]; split; apply extends_by_refl. }
  destruct (decide (file_size file > max_size)) as [Hbig|Hsize].
  { unfold upload_file, upload_prepare. rewrite Hfile, Hallowed.
    rewrite decide_False by by apply allowed_file_nonempty.
    simpl negb. cbv iota. rewrite decide_True by done.
    intros [= <- <- <-]; split; apply extends_by_refl. }
  destruct (stored_spec env file w) as (_ & Hlog & _).
  destruct (unstored_spec env file w) as (_ & _ & Hlog' & _).
  assert (extends_by Q w (stored env file w)) as Hstored.
  { eapply extends_by_log; [done|]. by repeat constructor. }
  assert (extends_by Q w (unstored env file w)) as Hunstored.
  { eapply extends_by_log; [done|]. by repeat constructor. }
  unfold upload_file.
  rewrite (upload_prepare_stored env req file w Hfile Hallowed) by lia.
  fold pdf mp3.
  destruct (if unreadable w pdf then _ else _) as [e|pages].
  { intros [= <- <- <-]. split; [done|apply extends_by_refl]. }
  case_decide.
  { intros [= <- <- <-]. split; [done|apply extends_by_refl]. }
  destruct (get_texts pages "") as [e|raw].
  { unfold on_exception. intros [= <- <- <-]. split; [|apply extends_by_refl].
    apply (extends_by_trans _ _ _ _ Hstored). by apply cleanup_log. }
  destruct (is_blank raw).
  { intros [= <- <- <-]. split; [done|apply extends_by_refl]. }
  destruct (text_to_mp3_optimized _ _ _ _ _) as [[res th] w2] eqn:Hconv.
  assert (forall (base : world) X (o : op X) (w1 : world),
            conversion_op mp3 (choose_language req) X o ->
            extends_by Q base w1 -> extends_by Q base (exec o w1).2) as Hstep.
  { intros base X o w1 Ho Hw1. eapply extends_by_trans; [done|].
    destruct (conversion_op_log mp3 _ o w1 Ho) as (l & Hl & HF).
    apply (extends_by_mono _ _ _ _ Qconv). by exists l. }
  destruct (conversion_invariant (extends_by Q (stored env file w))
              _ _ _ _ _ _ _ _ (Hstep _) Hconv (extends_by_refl _ _))
    as [Hconverted Hrest].
  assert (forall w3 : world, extends_by Q w3 (settled th w3)) as Hsettled.
  { intros w3. destruct th as [|rest]; [apply extends_by_refl|]. simpl.
    apply (all_ops_run (conversion_op mp3 (choose_language req))
             (extends_by Q w3) rest w3 (Hstep w3) Hrest (extends_by_refl _ _)). }
  assert (extends_by Q w w2) as Hw2
    by apply (extends_by_trans _ _ _ _ Hstored Hconverted).
  destruct res as [e|[]].
  - unfold on_exception. intros [= <- <- <-]. split; [|done].
    apply (extends_by_trans _ _ _ _ Hw2). apply cleanup_log; [done|].
    by intros ? [= <-].
  - pose proof (remove_log Q pdf w2 Qrm) as Hrm.
    destruct (exec (Remove pdf) w2) as [[e|[]] w3]; simpl in Hrm.
    + unfold on_exception. intros [= <- <- <-]. split; [|done].
      apply (extends_by_trans _ _ _ _ Hw2), (extends_by_trans _ _ _ _ Hrm).
      apply cleanup_log; [done|]. by intros ? [= <-].
    + intros [= <- <- <-]. split; [|done].
      apply (extends_by_trans _ _ _ _ Hw2 Hrm).
Qed.

Lemma request_stays_within_bounds_witness :
  let w := initial_world ∅ stalling_backend in
  let file := upload_of "talk.pdf" "hello world" in
  let req := {| files_file := Some file; form_language := Some "tlh" |} in
  let '(r, thread, w') := upload_file test_env req w in
  choose_language req ∈ supported_languages
  /\ exists l l' : list event,
       log w' = log w ++ l
       /\ log (settled thread w') = log w' ++ l'
       /\ Forall (request_event test_env req file) (l ++ l').
Proof.
  intros w file req.
  destruct (upload_file test_env req w) as [[r thread] w'] eqn:Hup.
  apply (request_stays_within_bounds test_env req file w w' r thread eq_refl Hup).
Defined.

(** ** A request that succeeds *)

Lemma is_blank_nonempty (s : string) : is_blank s = false -> Str.len s >= 1.
Proof.
  destruct s as [|c s]; [done|]. intros _. unfold Str.len. simpl. lia.
Qed.

Lemma chunk_count_short (n : Z) :
  1 <= n <= max_chunk_size -> chunk_count n = 1.
Proof.
  unfold chunk_count, max_chunk_size. intros Hn.
  assert (0 < (n + 1000 - 1) `div` 1000) by (apply Z.div_str_pos; lia).
  assert ((n + 1000 - 1) `div` 1000 < 2) by (apply Z.div_lt_upper_bound; lia).
  lia.
Qed.

(** With a backend that does not fail, a conversion succeeds: two calls
    per chunk, and the output holds the audio of the chunks' persist calls
    in chunk order. *)
Lemma conversion_succeeds (text output_path language : string) (w : world)
    (audio : nat -> bytes) :
  let n := length (chunks text) in
  let audios := (fun j => audio (calls w + 2 * j + 1)%nat) <$> seq 0 n in
  Str.len text >= 1 ->
  all_succeed w audio ->
  (forall tf, tf ∈ temp_file_names output_path (Z.of_nat n) ->
              unreadable w tf = false) ->
  exists w',
    run (convert text output_path language) w = (inr tt, w')
    /\ success (result w') = true
    /\ fs w' !! output_path = Some (concat audios)
    /\ (forall p, p <> output_path ->
                  p ∉ temp_file_names output_path (Z.of_nat n) ->
                  fs w' !! p = fs w !! p)
    /\ calls w' = (calls w + 2 * n)%nat.
Proof.
  intros n audios Hlen Hok Hreadable.
  destruct (decide (Str.len text > max_chunk_size)) as [Hlong|Hshort].
  - destruct (long_conversion_succeeds text output_path language w audio
                Hlong Hok Hreadable)
      as (w' & Hrun & Hs & Hout & _ & Hframe & Hcalls).
    by exists w'.
  - assert (n = 1%nat) as Hn.
    { pose proof (length_chunks text) as Hc.
      rewrite chunk_count_short in Hc by lia. subst n. lia. }
    rewrite run_convert. unfold conversion_work.
    rewrite decide_False by done.
    destruct (synthesize_and_persist_succeeds text language output_path w
                audio Hok) as (w1 & -> & Hfs & Hcalls & _).
    eexists. split; [reflexivity|]. simpl. split; [done|].
    subst audios. rewrite Hn. simpl. rewrite app_nil_r.
    split. { rewrite Hfs, lookup_insert_eq. do 2 f_equal. lia. }
    split. { intros p Hp _. rewrite Hfs. by apply lookup_insert_ne. }
    lia.
Qed.

(** X21. A request that succeeds.  An upload that is named as a PDF,
    is within the size limit, opens as a document and has pages whose texts
    are not all white space, with a backend that does not fail and answers
    every call within 13 time units, is answered 200 with the name of the
    output file and the length of the capped text.  The conversion has made
    two backend calls per chunk; the output file holds the audio of the
    chunks' persist calls in chunk order; the stored upload is gone; no
    thread is left running. *)
Theorem good_upload_is_converted (env : Env) (req : request) (file : upload)
    (w : world) (texts : list string) (audio : nat -> bytes) :
  let text := cap_text (Str.join texts) in
  let n := length (chunks text) in
  let audios := (fun j => audio (calls w + 2 * j + 1)%nat) <$> seq 0 n in
  files_file req = Some file ->
  allowed_file (filename file) = true ->
  file_size file <= max_size ->
  fitz_open env (stream file) = inr (inr <$> texts) ->
  texts <> [] ->
  is_blank (Str.join texts) = false ->
  prompt 13 audio w ->
  unreadable w (pdf_path_of env file) = false ->
  (forall tf, tf ∈ temp_file_names (mp3_path_of env file) (Z.of_nat n) ->
              unreadable w tf = false) ->
  exists w',
    upload_file env req w
    = ({| json := SuccessBody (mp3_filename_of env file) (Str.len text);
          status := 200 |}, Finished, w')
    /\ fs w' !! mp3_path_of env file = Some (concat audios)
    /\ fs w' !! pdf_path_of env file = None
    /\ calls w' = (calls w + 2 * n)%nat.
Proof.
  intros text n audios Hfile Hallowed Hsize Hfitz Hpages Hblank [Hok Hlat]
    Hread Hreadable.
  set (pdf := pdf_path_of env file) in *.
  set (mp3 := mp3_path_of env file) in *.
  destruct (stored_spec env file w) as (Hfs & _ & Hc & Hb & Hu & _).
  fold pdf in Hfs.
  set (ws := stored env file w) in *.
  set (w0 := with_result {| success := false; error := None |} ws).
  assert (prompt 13 audio w0) as Hprompt.
  { subst w0. unfold prompt, all_succeed. simpl. rewrite Hb. done. }
  assert (Str.len text >= 1) as Hlen.
  { subst text. pose proof (is_blank_nonempty _ Hblank).
    destruct (decide (Str.len (Str.join texts) > 30000)).
    - rewrite len_cap_text_long by done. lia.
    - rewrite cap_text_short by lia. done. }
  destruct (conversion_succeeds text mp3 (choose_language req) w0 audio Hlen)
    as (w2 & Hrun & Hsuccess & Hout & Hframe & Hcalls).
  { apply Hprompt. }
  { intros tf Htf. subst w0. simpl. rewrite Hu. by apply Hreadable. }
  assert (calls w0 = calls w) as Hc0 by (subst w0; done).
  rewrite Hc0 in Hout. rewrite Hc0 in Hcalls.
  assert (text_to_mp3_optimized text mp3 (choose_language req)
            conversion_timeout ws = (inr tt, Finished, w2)) as Hconv.
  { unfold text_to_mp3_optimized, join. fold w0.
    rewrite join_for_finished.
    - rewrite Hrun. simpl. by rewrite Hsuccess.
    - pose proof (elapsed_convert 13 audio text mp3 (choose_language req) w0
                    Hprompt) as Htime.
      pose proof (chunk_count_capped (Str.join texts)) as Hn.
      fold text in Hn.
      assert (28 * Z.max 1 (chunk_count (Str.len text)) <= 28 * 31)
        by (apply Z.mul_le_mono_nonneg_l; lia).
      unfold conversion_timeout. lia. }
  assert (fs w2 !! pdf = Some (stream file)) as Hpdf.
  { rewrite Hframe.
    - subst w0. simpl. rewrite Hfs. apply lookup_insert_eq.
    - apply pdf_path_ne_mp3_path.
    - intros (i & Heq & _)%list_elem_of_fmap.
      apply (pdf_path_not_own env file). right. exists i. exact Heq. }
  unfold upload_file.
  rewrite (upload_prepare_stored env req file w Hfile Hallowed Hsize).
  fold pdf mp3. rewrite Hread, Hfitz.
  rewrite decide_False.
  2:{ rewrite length_fmap. destruct texts; [done|]. simpl. lia. }
  assert (get_texts (inr <$> texts) "" = inr (Str.join texts)) as ->.
  { apply get_texts_ok. exists texts. by rewrite StrFacts.app_nil_l. }
  rewrite Hblank. fold text. fold ws. rewrite Hconv.
  simpl. rewrite Hpdf. simpl.
  eexists. split; [reflexivity|]. simpl.
  split.
  { rewrite lookup_delete_ne; [done|]. apply pdf_path_ne_mp3_path. }
  split; [apply lookup_delete_eq|done].
Qed.

Lemma good_upload_is_converted_witness :
  let w := initial_world ∅ (constant_backend
             {| latency := 13; result_of := Succeeds [Byte.x01] |}) in
  let file := upload_of "talk.pdf" "hello world" in
  exists w',
    upload_file test_env (request_of file) w
    = ({| json := SuccessBody "0f8fad5b_talk.mp3" 11; status := 200 |},
       Finished, w')
    /\ fs w' !! "/app/outputs/0f8fad5b_talk.mp3" = Some [Byte.x01]
    /\ fs w' !! "/app/uploads/0f8fad5b_talk.pdf" = None
    /\ calls w' = 2%nat.
Proof.
  intros w file.
  apply (good_upload_is_converted test_env (request_of file) file w
           ["hello world"] (fun _ => [Byte.x01])).
  - reflexivity.
  - reflexivity.
  - vm_compute. discriminate.
  - reflexivity.
  - discriminate.
  - reflexivity.
  - split; [intros k; reflexivity|intros k; simpl; lia].
  - reflexivity.
  - intros tf _. reflexivity.
Defined.

(** ** The download route *)

(** X22. What was converted can be downloaded.  When the handler has
    answered with success, [download_file] of the file name in the answer,
    provided [safe_join] accepts that name as it is and the file may be read,
    sends the file that the conversion left at the destination, as an
    attachment under the same name. *)
Theorem converted_file_can_be_downloaded
    (safe_join : string -> string -> option string) (env : Env) (req : request)
    (w w' : world) (thread : thread_state) (name : string) (text_length : Z) :
  upload_file env req w
  = ({| json := SuccessBody name text_length; status := 200 |}, thread, w') ->
  let output_path := (ensure_folders env).2 in
  safe_join output_path name = Some (path_join output_path name) ->
  unreadable w' (path_join output_path name) = false ->
  exists data : bytes,
    fs w' !! path_join output_path name = Some data
    /\ download_file safe_join env name w' = Attachment name data.
Proof.
  intros Hup output_path Hjoin Hread.
  destruct (upload_file_200 _ _ _ _ _ _ Hup eq_refl)
    as (file & raw & w1 & w2 & _ & _ & Hconv & Hrm & [= -> _]).
  destruct (upload_file_200_output _ _ _ _ _ _ _ _ Hconv Hrm)
    as (_ & _ & [data Hdata] & _).
  change (mp3_path_of env file)
    with (path_join output_path (mp3_filename_of env file)) in Hdata.
  exists data. split; [done|].
  unfold download_file, send_from_directory.
  change (ensure_folders env)
    with (path_join (root_path env) UPLOAD_FOLDER, output_path).
  cbv iota. by rewrite Hjoin, Hdata, Hread.
Qed.

Lemma converted_file_can_be_downloaded_witness :
  let w := initial_world ∅ (constant_backend
             {| latency := 1; result_of := Succeeds [Byte.x01] |}) in
  let file := upload_of "talk.pdf" "hello world" in
  let safe_join := fun directory name => Some (path_join directory name) in
  let w' := (upload_file test_env (request_of file) w).2 in
  exists data : bytes,
    fs w' !! "/app/outputs/0f8fad5b_talk.mp3" = Some data
    /\ download_file safe_join test_env "0f8fad5b_talk.mp3" w'
       = Attachment "0f8fad5b_talk.mp3" data.
Proof.
  intros w file safe_join.
  destruct (upload_file test_env (request_of file) w) as [[r thread] w'] eqn:Hup.
  assert (r = {| json := SuccessBody "0f8fad5b_talk.mp3" 11; status := 200 |})
    as ->.
  { vm_compute in Hup. by injection Hup as <- _ _. }
  simpl.
  apply (converted_file_can_be_downloaded safe_join test_env (request_of file)
           w w' thread "0f8fad5b_talk.mp3" 11 Hup eq_refl).
  vm_compute in Hup. by injection Hup as _ <-.
Defined.

(** Every failure of a download looks the same.  [download_file]
    answers 404 'File not found' exactly when [safe_join] refuses the name,
    or no file is at the path it gives, or that file may not be read; in
    every other case it sends the file.  It never raises. *)
Lemma download_fails_as_not_found
    (safe_join : string -> string -> option string) (env : Env)
    (filename : string) (w : world) :
  (download_file safe_join env filename w = Json not_found
   <-> forall full, safe_join (ensure_folders env).2 filename = Some full ->
                    read_error w full <> None)
  /\ (forall answer, download_file safe_join env filename w = answer ->
        answer = Json not_found
        \/ exists full data,
             safe_join (ensure_folders env).2 filename = Some full
             /\ holds w full data
             /\ answer = Attachment filename data).
Proof.
  unfold download_file, send_from_directory, read_error, holds. simpl.
  destruct (safe_join _ filename) as [full|].
  2:{ split; [done|]. intros answer <-. by left. }
  destruct (fs w !! full) as [data|] eqn:Hfull.
  2:{ split.
      - split; [|done]. intros _ full' [= <-]. by rewrite Hfull.
      - intros answer <-. by left. }
  destruct (unreadable w full) eqn:Hread.
  - split.
    + split; [|done]. intros _ full' [= <-]. by rewrite Hfull, Hread.
    + intros answer <-. by left.
  - split.
    + split; [done|]. intros H. specialize (H full eq_refl).
      by rewrite Hfull, Hread in H.
    + intros answer <-. right. exists full, data. by rewrite Hfull.
Qed.

(** ** The scenarios of the specification *)

(** Scenario A: 500 characters are one chunk, synthesized and persisted by
    one call each, with no delay. *)
Example scenario_A :
  let text := repeat_char "a" 500 in
  let w := initial_world ∅ (constant_backend
             {| latency := 1; result_of := Succeeds [Byte.x01] |}) in
  let '(r, thread, w') := text_to_mp3_optimized text "out.mp3" "en" 900 w in
  r = inr tt
  /\ log w' = [EvGTTS text "en"; EvSave (Some (the_tts text "en")) "out.mp3"]
  /\ fs w' !! "out.mp3" = Some [Byte.x01]
  /\ size (fs w') = 1%nat.
Proof. vm_compute. repeat split; reflexivity. Qed.

(** Scenario B: 2500 characters are three chunks of 1000, 1000 and 500
    characters with two delays between them, and the output is the three
    audios in order. *)
Example scenario_B :
  let text := repeat_char "a" 2500 in
  let b := fun n : nat =>
    {| latency := 1; result_of := Succeeds (replicate n Byte.x01) |} in
  let '(r, thread, w') :=
    text_to_mp3_optimized text "out.mp3" "en" 900 (initial_world ∅ b) in
  r = inr tt
  /\ Str.len <$> chunks text = [1000; 1000; 500]
  /\ sleeps (log w') = [2; 2]
  /\ fs w' !! "out.mp3" = Some (replicate 1 Byte.x01 ++ replicate 3 Byte.x01
                                  ++ replicate 5 Byte.x01)
  /\ size (fs w') = 1%nat.
Proof. vm_compute. repeat split; reflexivity. Qed.

(** Scenario C: the backend fails the first two attempts and succeeds on
    the third; the conversion succeeds and the waits add up to 2 + 4. *)
Example scenario_C :
  let b := fun n : nat =>
    if decide (n < 2)%nat
    then {| latency := 0; result_of := Fails (BackendError "503") None |}
    else {| latency := 0; result_of := Succeeds [Byte.x01] |} in
  let w := initial_world ∅ b in
  let '(r, thread, w') := text_to_mp3_optimized "hello" "out.mp3" "en" 900 w in
  r = inr tt
  /\ sleeps (log w') = [2; 4]
  /\ elapsed (convert "hello" "out.mp3" "en") w = 2 + 4
  /\ fs w' !! "out.mp3" = Some [Byte.x01].
Proof. vm_compute. auto. Qed.
